(** * Newledge sync plugin: the sync orchestrator, the note materializer,
    the path resolver, the account validator and the login poller.

    Shallow embedding of [src/main.ts] and of the settings tab
    ([_getLoginStatus]).  JavaScript strings are sequences of UTF-16 code
    units; asynchronous code is written in a small state-and-exception
    monad over a world that holds the shared settings object, the vault
    store and the history of calls made so far. *)

From Stdlib Require Import ZArith NArith Lia Ascii String DecimalNat Decimal.
From stdpp Require Import base tactics option list gmap sets.

Local Open Scope N_scope.

(** ** JavaScript strings *)

(** A JavaScript string is a sequence of UTF-16 code units. *)
Abbreviation str := (list N).

(** Code units of an ASCII literal. *)
Definition js (s : string) : str :=
  map N_of_ascii (list_ascii_of_string s).

Module Title.

(** The class [[\x00-\x1F\x7F-\x9F]]. *)
Definition is_control (c : N) : bool :=
  (c <=? 31) || ((127 <=? c) && (c <=? 159)).

(** The class of the second replacement: less-than, greater-than, colon,
    double quote, slash, backslash, bar, question mark, star. *)
Definition is_illegal (c : N) : bool :=
  (c =? 60) || (c =? 62) || (c =? 58) || (c =? 34) || (c =? 47)
  || (c =? 92) || (c =? 124) || (c =? 63) || (c =? 42).

(** The class [\s] (WhiteSpace and LineTerminator of ECMAScript); it is
    also the set of code units removed by [String.prototype.trim]. *)
Definition is_space (c : N) : bool :=
  (c =? 9) || (c =? 10) || (c =? 11) || (c =? 12) || (c =? 13)
  || (c =? 32) || (c =? 160) || (c =? 5760)
  || ((8192 <=? c) && (c <=? 8202))
  || (c =? 8232) || (c =? 8233) || (c =? 8239) || (c =? 8287)
  || (c =? 12288) || (c =? 65279).

(** First replacement: the code units of [is_control] are deleted. *)
Definition strip_control (s : str) : str :=
  List.filter (fun c => negb (is_control c)) s.

(** Second replacement: the code units of [is_illegal] become an
    underscore. *)
Definition replace_illegal (s : str) : str :=
  map (fun c => if is_illegal c then 95 else c) s.

(** Third replacement, of [\s+]: every maximal run of white space becomes
    one space.  [in_run] tells that the previous code unit was white space. *)
Fixpoint collapse_from (in_run : bool) (s : str) : str :=
  match s with
  | [] => []
  | c :: r =>
      if is_space c
      then (if in_run then collapse_from true r else 32 :: collapse_from true r)
      else c :: collapse_from false r
  end.

Definition collapse_spaces (s : str) : str := collapse_from false s.

Fixpoint trim_start (s : str) : str :=
  match s with
  | [] => []
  | c :: r => if is_space c then trim_start r else s
  end.

(** [.trim()] *)
Definition trim (s : str) : str :=
  rev (trim_start (rev (trim_start s))).

Definition MAX_LENGTH : nat := 100.

(** The placeholder title, U+6682 U+65E0 U+6807 U+9898. *)
Definition placeholder : str := [26242; 26080; 26631; 39064].

(** A code unit that is neither a control character nor one of the nine
    characters the second replacement removes. *)
Definition clean (c : N) : Prop := is_control c = false /\ is_illegal c = false.

(** The value of the local [sanitized] when [_normalizeTitle] reaches its
    [return]. *)
Definition sanitize (title : str) : str :=
  let sanitized := trim (collapse_spaces (replace_illegal (strip_control title))) in
  let sanitized :=
    if (MAX_LENGTH <? length sanitized)%nat then take MAX_LENGTH sanitized
    else sanitized in
  if (length sanitized =? 0)%nat then placeholder else sanitized.

End Title.

(** [normalizePath] belongs to the host API; it is a parameter of the
    model. *)
Definition _normalizeTitle (normalizePath : str -> str) (title : str) : str :=
  normalizePath (Title.sanitize title).

(** Decimal rendering of a counter inside a template literal. *)
Fixpoint uint_units (d : Decimal.uint) : str :=
  match d with
  | Nil => []
  | D0 u => 48 :: uint_units u
  | D1 u => 49 :: uint_units u
  | D2 u => 50 :: uint_units u
  | D3 u => 51 :: uint_units u
  | D4 u => 52 :: uint_units u
  | D5 u => 53 :: uint_units u
  | D6 u => 54 :: uint_units u
  | D7 u => 55 :: uint_units u
  | D8 u => 56 :: uint_units u
  | D9 u => 57 :: uint_units u
  end.

Definition show_nat (n : nat) : str := uint_units (Nat.to_uint n).

(** Truthiness of a [string | null] value: [null] and the empty string are
    falsy. *)
Definition truthy (o : option str) : bool :=
  match o with
  | Some (_ :: _) => true
  | _ => false
  end.

(** ** Data model *)

(** A thrown value; [description] is what [error.toString()] yields. *)
Record JsError := mkError { description : str }.

Record User := mkUser { user_id : str; user_name : str }.

Record NewledgeSettings := mkSettings {
  token : option str;
  user : option User;
  sessionId : option str;
  syncing : bool;
  rootDir : str;
  richTextDir : str;
  linkDir : str;
  syncInterval : Z;
  lastSyncTime : option Z;
  enable : bool
}.

Definition DEFAULT_SETTINGS : NewledgeSettings :=
  {| token := None; user := None; sessionId := None; syncing := false;
     rootDir := [26032; 26525];
     richTextDir := [31508; 35760];
     linkDir := [25991; 31456];
     syncInterval := 60; lastSyncTime := None; enable := true |}.

Definition set_syncing (b : bool) (s : NewledgeSettings) : NewledgeSettings :=
  {| token := token s; user := user s; sessionId := sessionId s; syncing := b;
     rootDir := rootDir s; richTextDir := richTextDir s; linkDir := linkDir s;
     syncInterval := syncInterval s; lastSyncTime := lastSyncTime s;
     enable := enable s |}.

Definition set_lastSyncTime (t : Z) (s : NewledgeSettings) : NewledgeSettings :=
  {| token := token s; user := user s; sessionId := sessionId s;
     syncing := syncing s;
     rootDir := rootDir s; richTextDir := richTextDir s; linkDir := linkDir s;
     syncInterval := syncInterval s; lastSyncTime := Some t;
     enable := enable s |}.

(** [token = null; user = null; sessionId = null] *)
Definition clear_account (s : NewledgeSettings) : NewledgeSettings :=
  {| token := None; user := None; sessionId := None; syncing := syncing s;
     rootDir := rootDir s; richTextDir := richTextDir s; linkDir := linkDir s;
     syncInterval := syncInterval s; lastSyncTime := lastSyncTime s;
     enable := enable s |}.

Record IntegrationResponse := mkIntegration {
  int_valid : bool;
  int_failedTaskCount : Z
}.

Record SyncTaskResponse := mkSyncTask {
  st_valid : bool;
  st_limit : Z;
  st_result : list str
}.

Inductive PropValue :=
| PText (v : str)
| PList (vs : list str).

(** A plain object as [_syncNote] fills it, [{}] at first: its own
    properties, and the array that became its prototype, if any (the
    prototype is [Object.prototype] otherwise). *)
Record JsObject := mkObject {
  own : gmap str PropValue;
  prototype : option (list str)
}.

(** What [jwtDecode(token)] gives [_checkToken]: it throws; or it returns
    null, and the destructuring of the next line throws; or it returns a
    payload, of which the code uses [exp * 1000] only: [exp] is the number
    that the field converts to (null converts to 0), an integer as the
    times of this model are, and [None] stands for NaN (the field is
    missing, or does not convert to a number). *)
Inductive Decoded :=
| DecodeError
| DecodedNull
| DecodedExp (exp : option Z).

Record NoteContent := mkNote {
  nc_id : option str;
  nc_title : str;
  nc_superType : str;
  nc_properties : list (str * PropValue);
  nc_text : str;
  nc_tagList : list str;
  nc_noteType : str;
  nc_relatedContentTitle : option str;
  nc_relatedContentSuperType : option str
}.

Record LoginStatus := mkLoginStatus {
  ls_status : bool;
  ls_token : option str;
  ls_id : option str;
  ls_name : option str;
  ls_avatar : option str;
  ls_invalidSessionId : bool
}.

(** [LoginStatus & { qrCodeExpired?: boolean }] *)
Record LoginResponse := mkLoginResponse {
  login : LoginStatus;
  qrCodeExpired : option bool
}.

Record AccountResult := mkAccount { valid : bool; failedTaskCount : Z }.

Record SyncNoteResult := mkResult {
  pluginEnable : bool;
  taskExist : bool;
  syncSuccess : bool
}.

(** The notices of [sync], by their meaning. *)
Inductive NoticeMsg :=
| NoticeSyncStart
| NoticeDisabled
| NoticeUnbound
| NoticeNoData
| NoticeDone (succeeded failed : nat)
| NoticeSyncFailed.

(** What the plugin asks of the outside world, in the order it asks. *)
Inductive Event :=
| SaveData (s : NewledgeSettings)
| GetIntegration (sid tok : str)
| GetSyncTask (tok : str)
| GetSyncContent (id tok : str)
| SyncSuccess (id tok : str)
| SyncFailed (id tok message : str)
| GetLoginStatus (sid : str)
| CreateFolder (path : str)
| Exists (path : str)
| WriteFile (path data : str)
| Sleep (ms : Z)
| IntervalTick (ms : Z)
| ShowNotice (m : NoticeMsg).

(** The outside world as seen along one execution.  Every answer may depend
    on everything the plugin did so far; the head of the history is the
    call being answered.
    - [env_fail]: the awaited call rejects with this error;
    - [env_interfere]: what other handlers (unload, the settings tab, a
      second trigger) do to the shared settings object while the caller is
      suspended in that call. *)
Record Env := mkEnv {
  env_now : list Event -> Z;
  env_interfere : list Event -> NewledgeSettings -> NewledgeSettings;
  env_fail : list Event -> option JsError;
  env_integration : list Event -> IntegrationResponse;
  env_syncTask : list Event -> SyncTaskResponse;
  env_syncContent : list Event -> NoteContent;
  env_loginStatus : list Event -> LoginStatus
}.

(** Functions of the host API, of [jwt-decode] and of the template module. *)
Record Host := mkHost {
  normalizePath : str -> str;
  jwtDecode : str -> Decoded;
  renderLinkProperty : JsObject -> str;
  renderRichTextProperty : JsObject -> str;
  renderText : str -> str -> list str -> str
}.

(** The plugin's view of the world: the shared settings object, the paths
    that exist in the vault, and the calls made so far (latest first). *)
Record World := mkWorld {
  settings : NewledgeSettings;
  store : gset str;
  history : list Event
}.

(** ** Asynchronous code: state, exceptions, divergence *)

Inductive Res (A : Type) :=
| Ret (a : A)
| Throw (e : JsError)
| Diverge.
Arguments Ret {A} a.
Arguments Throw {A} e.
Arguments Diverge {A}.

Definition M (A : Type) : Type := World -> Res A * World.

Definition ret {A} (a : A) : M A := fun w => (Ret a, w).
Definition throw {A} (e : JsError) : M A := fun w => (Throw e, w).
Definition diverge {A} : M A := fun w => (Diverge, w).

Definition bind {A B} (m : M A) (k : A -> M B) : M B := fun w =>
  match m w with
  | (Ret a, w1) => k a w1
  | (Throw e, w1) => (Throw e, w1)
  | (Diverge, w1) => (Diverge, w1)
  end.

Notation "'let*' x ':=' m 'in' k" := (bind m (fun x => k))
  (at level 10, x pattern, m at level 100, k at level 200).
Notation "m '>>' k" := (bind m (fun _ => k))
  (at level 95, right associativity).

(** [try { m } catch (error) { handler error }] *)
Definition try_catch {A} (m : M A) (handler : JsError -> M A) : M A := fun w =>
  match m w with
  | (Throw e, w1) => handler e w1
  | r => r
  end.

(** [try { m } finally { fin }] *)
Definition finally {A} (m : M A) (fin : M unit) : M A := fun w =>
  match m w with
  | (Diverge, w1) => (Diverge, w1)
  | (r, w1) =>
      match fin w1 with
      | (Ret _, w2) => (r, w2)
      | (Throw e, w2) => (Throw e, w2)
      | (Diverge, w2) => (Diverge, w2)
      end
  end.

Definition get_settings : M NewledgeSettings := fun w => (Ret (settings w), w).

Definition modify_settings (f : NewledgeSettings -> NewledgeSettings) : M unit :=
  fun w => (Ret tt, {| settings := f (settings w); store := store w;
                       history := history w |}).

Definition add_path (p : str) : M unit :=
  fun w => (Ret tt, {| settings := settings w; store := {[p]} ∪ store w;
                       history := history w |}).

Definition add_paths (ps : list str) : M unit :=
  fun w => (Ret tt, {| settings := settings w;
                       store := list_to_set ps ∪ store w;
                       history := history w |}).

(** The folders above a path: its proper prefixes that end before a slash,
    the empty one and those that end in a slash themselves left out. *)
Fixpoint parents_from (pre rest : str) : list str :=
  match rest with
  | [] => []
  | c :: r =>
      match last pre with
      | Some d => if (c =? 47) && negb (d =? 47) then [pre] else []
      | None => []
      end ++ parents_from (pre ++ [c]) r
  end.

Definition parents (path : str) : list str := parents_from [] path.

(** [new Notice(...)]: recorded, no suspension. *)
Definition notice (m : NoticeMsg) : M unit :=
  fun w => (Ret tt, {| settings := settings w; store := store w;
                       history := ShowNotice m :: history w |}).

(** ** The plugin *)

Section Plugin.

Context (host : Host) (env : Env).

(** The world in which an awaited call resumes: the call has entered the
    history, and other handlers have run while the caller was suspended. *)
Definition suspended (ev : Event) (w : World) : World :=
  let h := ev :: history w in
  {| settings := env_interfere env h (settings w);
     store := store w; history := h |}.

(** An awaited operation that cannot reject. *)
Definition suspend (ev : Event) : M unit := fun w => (Ret tt, suspended ev w).

(** An awaited operation that may reject. *)
Definition await (ev : Event) : M unit :=
  suspend ev >>
  fun w => match env_fail env (history w) with
           | Some e => (Throw e, w)
           | None => (Ret tt, w)
           end.

(** [new Date()], [Date.now()] *)
Definition now : M Z := fun w => (Ret (env_now env (history w)), w).

Definition sleep (ms : Z) : M unit := suspend (Sleep ms).

Definition saveSettings : M unit :=
  let* s := get_settings in
  await (SaveData s).

(** *** The service module *)

Definition getIntegration (sid tok : str) : M IntegrationResponse :=
  await (GetIntegration sid tok) >>
  fun w => (Ret (env_integration env (history w)), w).

Definition getSyncTask (tok : str) : M SyncTaskResponse :=
  await (GetSyncTask tok) >>
  fun w => (Ret (env_syncTask env (history w)), w).

Definition getSyncContent (id tok : str) : M NoteContent :=
  await (GetSyncContent id tok) >>
  fun w => (Ret (env_syncContent env (history w)), w).

Definition getLoginStatus (sid : str) : M LoginStatus :=
  await (GetLoginStatus sid) >>
  fun w => (Ret (env_loginStatus env (history w)), w).

(** [syncSuccess] and [syncFailed] of the service module ([syncSuccess] is
    also the name of a field of the materializer's result). *)
Definition ackSuccess (id tok : str) : M unit := await (SyncSuccess id tok).

Definition ackFailed (id tok message : str) : M unit :=
  await (SyncFailed id tok message).

(** *** The vault *)

(** [vault.createFolder]: rejects when the path exists; otherwise it makes
    the folder and the folders above it that are missing. *)
Definition createFolder (path : str) : M unit :=
  suspend (CreateFolder path) >>
  fun w =>
    if bool_decide (path ∈ store w)
    then (Throw (mkError (js "Folder already exists.")), w)
    else match env_fail env (history w) with
         | Some e => (Throw e, w)
         | None => add_paths (parents path ++ [path]) w
         end.

(** [adapter.exists] answers from the store. *)
Definition adapter_exists (path : str) : M bool :=
  suspend (Exists path) >>
  fun w => (Ret (bool_decide (path ∈ store w)), w).

Definition adapter_write (path data : str) : M unit :=
  await (WriteFile path data) >>
  add_path path.

(** *** main.ts *)

Definition _checkToken (tok : option str) : M (bool * bool) :=
  if truthy tok then
    match jwtDecode host (default [] tok) with
    | DecodeError | DecodedNull => ret (false, false)
    | DecodedExp exp =>
        let* t := now in
        match exp with
        | Some exp => if (exp * 1000 <=? t)%Z then ret (true, false)
                      else ret (true, true)
        | None => ret (true, true)
        end
    end
  else ret (false, false).

Definition checkAccount : M AccountResult :=
  let* s := get_settings in
  let* (format, unExpired) := _checkToken (token s) in
  let tokenValid := format && unExpired in
  let* checked :=
    if tokenValid && truthy (token s) && truthy (sessionId s) then
      try_catch
        (let* r := getIntegration (default [] (sessionId s)) (default [] (token s)) in
         ret (inr (int_valid r, int_failedTaskCount r)))
        (fun _ => ret (inl (mkAccount false 0)))
    else ret (inr (false, 0%Z)) in
  match checked with
  | inl early => ret early
  | inr (integrationValid, failed) =>
      (if negb tokenValid || negb integrationValid
       then modify_settings clear_account >> saveSettings
       else ret tt) >>
      ret (mkAccount (tokenValid && integrationValid) failed)
  end.

Fixpoint for_each {A} (l : list A) (body : A -> M unit) : M unit :=
  match l with
  | [] => ret tt
  | x :: r => body x >> for_each r body
  end.

Definition _initDir : M unit :=
  let* s := get_settings in
  let normalizedRoot := normalizePath host (rootDir s) in
  let linkDirPath := normalizePath host (normalizedRoot ++ js "/" ++ linkDir s) in
  let richTextDirPath :=
    normalizePath host (normalizedRoot ++ js "/" ++ richTextDir s) in
  for_each [normalizedRoot; linkDirPath; richTextDirPath]
    (fun dir => try_catch (createFolder dir) (fun _ => ret tt)).

(** The loop of [_getFileName]; [i] and [fileName] are its two locals. *)
Fixpoint getFileName_loop (fuel : nat) (name : str) (i : nat) (fileName : str)
  : M str :=
  match fuel with
  | O => diverge
  | S fuel =>
      let* taken := adapter_exists fileName in
      if taken
      then getFileName_loop fuel name (S i)
             (name ++ js " " ++ show_nat (S i) ++ js ".md")
      else ret fileName
  end.

(** The [i]-th name the loop tries. *)
Definition candidate (name : str) (i : nat) : str :=
  match i with
  | O => name ++ js ".md"
  | S _ => name ++ js " " ++ show_nat i ++ js ".md"
  end.

(** The store is finite, so the loop ends within one more round than it
    has paths (shown below, [getFileName_loop_finds]). *)
Definition _getFileName (name : str) : M str := fun w =>
  getFileName_loop (S (size (store w))) name 0 (name ++ js ".md") w.

Definition SUPER_LINK : str := js "SUPER_LINK".
Definition SUPER_RICH_TEXT : str := js "SUPER_RICH_TEXT".
Definition HIGHLIGHT : str := js "HIGHLIGHT".
Definition ANNOTATION : str := js "ANNOTATION".

Definition eqs (a b : str) : bool := bool_decide (a = b).

(** [obj[key] = value] on an object made by [{}].  The key [__proto__]
    reaches the setter of [Object.prototype]: an array becomes the
    prototype, a string is ignored, and no own property is stored.  Any
    other key becomes an own property. *)
Definition set_property (obj : JsObject) (key : str) (value : PropValue)
  : JsObject :=
  if bool_decide (key = js "__proto__") then
    match value with
    | PList vs => mkObject (own obj) (Some vs)
    | PText _ => obj
    end
  else mkObject (<[key := value]> (own obj)) (prototype obj).

(** [propertiesObj[key] = value] for every property, in order. *)
Definition propertiesObj (properties : list (str * PropValue)) : JsObject :=
  foldl (fun obj kv => set_property obj (fst kv) (snd kv)) (mkObject ∅ None)
    properties.

(** The destination of a note (the assignments to [fileName]). *)
Definition destination (s : NewledgeSettings) (note : NoteContent) : M str :=
  let normalizedTitle := _normalizeTitle (normalizePath host) (nc_title note) in
  let normalizedRoot := normalizePath host (rootDir s) in
  let normalizedLinkDir := normalizePath host (linkDir s) in
  let normalizedRichTextDir := normalizePath host (richTextDir s) in
  if eqs (nc_superType note) SUPER_LINK then
    try_catch
      (createFolder
         (normalizePath host (normalizedRoot ++ js "/" ++ normalizedLinkDir)))
      (fun _ => ret tt) >>
    _getFileName
      (normalizedRoot ++ js "/" ++ normalizedLinkDir ++ js "/" ++ normalizedTitle)
  else if eqs (nc_superType note) SUPER_RICH_TEXT then
    if (eqs (nc_noteType note) HIGHLIGHT || eqs (nc_noteType note) ANNOTATION)
       && truthy (nc_relatedContentTitle note)
       && bool_decide (nc_relatedContentSuperType note = Some SUPER_LINK)
    then
      let normalizedRelatedContentTitle :=
        _normalizeTitle (normalizePath host)
          (default [] (nc_relatedContentTitle note)) in
      let relatedContentDir :=
        normalizePath host
          (normalizedRoot ++ js "/" ++ normalizedLinkDir ++ js "/"
           ++ normalizedRelatedContentTitle) in
      try_catch
        (createFolder
           (normalizePath host
              (normalizedRoot ++ js "/" ++ normalizedLinkDir ++ js "/"
               ++ normalizedRelatedContentTitle)))
        (fun _ => ret tt) >>
      _getFileName (relatedContentDir ++ js "/" ++ normalizedTitle)
    else
      _getFileName
        (normalizedRoot ++ js "/" ++ normalizedRichTextDir ++ js "/"
         ++ normalizedTitle)
  else ret [].

Definition noteText (note : NoteContent) : str :=
  let obj := propertiesObj (nc_properties note) in
  let propertiesText :=
    if eqs (nc_superType note) SUPER_RICH_TEXT
    then renderRichTextProperty host obj
    else renderLinkProperty host obj in
  renderText host propertiesText (nc_text note) (nc_tagList note).

(** The [try] block of [_syncNote]. *)
Definition _syncNote_try (id tok : str) : M SyncNoteResult :=
  let* s := get_settings in
  if negb (enable s) then ret (mkResult false false false)
  else
    let* note := getSyncContent id tok in
    match nc_id note with
    | None => ret (mkResult true false false)
    | Some _ =>
        let* fileName := destination s note in
        adapter_write fileName (noteText note) >>
        try_catch (ackSuccess id tok) (fun _ => ret tt) >>
        ret (mkResult true true true)
    end.

Definition _syncNote (id tok : str) : M SyncNoteResult :=
  try_catch (_syncNote_try id tok)
    (fun error =>
       try_catch (ackFailed id tok (description error)) (fun _ => ret tt) >>
       throw error).

Record Counters := mkCounters {
  count : nat;
  successCount : nat;
  failedCount : nat
}.

(** How the body of the [for] loop is left. *)
Inductive Completion := Normal | Break.

(** One round of [for (const item of syncNoteList)]. *)
Definition sync_item (tok item : str) (c : Counters)
  : M (Counters * Completion) :=
  let c := mkCounters (S (count c)) (successCount c) (failedCount c) in
  finally
    (try_catch
       (let* r := _syncNote item tok in
        if negb (pluginEnable r) then ret (c, Break)
        else if negb (taskExist r) then ret (c, Break)
        else if syncSuccess r
             then ret (mkCounters (count c) (S (successCount c)) (failedCount c),
                       Normal)
             else ret (c, Break))
       (fun _ =>
          ret (mkCounters (count c) (successCount c) (S (failedCount c)),
               Normal)))
    (sleep 3000).

Fixpoint sync_items (tok : str) (syncNoteList : list str) (c : Counters)
  : M (Counters * Completion) :=
  match syncNoteList with
  | [] => ret (c, Normal)
  | item :: rest =>
      let* r := sync_item tok item c in
      match snd r with
      | Break => ret r
      | Normal => sync_items tok rest (fst r)
      end
  end.

(** [while (hasMore)]; one unit of fuel per fetched page. *)
Fixpoint sync_loop (fuel : nat) (tok : str) (c : Counters) : M Counters :=
  match fuel with
  | O => diverge
  | S fuel =>
      let* s := get_settings in
      if negb (enable s) then notice NoticeDisabled >> ret c
      else
        let* syncTaskResponse := getSyncTask tok in
        if negb (st_valid syncTaskResponse) then notice NoticeUnbound >> ret c
        else
          let syncNoteList := st_result syncTaskResponse in
          if (length syncNoteList =? 0)%nat then ret c
          else
            let* r := sync_items tok syncNoteList c in
            if (Z.of_nat (length syncNoteList) =? st_limit syncTaskResponse)%Z
            then sync_loop fuel tok (fst r)
            else ret (fst r)
  end.

(** How the [try] block of [sync] is left: by one of its two [return]s,
    or by reaching its end. *)
Inductive TryExit := Returned | FellThrough.

(** The [try] block of [sync] once past its two guards. *)
Definition sync_run (fuel : nat) (message : bool) (tok : str) : M TryExit :=
  modify_settings (set_syncing true) >>
  saveSettings >>
  _initDir >>
  (if message then notice NoticeSyncStart else ret tt) >>
  let* c := sync_loop fuel tok (mkCounters 0 0 0) in
  (if (count c =? 0)%nat
   then sleep 1000 >> notice NoticeNoData
   else notice (NoticeDone (successCount c) (failedCount c))) >>
  ret FellThrough.

Definition sync_try (fuel : nat) (message : bool) : M TryExit :=
  let* s := get_settings in
  if negb (truthy (token s)) then ret Returned
  else if syncing s then ret Returned
  else sync_run fuel message (default [] (token s)).

(** The three statements after the [try]. *)
Definition sync_exit : M unit :=
  let* t := now in
  modify_settings (set_lastSyncTime t) >>
  modify_settings (set_syncing false) >>
  saveSettings.

Definition sync (fuel : nat) (message : bool) : M unit := fun w =>
  match sync_try fuel message w with
  | (Ret Returned, w1) => (Ret tt, w1)
  | (Ret FellThrough, w1) => sync_exit w1
  | (Throw _, w1) => (notice NoticeSyncFailed >> sync_exit) w1
  | (Diverge, w1) => (Diverge, w1)
  end.

(** *** The settings tab: the login poller *)

Definition maxAttempts : nat := 60.

Definition expired : LoginResponse :=
  {| login := {| ls_status := false; ls_token := None; ls_id := None;
                 ls_name := None; ls_avatar := None;
                 ls_invalidSessionId := true |};
     qrCodeExpired := Some true |}.

(** A turn of the event loop that concerns the poller: the interval fires,
    or the [i]-th of the status requests in flight, oldest first, settles
    and its callback resumes.  The interval does not wait for a callback
    that is suspended in its request: it fires every 2000 ms until it is
    cleared. *)
Inductive Turn :=
| Fire
| Settle (i : nat).

(** The callback from its start to its [await]: it gives up when the
    budget is spent, and sends the request otherwise.  The outcome of the
    request ([None]: it rejects) is the answer to the call as it was sent;
    the callback sees it in the turn in which the request settles. *)
Definition poll_fire (sid : str) (attempts : nat)
  : M (LoginResponse + option LoginStatus) :=
  if (maxAttempts <=? attempts)%nat then ret (inl expired)
  else
    let* outcome :=
      try_catch
        (let* loginStatus := getLoginStatus sid in ret (Some loginStatus))
        (fun _ => ret None) in
    ret (inr outcome).

(** The callback from its [await] on, with the outcome of its request: it
    clears the interval and resolves the promise with the value returned,
    or, with [None], it goes on to [attempts++]. *)
Definition poll_settle (outcome : option LoginStatus) : option LoginResponse :=
  match outcome with
  | Some loginStatus =>
      if ls_invalidSessionId loginStatus then Some expired
      else if ls_status loginStatus && truthy (ls_token loginStatus)
           then Some (mkLoginResponse loginStatus None)
           else None
  | None => None
  end.

(** The poller along the turns of the event loop, up to the turn that
    resolves the promise and clears the interval; [inflight] holds the
    outcomes of the requests that have not settled yet.  (A callback that
    resumes after the promise is resolved makes no call any more.)  When
    the turns run out the promise is still pending. *)
Fixpoint poll_turns (turns : list Turn) (sid : str) (attempts : nat)
    (inflight : list (option LoginStatus)) : M LoginResponse :=
  match turns with
  | [] => diverge
  | Fire :: turns =>
      suspend (IntervalTick 2000) >>
      let* r := poll_fire sid attempts in
      match r with
      | inl res => ret res
      | inr outcome => poll_turns turns sid attempts (inflight ++ [outcome])
      end
  | Settle i :: turns =>
      match inflight !! i with
      | Some outcome =>
          match poll_settle outcome with
          | Some res => ret res
          | None => poll_turns turns sid (S attempts) (delete i inflight)
          end
      | None => poll_turns turns sid attempts inflight
      end
  end.

Definition _getLoginStatus (turns : list Turn) (sid : str) : M LoginResponse :=
  poll_turns turns sid 1 [].

End Plugin.

(** ** Observing an execution *)

Inductive EventKind :=
| KSave | KIntegration | KFetch | KContent | KAckSuccess | KAckFailed
| KLogin | KVault | KSleep | KTick | KNotice.

#[global] Instance EventKind_eq_dec : EqDecision EventKind.
Proof. solve_decision. Defined.

Definition kind (ev : Event) : EventKind :=
  match ev with
  | SaveData _ => KSave
  | GetIntegration _ _ => KIntegration
  | GetSyncTask _ => KFetch
  | GetSyncContent _ _ => KContent
  | SyncSuccess _ _ => KAckSuccess
  | SyncFailed _ _ _ => KAckFailed
  | GetLoginStatus _ => KLogin
  | CreateFolder _ | Exists _ | WriteFile _ _ => KVault
  | Sleep _ => KSleep
  | IntervalTick _ => KTick
  | ShowNotice _ => KNotice
  end.

(** How many calls of a kind a history holds. *)
Definition count_kind (k : EventKind) (h : list Event) : nat :=
  length (filter (fun ev => kind ev = k) h).

(** [m] only adds calls of the allowed kinds to the history. *)
Definition emits {A} (allowed : EventKind -> bool) (m : M A) : Prop :=
  forall w, exists evs, history (m w).2 = evs ++ history w
                        /\ Forall (fun ev => allowed (kind ev) = true) evs.

(** [m] always comes back: it returns or throws. *)
Definition converges {A} (m : M A) : Prop := forall w, (m w).1 <> Diverge.

(** The kinds of call one materialization and its pause may make. *)
Definition page_kinds (k : EventKind) : bool :=
  match k with
  | KVault | KContent | KAckSuccess | KAckFailed | KSleep => true
  | _ => false
  end.

Definition loop_kinds (k : EventKind) : bool :=
  match k with
  | KFetch | KNotice => true
  | _ => page_kinds k
  end.

(** A listing after which [sync] asks for another page. *)
Definition continues (r : SyncTaskResponse) : bool :=
  st_valid r && negb (length (st_result r) =? 0)%nat
  && (Z.of_nat (length (st_result r)) =? st_limit r)%Z.

(** From the [T]-th call on, the remote no longer lists a full page: the
    queue drains. *)
Definition drains (env : Env) (T : nat) : Prop :=
  forall h, (T <= length h)%nat -> continues (env_syncTask env h) = false.

(** Every request is answered before the interval fires again: [n] firings,
    each followed by the settling of its request. *)
Fixpoint prompt (n : nat) : list Turn :=
  match n with
  | O => []
  | S n => Fire :: Settle 0 :: prompt n
  end.

(** Every request is answered after the next firing, and before the one
    that follows. *)
Definition late (n : nat) : list Turn := Fire :: prompt n.

(** The outcome of the call at the head of [h]. *)
Definition poll_outcome (env : Env) (h : list Event) : option LoginStatus :=
  match env_fail env h with
  | Some _ => None
  | None => Some (env_loginStatus env h)
  end.

(** [st] is the answer to a status poll that was sent in the history
    [hist]. *)
Definition answers (env : Env) (sid : str) (hist : list Event)
    (st : LoginStatus) : Prop :=
  exists h, suffix (GetLoginStatus sid :: h) hist
            /\ poll_outcome env (GetLoginStatus sid :: h) = Some st.

(** A poll that leaves the login pending: it rejects, or it reports neither
    an invalid session nor an approval. *)
Definition poll_pending (env : Env) (h : list Event) : Prop :=
  env_fail env h <> None
  \/ (ls_invalidSessionId (env_loginStatus env h) = false
      /\ ls_status (env_loginStatus env h)
         && truthy (ls_token (env_loginStatus env h)) = false).

(** Every kind of call. *)
Definition all_kinds (_ : EventKind) : bool := true.

(** The claim that a stale task ends the pagination: the fetch that listed
    it is the last one of the loop. *)
Definition stale_ends_pagination (host : Host) (env : Env) (fuel : nat)
    (tok : str) (c : Counters) (w : World) : Prop :=
  forall resp w0 item post r w1,
    enable (settings w) = true ->
    getSyncTask env tok w = (Ret resp, w0) ->
    st_valid resp = true ->
    st_result resp = item :: post ->
    _syncNote host env item tok w0 = (Ret r, w1) ->
    pluginEnable r = false \/ taskExist r = false ->
    count_kind KFetch (history (sync_loop host env fuel tok c w).2)
    = S (count_kind KFetch (history w)).

(** [count++] *)
Definition bump (c : Counters) : Counters :=
  mkCounters (S (count c)) (successCount c) (failedCount c).

(** The claim that every invalid verdict of [checkAccount] comes with the
    account cleared and saved. *)
Definition clears_whenever_invalid (host : Host) (env : Env) (w : World) : Prop :=
  forall r w', checkAccount host env w = (Ret r, w') -> valid r = false ->
    exists s h, history w' = SaveData s :: h
           /\ token s = None /\ user s = None /\ sessionId s = None.

(** *** The other handlers

    What the handlers of the plugin other than [sync] do to the settings
    object when they run during a suspension: the approval of a login,
    the unbind button (and the clearing of [checkAccount]), the controls
    of the settings tab, and [onunload]. *)
Inductive Handler :=
| Approve (tok sid : str) (u : User)
| Unbind
| SetSyncInterval (minutes : Z)
| SetRootDir (cleaned : str)
| SetRichTextDir (cleaned : str)
| SetLinkDir (cleaned : str)
| Unload.

(** A directory control keeps the cleaned value, or restores the default
    when nothing is left of it. *)
Definition dir_or (default_dir cleaned : str) : str :=
  match cleaned with
  | [] => default_dir
  | _ => cleaned
  end.

Definition handler_effect (hd : Handler) (s : NewledgeSettings)
  : NewledgeSettings :=
  match hd with
  | Approve tok sid u =>
      {| token := Some tok; user := Some u; sessionId := Some sid;
         syncing := syncing s; rootDir := rootDir s;
         richTextDir := richTextDir s; linkDir := linkDir s;
         syncInterval := syncInterval s; lastSyncTime := lastSyncTime s;
         enable := enable s |}
  | Unbind => clear_account s
  | SetSyncInterval minutes =>
      {| token := token s; user := user s; sessionId := sessionId s;
         syncing := syncing s; rootDir := rootDir s;
         richTextDir := richTextDir s; linkDir := linkDir s;
         syncInterval := minutes; lastSyncTime := lastSyncTime s;
         enable := enable s |}
  | SetRootDir cleaned =>
      {| token := token s; user := user s; sessionId := sessionId s;
         syncing := syncing s;
         rootDir := dir_or (rootDir DEFAULT_SETTINGS) cleaned;
         richTextDir := richTextDir s; linkDir := linkDir s;
         syncInterval := syncInterval s; lastSyncTime := lastSyncTime s;
         enable := enable s |}
  | SetRichTextDir cleaned =>
      {| token := token s; user := user s; sessionId := sessionId s;
         syncing := syncing s; rootDir := rootDir s;
         richTextDir := dir_or (richTextDir DEFAULT_SETTINGS) cleaned;
         linkDir := linkDir s;
         syncInterval := syncInterval s; lastSyncTime := lastSyncTime s;
         enable := enable s |}
  | SetLinkDir cleaned =>
      {| token := token s; user := user s; sessionId := sessionId s;
         syncing := syncing s; rootDir := rootDir s;
         richTextDir := richTextDir s;
         linkDir := dir_or (linkDir DEFAULT_SETTINGS) cleaned;
         syncInterval := syncInterval s; lastSyncTime := lastSyncTime s;
         enable := enable s |}
  | Unload =>
      {| token := token s; user := user s; sessionId := sessionId s;
         syncing := false; rootDir := rootDir s;
         richTextDir := richTextDir s; linkDir := linkDir s;
         syncInterval := syncInterval s; lastSyncTime := lastSyncTime s;
         enable := false |}
  end.

(** The environment in which the handlers chosen by [schedule] run during
    each suspension, in order. *)
Definition scheduled (schedule : list Event -> list Handler) (env : Env) : Env :=
  {| env_now := env_now env;
     env_interfere := fun h s =>
       foldl (fun s hd => handler_effect hd s) s (schedule h);
     env_fail := env_fail env; env_integration := env_integration env;
     env_syncTask := env_syncTask env; env_syncContent := env_syncContent env;
     env_loginStatus := env_loginStatus env |}.

(** Other handlers leave a raised in-progress flag raised. *)
Definition keeps_flag (env : Env) : Prop :=
  forall h s, syncing s = true -> syncing (env_interfere env h s) = true.

(** The environment whose handlers do [g] instead, whenever they find the
    in-progress flag lowered. *)
Definition blind (g : list Event -> NewledgeSettings -> NewledgeSettings)
    (env : Env) : Env :=
  {| env_now := env_now env;
     env_interfere := fun h s => if syncing s then env_interfere env h s else g h s;
     env_fail := env_fail env; env_integration := env_integration env;
     env_syncTask := env_syncTask env; env_syncContent := env_syncContent env;
     env_loginStatus := env_loginStatus env |}.

Definition raised (w : World) : Prop := syncing (settings w) = true.

(** From a world in which the flag is raised, [m1] and [m2] do the same and
    leave the flag raised. *)
Definition agree {A} (m1 m2 : M A) : Prop :=
  forall w, raised w -> m1 w = m2 w /\ raised (m1 w).2.

(** The claim that at most one run is in progress at a time: as long as the
    run is inside its [try] block, every other handler finds the flag
    raised (a further invocation of [sync] is one of them, and is then a
    no-op), so that what the handlers would do on a lowered flag has no
    bearing on the run. *)
Definition single_flight (host : Host) (env : Env) (fuel : nat) (message : bool)
    (w : World) : Prop :=
  forall g,
    sync_run host (blind g env) fuel message (default [] (token (settings w))) w
    = sync_run host env fuel message (default [] (token (settings w))) w.

(** The claim that the exit bookkeeping of a run is guaranteed: no exception
    leaves the run, and the run ends with a save, which is not rejected, of
    settings that have the in-progress flag cleared and the time of the
    last sync set to the current time. *)
Definition exit_bookkeeping_guaranteed (host : Host) (env : Env) (fuel : nat)
    (message : bool) (w : World) : Prop :=
  (forall e, (sync host env fuel message w).1 <> Throw e)
  /\ exists saved h,
       history (sync host env fuel message w).2 = SaveData saved :: h
       /\ env_fail env (SaveData saved :: h) = None
       /\ syncing saved = false
       /\ lastSyncTime saved = Some (env_now env h).

(** ** Test doubles *)

Definition plain_host : Host :=
  {| normalizePath := fun p => p;
     jwtDecode := fun tok => if bool_decide (tok = js "garbage") then DecodeError
                             else DecodedExp (Some 4102444800%Z);
     renderLinkProperty := fun _ => js "link:";
     renderRichTextProperty := fun _ => js "note:";
     renderText := fun propertiesText text _ => propertiesText ++ text |}.

Definition pending_login : LoginStatus :=
  {| ls_status := false; ls_token := None; ls_id := None; ls_name := None;
     ls_avatar := None; ls_invalidSessionId := false |}.

(** The note behind the task being fetched: a rich-text note carrying the
    id that was asked for. *)
Definition note_of_call (superType : str) (h : list Event) : NoteContent :=
  {| nc_id := match h with GetSyncContent id _ :: _ => Some id | _ => None end;
     nc_title := js "Bar"; nc_superType := superType;
     nc_properties := []; nc_text := js "body"; nc_tagList := [];
     nc_noteType := js "NOTE"; nc_relatedContentTitle := None;
     nc_relatedContentSuperType := None |}.

(** A remote with an empty queue, where nothing fails and nobody else
    touches the settings. *)
Definition quiet_env : Env :=
  {| env_now := fun _ => 1700000000000%Z;
     env_interfere := fun _ s => s;
     env_fail := fun _ => None;
     env_integration := fun _ => mkIntegration true 0;
     env_syncTask := fun _ => mkSyncTask true 2 [];
     env_syncContent := note_of_call (js "SUPER_RICH_TEXT");
     env_loginStatus := fun _ => pending_login |}.

Definition with_syncTask (f : list Event -> SyncTaskResponse) (env : Env) : Env :=
  {| env_now := env_now env; env_interfere := env_interfere env;
     env_fail := env_fail env; env_integration := env_integration env;
     env_syncTask := f; env_syncContent := env_syncContent env;
     env_loginStatus := env_loginStatus env |}.

Definition with_syncContent (f : list Event -> NoteContent) (env : Env) : Env :=
  {| env_now := env_now env; env_interfere := env_interfere env;
     env_fail := env_fail env; env_integration := env_integration env;
     env_syncTask := env_syncTask env; env_syncContent := f;
     env_loginStatus := env_loginStatus env |}.

Definition with_fail (f : list Event -> option JsError) (env : Env) : Env :=
  {| env_now := env_now env; env_interfere := env_interfere env;
     env_fail := f; env_integration := env_integration env;
     env_syncTask := env_syncTask env; env_syncContent := env_syncContent env;
     env_loginStatus := env_loginStatus env |}.

(** Two full pages (the limit is 2), then a short one. *)
Definition three_pages_env : Env :=
  with_syncTask
    (fun h => match count_kind KFetch h with
              | 1 => mkSyncTask true 2 [js "t1"; js "t2"]
              | 2 => mkSyncTask true 2 [js "t3"; js "t4"]
              | 3 => mkSyncTask true 2 [js "t5"]
              | _ => mkSyncTask true 2 []
              end%nat)
    quiet_env.

(** One page, shorter than the limit. *)
Definition short_page_env : Env :=
  with_syncTask (fun _ => mkSyncTask true 2 [js "t1"]) quiet_env.

(** A stale listing: a full page of two tasks whose notes are gone, then an
    empty queue. *)
Definition stale_env : Env :=
  with_syncTask
    (fun h => match count_kind KFetch h with
              | 1 => mkSyncTask true 2 [js "a"; js "b"]
              | _ => mkSyncTask true 2 []
              end%nat)
    (with_syncContent
       (fun _ => {| nc_id := None; nc_title := []; nc_superType := [];
                    nc_properties := []; nc_text := []; nc_tagList := [];
                    nc_noteType := []; nc_relatedContentTitle := None;
                    nc_relatedContentSuperType := None |})
       quiet_env).

(** A full page is listed again and again, and the plugin is unloaded
    during the pause that follows the first task. *)
Definition unloading_env : Env :=
  scheduled
    (fun h => match h with
              | Sleep 3000 :: _ => [Unload]
              | _ => []
              end)
    (with_syncTask (fun _ => mkSyncTask true 2 [js "t1"; js "t2"]) quiet_env).

(** The integration check is unreachable. *)
Definition offline_env : Env :=
  with_fail
    (fun h => match h with
              | GetIntegration _ _ :: _ => Some (mkError (js "Error: net"))
              | _ => None
              end)
    quiet_env.

(** The integration was removed on the remote side. *)
Definition revoked_env : Env :=
  {| env_now := env_now quiet_env; env_interfere := env_interfere quiet_env;
     env_fail := env_fail quiet_env;
     env_integration := fun _ => mkIntegration false 3;
     env_syncTask := env_syncTask quiet_env;
     env_syncContent := env_syncContent quiet_env;
     env_loginStatus := env_loginStatus quiet_env |}.

(** The vault refuses every write, and the acknowledgment of the failure
    is lost too. *)
Definition failing_write_env : Env :=
  with_fail
    (fun h => match h with
              | WriteFile _ _ :: _ => Some (mkError (js "Error: write"))
              | SyncFailed _ _ _ :: _ => Some (mkError (js "Error: ack"))
              | _ => None
              end)
    quiet_env.

(** Every save of the settings is rejected. *)
Definition disk_full_env : Env :=
  with_fail
    (fun h => match h with
              | SaveData _ :: _ => Some (mkError (js "Error: disk"))
              | _ => None
              end)
    quiet_env.

(** A note of a super-type the plugin does not know. *)
Definition odd_note_env : Env :=
  with_syncContent (note_of_call (js "SUPER_AUDIO")) quiet_env.

Definition bound_settings : NewledgeSettings :=
  {| token := Some (js "tok"); user := Some (mkUser (js "u1") (js "Ann"));
     sessionId := Some (js "sid"); syncing := false;
     rootDir := js "root"; richTextDir := js "notes"; linkDir := js "links";
     syncInterval := 60; lastSyncTime := None; enable := true |}.

Definition fresh_world : World :=
  {| settings := bound_settings; store := ∅; history := [] |}.

Definition world_with (paths : list str) : World :=
  {| settings := bound_settings; store := list_to_set paths; history := [] |}.

(** A run is already in progress. *)
Definition busy_world : World :=
  {| settings := set_syncing true bound_settings; store := ∅; history := [] |}.

(** ** The rest of the plugin: the timer, loading and unloading, the
    directory controls *)

(** [const minute = 60000] *)
Definition minute : Z := 60000.

Definition set_enable (b : bool) (s : NewledgeSettings) : NewledgeSettings :=
  {| token := token s; user := user s; sessionId := sessionId s;
     syncing := syncing s;
     rootDir := rootDir s; richTextDir := richTextDir s; linkDir := linkDir s;
     syncInterval := syncInterval s; lastSyncTime := lastSyncTime s;
     enable := b |}.

Section Lifecycle.

Context (host : Host) (env : Env).

(** The time since the last sync, as [_timingSync] computes it: zero when
    there was none.  [lastSyncTime] is the [Date] that a run of this
    session stored. *)
Definition sinceLastSync (s : NewledgeSettings) : M Z :=
  match lastSyncTime s with
  | Some last => let* t := now env in ret (t - last)%Z
  | None => ret 0%Z
  end.

(** The callback of the one-minute interval. *)
Definition _timingSync (fuel : nat) : M unit :=
  try_catch
    (let* s := get_settings in
     if syncing s then ret tt
     else
       let* sinceLastSyncMillisecond := sinceLastSync s in
       let syncIntervalMillisecond := (syncInterval s * minute)%Z in
       if (syncIntervalMillisecond <=? sinceLastSyncMillisecond)%Z
       then sync host env fuel true
       else ret tt)
    (fun _ => ret tt).

(** [onload] once the settings are loaded: the two resets. *)
Definition onload_resets : M unit :=
  let* s := get_settings in
  (if syncing s
   then modify_settings (set_syncing false) >> saveSettings env
   else ret tt) >>
  modify_settings (set_enable true) >>
  saveSettings env.

(** The callback that [onload] attaches to [checkAccount()]: the folders
    and the first run, for a valid account only.  The run is started and
    not awaited: nothing follows it in the callback but the registration of
    the interval, whose firings are other turns of the event loop, so that
    the run is shown here to its end, and an exception of it, which is an
    unhandled rejection, as the exception of the callback. *)
Definition onload_checked (fuel : nat) : M unit :=
  let* r := checkAccount host env in
  if valid r then _initDir host env >> sync host env fuel true
  else ret tt.

Definition onunload : M unit :=
  modify_settings (set_syncing false) >>
  modify_settings (set_enable false) >>
  saveSettings env.

End Lifecycle.

(** *** The directory controls of the settings tab *)

(** [.replace(/^\/+/, "")] *)
Fixpoint strip_slashes (s : str) : str :=
  match s with
  | [] => []
  | c :: r => if c =? 47 then strip_slashes r else s
  end.

(** [val.trim().replace(/\\/g, "/").replace(/^\/+|\/+$/g, "")] *)
Definition clean_dir (val : str) : str :=
  let slashed := map (fun c => if c =? 92 then 47 else c) (Title.trim val) in
  rev (strip_slashes (rev (strip_slashes slashed))).

(** What a directory control stores for the text [val]. *)
Definition stored_dir (default_dir val : str) : str :=
  dir_or default_dir (clean_dir val).

(** *** Observations used below *)

(** A title on which sanitization has nothing to do: no control or illegal
    character, white space only as single spaces between other characters,
    between 1 and 100 code units. *)
Fixpoint single_spaced (s : str) : Prop :=
  match s with
  | [] => True
  | c :: r =>
      (Title.is_space c = true ->
       c = 32 /\ match r with [] => False | d :: _ => Title.is_space d = false end)
      /\ single_spaced r
  end.

Definition tidy (s : str) : Prop :=
  Forall Title.clean s
  /\ single_spaced s
  /\ (match s with [] => False | c :: _ => Title.is_space c = false end)
  /\ (length s <= Title.MAX_LENGTH)%nat.

(** The probes of the resolver for the names 0 to [n], latest first. *)
Definition probes (name : str) (n : nat) : list Event :=
  rev (map (fun j => Exists (candidate name j)) (seq 0 (S n))).

(** The kinds of call that reach the remote service during a run. *)
Definition remote_kinds (k : EventKind) : bool :=
  match k with
  | KFetch | KContent | KAckSuccess | KAckFailed | KIntegration | KLogin => true
  | _ => false
  end.

(** Once the plugin is disabled, no other handler enables it again. *)
Definition stays_disabled (env : Env) : Prop :=
  forall h s, enable s = false -> enable (env_interfere env h s) = false.

(** No other handler raises the in-progress flag. *)
Definition stays_idle (env : Env) : Prop :=
  forall h s, syncing s = false -> syncing (env_interfere env h s) = false.

(** The history at the [k]-th poll of a login that started at [h], when
    every request is answered before the interval fires again. *)
Fixpoint poll_history (sid : str) (k : nat) (h : list Event) : list Event :=
  match k with
  | O => h
  | S k => GetLoginStatus sid :: IntervalTick 2000 :: poll_history sid k h
  end.

(** A poll that approves the login. *)
Definition poll_approves (env : Env) (h : list Event) : Prop :=
  env_fail env h = None
  /\ ls_invalidSessionId (env_loginStatus env h) = false
  /\ ls_status (env_loginStatus env h) = true
  /\ truthy (ls_token (env_loginStatus env h)) = true.

(** A poll that reports the session id as invalid. *)
Definition poll_invalidates (env : Env) (h : list Event) : Prop :=
  env_fail env h = None
  /\ ls_invalidSessionId (env_loginStatus env h) = true.

(** No two white-space code units in a row. *)
Fixpoint no_double_space (s : str) : Prop :=
  match s with
  | [] => True
  | c :: r =>
      match r with
      | [] => True
      | d :: _ => Title.is_space c = true -> Title.is_space d = false
      end /\ no_double_space r
  end.

(** The first code unit, if any, is not white space. *)
Definition starts_inked (s : str) : Prop :=
  match s with
  | [] => True
  | c :: _ => Title.is_space c = false
  end.

(** The test of [_syncNote] for a highlight or an annotation anchored to a
    link. *)
Definition anchored (note : NoteContent) : bool :=
  (eqs (nc_noteType note) HIGHLIGHT || eqs (nc_noteType note) ANNOTATION)
  && truthy (nc_relatedContentTitle note)
  && bool_decide (nc_relatedContentSuperType note = Some SUPER_LINK).

(** The calls of a history are all probes of the store. *)
Definition vault_only (evs : list Event) : Prop :=
  Forall (fun ev => kind ev = KVault) evs.

(** From a disabled plugin, [m] leaves the plugin disabled and adds no call
    to the remote service. *)
Definition stays_local {A} (m : M A) : Prop :=
  forall w, enable (settings w) = false ->
    enable (settings (m w).2) = false
    /\ exists evs, history (m w).2 = evs ++ history w
                   /\ Forall (fun ev => remote_kinds (kind ev) = false) evs.

(** The books of the loop against the wire: pauses against attempts,
    acknowledgements against the two tallies. *)
Definition balanced (c c' : Counters) (w w' : World) : Prop :=
  (count_kind KSleep (history w') + count c
   = count_kind KSleep (history w) + count c')%nat
  /\ (count_kind KAckSuccess (history w') + successCount c
      = count_kind KAckSuccess (history w) + successCount c')%nat
  /\ (count_kind KAckFailed (history w') + failedCount c
      = count_kind KAckFailed (history w) + failedCount c')%nat.

(** The attempts tallied as a success or as a failure. *)
Definition settled (c : Counters) : nat := (successCount c + failedCount c)%nat.

(** *** More test doubles *)

(** No account is bound. *)
Definition unbound_world : World :=
  {| settings := DEFAULT_SETTINGS; store := ∅; history := [] |}.

(** The root directory is nested, and nothing of it exists. *)
Definition nested_world : World :=
  {| settings := handler_effect (SetRootDir (js "a/b")) bound_settings;
     store := ∅; history := [] |}.

(** The plugin was unloaded. *)
Definition disabled_world : World :=
  {| settings := set_enable false bound_settings; store := ∅; history := [] |}.

(** The last run ended at the epoch. *)
Definition overdue_world : World :=
  {| settings := set_lastSyncTime 0 bound_settings; store := ∅; history := [] |}.

(** A highlight of the link titled Src. *)
Definition highlight_note : NoteContent :=
  {| nc_id := Some (js "n1"); nc_title := js "Bar";
     nc_superType := SUPER_RICH_TEXT; nc_properties := []; nc_text := js "body";
     nc_tagList := []; nc_noteType := HIGHLIGHT;
     nc_relatedContentTitle := Some (js "Src");
     nc_relatedContentSuperType := Some SUPER_LINK |}.

(** Every success acknowledgment is lost. *)
Definition lost_ack_env : Env :=
  with_fail
    (fun h => match h with
              | SyncSuccess _ _ :: _ => Some (mkError (js "Error: ack"))
              | _ => None
              end)
    quiet_env.

Definition approved_login : LoginStatus :=
  {| ls_status := true; ls_token := Some (js "tok"); ls_id := Some (js "u1");
     ls_name := Some (js "Ann"); ls_avatar := None;
     ls_invalidSessionId := false |}.

(** The login is approved between the second and the third poll. *)
Definition approving_env : Env :=
  {| env_now := env_now quiet_env; env_interfere := env_interfere quiet_env;
     env_fail := env_fail quiet_env; env_integration := env_integration quiet_env;
     env_syncTask := env_syncTask quiet_env;
     env_syncContent := env_syncContent quiet_env;
     env_loginStatus := fun h => if (3 <=? count_kind KLogin h)%nat
                                 then approved_login else pending_login |}.

(** * Properties *)

(** ** Title sanitization *)

Section TitleFacts.
Import Title.

Ltac unfold_classes :=
  unfold is_control, is_illegal, is_space in *;
  repeat match goal with
  | H : _ |- _ => first
      [ rewrite orb_true_iff in H | rewrite andb_true_iff in H
      | rewrite orb_false_iff in H | rewrite andb_false_iff in H
      | rewrite N.eqb_eq in H | rewrite N.eqb_neq in H
      | rewrite N.leb_le in H | rewrite N.leb_gt in H ]
  end;
  repeat first
      [ rewrite orb_true_iff | rewrite andb_true_iff
      | rewrite orb_false_iff | rewrite andb_false_iff
      | rewrite N.eqb_eq | rewrite N.eqb_neq
      | rewrite N.leb_le | rewrite N.leb_gt ].

Lemma space_not_illegal c : is_space c = true → is_illegal c = false.
Proof. intros H. unfold_classes. lia. Qed.

Lemma clean_underscore : clean 95.
Proof. split; reflexivity. Qed.
Lemma clean_space : clean 32.
Proof. split; reflexivity. Qed.

Lemma strip_control_Forall s :
  Forall (fun c => is_control c = false) (strip_control s).
Proof.
  induction s as [|c s IH]; simpl; [constructor|].
  destruct (is_control c) eqn:E; simpl; [exact IH|]. constructor; assumption.
Qed.

Lemma replace_illegal_clean s :
  Forall (fun c => is_control c = false) s → Forall clean (replace_illegal s).
Proof.
  induction 1 as [|c s Hc _ IH]; simpl; constructor; [|exact IH].
  destruct (is_illegal c) eqn:E; [apply clean_underscore | split; assumption].
Qed.

Lemma collapse_from_Forall (P : N → Prop) b s :
  P 32 → Forall P s → Forall P (collapse_from b s).
Proof.
  intros H32 Hs. revert b.
  induction Hs as [|c s Hc _ IH]; intros b; simpl; [constructor|].
  destruct (is_space c); [destruct b|]; auto.
Qed.

Lemma trim_start_Forall (P : N → Prop) s : Forall P s → Forall P (trim_start s).
Proof.
  induction 1 as [|c s Hc Hs IH]; simpl; [constructor|].
  destruct (is_space c); [exact IH | constructor; assumption].
Qed.

Lemma trim_Forall (P : N → Prop) s : Forall P s → Forall P (trim s).
Proof.
  intros H. unfold trim.
  apply Forall_rev, trim_start_Forall, Forall_rev, trim_start_Forall, H.
Qed.

Lemma trim_start_spaces s : Forall (fun c => is_space c = true) s → trim_start s = [].
Proof. induction 1 as [|c s Hc _ IH]; simpl; [reflexivity|]. rewrite Hc. exact IH. Qed.

Lemma strip_control_spaces s :
  Forall (fun c => is_control c = true ∨ is_space c = true) s →
  Forall (fun c => is_space c = true) (strip_control s).
Proof.
  induction 1 as [|c s Hc _ IH]; simpl; [constructor|].
  destruct (is_control c) eqn:E; simpl; [exact IH|].
  constructor; [|exact IH]. destruct Hc; congruence.
Qed.

Lemma replace_illegal_spaces s :
  Forall (fun c => is_space c = true) s →
  Forall (fun c => is_space c = true) (replace_illegal s).
Proof.
  induction 1 as [|c s Hc _ IH]; simpl; constructor; [|exact IH].
  rewrite (space_not_illegal c Hc). exact Hc.
Qed.

(** C5: whatever the title, the sanitized title holds no control character
    and none of the nine characters that are illegal in a path segment, it
    has at most 100 code units, and a title that is empty or made only of
    characters that sanitization removes or trims (control characters and
    white space) yields the placeholder title. *)
Theorem sanitize_spec (title : str) :
  Forall (fun c => is_control c = false ∧ is_illegal c = false) (sanitize title)
  ∧ (length (sanitize title) ≤ 100)%nat
  ∧ (Forall (fun c => is_control c = true ∨ is_space c = true) title →
     sanitize title = placeholder).
Proof.
  unfold sanitize.
  set (t := trim (collapse_spaces (replace_illegal (strip_control title)))).
  assert (Ht : Forall clean t).
  { apply trim_Forall, collapse_from_Forall; [apply clean_space|].
    apply replace_illegal_clean, strip_control_Forall. }
  split; [|split].
  - destruct (MAX_LENGTH <? length t)%nat.
    + destruct (length (take MAX_LENGTH t) =? 0)%nat;
        [repeat constructor | apply Forall_take, Ht].
    + destruct (length t =? 0)%nat; [repeat constructor | exact Ht].
  - destruct (MAX_LENGTH <? length t)%nat eqn:E.
    + destruct (length (take MAX_LENGTH t) =? 0)%nat; [simpl; lia|].
      rewrite length_take. unfold MAX_LENGTH. lia.
    + apply Nat.ltb_ge in E. unfold MAX_LENGTH in E.
      destruct (length t =? 0)%nat; [simpl; lia | exact E].
  - intros Hall.
    assert (t = []) as ->; [|reflexivity].
    unfold t, trim.
    rewrite (trim_start_spaces (collapse_spaces _)); [reflexivity|].
    apply collapse_from_Forall; [reflexivity|].
    apply replace_illegal_spaces, strip_control_spaces, Hall.
Qed.

(** The titles of the end-to-end examples. *)
Example sanitize_slash : sanitize (js "A/B") = js "A_B".
Proof. reflexivity. Qed.

Example sanitize_spaces : sanitize (js "  a   b  ") = js "a b".
Proof. reflexivity. Qed.

Example sanitize_illegal_only : sanitize (js "???") = js "___".
Proof. reflexivity. Qed.

Example sanitize_empty : sanitize [] = placeholder.
Proof. reflexivity. Qed.

End TitleFacts.

(** ** The path resolver *)

Lemma uint_units_inj d d' : uint_units d = uint_units d' → d = d'.
Proof.
  revert d'; induction d; intros d' H; destruct d'; simpl in H;
    try discriminate; try reflexivity;
    injection H as H; f_equal; auto.
Qed.

Lemma show_nat_inj i j : show_nat i = show_nat j → i = j.
Proof.
  intros H. apply uint_units_inj in H.
  rewrite <- (Unsigned.of_to i), <- (Unsigned.of_to j). now f_equal.
Qed.

Lemma candidate_inj (name : str) (i j : nat) : candidate name i = candidate name j → i = j.
Proof.
  destruct i as [|i], j as [|j]; unfold candidate; intros H;
    try reflexivity; apply app_inv_head in H.
  - discriminate H.
  - discriminate H.
  - apply app_inv_head, app_inv_tail, show_nat_inj in H. exact H.
Qed.

(** Pigeonhole: a finite store cannot hold more candidates than it has paths. *)
Lemma candidates_bounded (name : str) (X : gset str) (k : nat) :
  (∀ j, (j < k)%nat → candidate name j ∈ X) → (k ≤ size X)%nat.
Proof.
  intros H.
  set (l := candidate name <$> seq 0 k).
  assert (Hnd : NoDup l).
  { apply NoDup_fmap_2; [intros i j; apply candidate_inj | apply NoDup_seq]. }
  assert (Hsub : (list_to_set l : gset str) ⊆ X).
  { intros p Hp. apply elem_of_list_to_set, list_elem_of_fmap in Hp.
    destruct Hp as (j & -> & Hj). apply elem_of_seq in Hj. apply H. lia. }
  apply subseteq_size in Hsub.
  rewrite size_list_to_set in Hsub by exact Hnd.
  unfold l in Hsub. rewrite length_fmap, length_seq in Hsub. exact Hsub.
Qed.

Section Resolver.
Context (host : Host) (env : Env).

Lemma adapter_exists_eq (path : str) (w : World) :
  adapter_exists env path w
  = (Ret (bool_decide (path ∈ store w)), suspended env (Exists path) w).
Proof. reflexivity. Qed.

Lemma getFileName_loop_finds (name : str) (fuel : nat) : ∀ (i : nat) (w : World),
  (∀ j, (j < i)%nat → candidate name j ∈ store w) →
  (size (store w) < i + fuel)%nat →
  ∃ N w', getFileName_loop env fuel name i (candidate name i) w
          = (Ret (candidate name N), w')
          ∧ (i ≤ N)%nat
          ∧ (∀ j, (j < N)%nat → candidate name j ∈ store w)
          ∧ (candidate name N ∉ store w)
          ∧ store w' = store w.
Proof.
  induction fuel as [|fuel IH]; intros i w Hlow Hfuel.
  - apply candidates_bounded in Hlow. lia.
  - simpl. unfold bind. rewrite adapter_exists_eq.
    destruct (bool_decide (candidate name i ∈ store w)) eqn:E.
    + apply bool_decide_eq_true in E.
      destruct (IH (S i) (suspended env (Exists (candidate name i)) w))
        as (N & w' & Hrun & Hle & Hall & Hfree & Hst).
      * intros j Hj. simpl. destruct (decide (j = i)) as [->|]; [exact E|].
        apply Hlow. lia.
      * simpl. lia.
      * exists N, w'. simpl in *. repeat split; auto. lia.
    + apply bool_decide_eq_false in E.
      exists i, (suspended env (Exists (candidate name i)) w).
      repeat split; auto.
Qed.

(** C4: when the store holds the [N] names [name.md], [name 1.md], ...,
    [name (N-1).md] and not the next one, the resolver returns the [N]-th
    name of that family ([name.md] for [N = 0], [name N.md] otherwise);
    and in every store the path it returns does not exist at call time. *)
Theorem getFileName_fresh (name : str) (w : World) :
  (∀ N, (∀ i, (i < N)%nat → candidate name i ∈ store w) →
        candidate name N ∉ store w →
        ∃ w', _getFileName env name w = (Ret (candidate name N), w'))
  ∧ ∃ path w', _getFileName env name w = (Ret path, w') ∧ path ∉ store w.
Proof.
  destruct (getFileName_loop_finds name (S (size (store w))) 0 w)
    as (N' & w' & Hrun & _ & Hall & Hfree & _); [lia | lia |].
  split.
  - intros N Hin Hout. exists w'. unfold _getFileName.
    change (name ++ js ".md") with (candidate name 0). rewrite Hrun.
    assert (N = N') as ->; [|reflexivity].
    destruct (Nat.lt_trichotomy N N') as [Hlt|[->|Hlt]]; [|reflexivity|].
    + exfalso. apply Hout, Hall, Hlt.
    + exfalso. apply Hfree, Hin, Hlt.
  - exists (candidate name N'), w'. split; [exact Hrun | exact Hfree].
Qed.
End Resolver.

Example resolve_free :
  (_getFileName quiet_env (js "a") fresh_world).1 = Ret (js "a.md").
Proof. reflexivity. Qed.

Example resolve_taken_twice :
  (_getFileName quiet_env (js "a") (world_with [js "a.md"; js "a 1.md"])).1
  = Ret (js "a 2.md").
Proof. vm_compute. reflexivity. Qed.

(** ** Histories *)

Lemma count_kind_app k (evs h : list Event) :
  count_kind k (evs ++ h) = (count_kind k evs + count_kind k h)%nat.
Proof. unfold count_kind. rewrite filter_app, length_app. reflexivity. Qed.

Lemma count_kind_excluded (allowed : EventKind → bool) k (evs : list Event) :
  allowed k = false →
  Forall (fun ev => allowed (kind ev) = true) evs → count_kind k evs = 0%nat.
Proof.
  intros Hk. unfold count_kind.
  induction 1 as [|ev evs Hev _ IH]; [reflexivity|].
  rewrite filter_cons. destruct (decide (kind ev = k)) as [E|E]; [|exact IH].
  congruence.
Qed.

Section History.
Context (host : Host) (env : Env).
Context (allowed : EventKind → bool).

Lemma emits_silent {A} (m : M A) :
  (∀ w, history (m w).2 = history w) → emits allowed m.
Proof. intros H w. exists []. split; [apply H | constructor]. Qed.

Lemma emits_ret {A} (a : A) : emits allowed (ret a).
Proof. now apply emits_silent. Qed.

Lemma emits_throw {A} e : emits allowed (@throw A e).
Proof. now apply emits_silent. Qed.

Lemma emits_diverge {A} : emits allowed (@diverge A).
Proof. now apply emits_silent. Qed.

Lemma emits_get_settings : emits allowed get_settings.
Proof. now apply emits_silent. Qed.

Lemma emits_modify_settings f : emits allowed (modify_settings f).
Proof. now apply emits_silent. Qed.

Lemma emits_add_path p : emits allowed (add_path p).
Proof. now apply emits_silent. Qed.

Lemma emits_now : emits allowed (now env).
Proof. now apply emits_silent. Qed.

Lemma emits_bind {A B} (m : M A) (k : A → M B) :
  emits allowed m → (∀ a, emits allowed (k a)) → emits allowed (bind m k).
Proof.
  intros Hm Hk w. unfold bind. destruct (Hm w) as (evs1 & E1 & F1).
  destruct (m w) as [[a|e|] w1]; simpl in *; try (exists evs1; now split).
  destruct (Hk a w1) as (evs2 & E2 & F2).
  exists (evs2 ++ evs1). split.
  - rewrite E2, E1. apply app_assoc.
  - apply Forall_app; auto.
Qed.

Lemma emits_try_catch {A} (m : M A) (handler : JsError → M A) :
  emits allowed m → (∀ e, emits allowed (handler e)) →
  emits allowed (try_catch m handler).
Proof.
  intros Hm Hk w. unfold try_catch. destruct (Hm w) as (evs1 & E1 & F1).
  destruct (m w) as [[a|e|] w1]; simpl in *; try (exists evs1; now split).
  destruct (Hk e w1) as (evs2 & E2 & F2).
  exists (evs2 ++ evs1). split.
  - rewrite E2, E1. apply app_assoc.
  - apply Forall_app; auto.
Qed.

Lemma emits_finally {A} (m : M A) (fin : M unit) :
  emits allowed m → emits allowed fin → emits allowed (finally m fin).
Proof.
  intros Hm Hf w. unfold finally. destruct (Hm w) as (evs1 & E1 & F1).
  destruct (m w) as [r w1]; simpl in *.
  destruct (Hf w1) as (evs2 & E2 & F2).
  assert (∃ evs, history (fin w1).2 = evs ++ history w
                 ∧ Forall (fun ev => allowed (kind ev) = true) evs) as Hboth.
  { exists (evs2 ++ evs1). split; [rewrite E2, E1; apply app_assoc|].
    apply Forall_app; auto. }
  destruct r; destruct (fin w1) as [[u|e'|] w2]; simpl in *;
    try exact Hboth; exists evs1; now split.
Qed.

Lemma emits_suspend ev : allowed (kind ev) = true → emits allowed (suspend env ev).
Proof. intros H w. exists [ev]. split; [reflexivity | repeat constructor; exact H]. Qed.

Lemma emits_await ev : allowed (kind ev) = true → emits allowed (await env ev).
Proof.
  intros H w. exists [ev]. split; [|repeat constructor; exact H].
  unfold await, bind, suspend. simpl. now destruct (env_fail env _).
Qed.

Lemma emits_notice m : allowed KNotice = true → emits allowed (notice m).
Proof. intros H w. exists [ShowNotice m]. split; [reflexivity | repeat constructor; exact H]. Qed.

End History.

Create HintDb emits.

Section HistoryOfCalls.
Context (host : Host) (env : Env).
Context (allowed : EventKind → bool).

Local Hint Resolve emits_ret emits_throw emits_diverge emits_get_settings
  emits_modify_settings emits_add_path emits_now emits_bind emits_try_catch
  emits_finally emits_suspend emits_await emits_notice : emits.

Lemma emits_reply {A} ev (reply : World → A) :
  allowed (kind ev) = true →
  emits allowed (await env ev >> fun w => (Ret (reply w), w)).
Proof.
  intros H. apply emits_bind; [now apply emits_await|].
  intros _. now apply emits_silent.
Qed.

Lemma emits_saveSettings : allowed KSave = true → emits allowed (saveSettings env).
Proof. intros H. unfold saveSettings. auto with emits. Qed.

Lemma emits_getSyncTask tok :
  allowed KFetch = true → emits allowed (getSyncTask env tok).
Proof. intros H. now apply emits_reply. Qed.

Lemma emits_getSyncContent id tok :
  allowed KContent = true → emits allowed (getSyncContent env id tok).
Proof. intros H. now apply emits_reply. Qed.

Lemma emits_getIntegration sid tok :
  allowed KIntegration = true → emits allowed (getIntegration env sid tok).
Proof. intros H. now apply emits_reply. Qed.

Lemma emits_getLoginStatus sid :
  allowed KLogin = true → emits allowed (getLoginStatus env sid).
Proof. intros H. now apply emits_reply. Qed.

Lemma emits_createFolder path :
  allowed KVault = true → emits allowed (createFolder env path).
Proof.
  intros H w. exists [CreateFolder path]. split; [|repeat constructor; exact H].
  unfold createFolder, bind, suspend. simpl.
  destruct (bool_decide _); [reflexivity|]. now destruct (env_fail env _).
Qed.

Lemma emits_adapter_exists path :
  allowed KVault = true → emits allowed (adapter_exists env path).
Proof. intros H w. exists [Exists path]. split; [reflexivity | repeat constructor; exact H]. Qed.

Lemma emits_adapter_write path data :
  allowed KVault = true → emits allowed (adapter_write env path data).
Proof. intros H. unfold adapter_write. auto with emits. Qed.

Lemma emits_for_each {A} (l : list A) (body : A → M unit) :
  (∀ x, emits allowed (body x)) → emits allowed (for_each l body).
Proof. intros H. induction l; simpl; auto with emits. Qed.

Lemma emits_initDir : allowed KVault = true → emits allowed (_initDir host env).
Proof.
  intros H. unfold _initDir. apply emits_bind; [auto with emits|]. intros s.
  apply emits_for_each. intros dir.
  apply emits_try_catch; [now apply emits_createFolder | auto with emits].
Qed.

Lemma emits_getFileName_loop fuel name : ∀ i fileName,
  allowed KVault = true →
  emits allowed (getFileName_loop env fuel name i fileName).
Proof.
  induction fuel as [|fuel IH]; intros i fileName H; simpl; [auto with emits|].
  apply emits_bind; [now apply emits_adapter_exists|].
  intros [|]; auto with emits.
Qed.

Lemma emits_getFileName name :
  allowed KVault = true → emits allowed (_getFileName env name).
Proof. intros H w. unfold _getFileName. now apply emits_getFileName_loop. Qed.

Lemma emits_destination s note :
  allowed KVault = true → emits allowed (destination host env s note).
Proof.
  intros H. unfold destination.
  repeat match goal with
  | |- emits _ (if ?b then _ else _) => destruct b
  | |- emits _ (bind _ _) => apply emits_bind; [|intros ?]
  | |- emits _ (try_catch _ _) => apply emits_try_catch; [|intros ?]
  | |- emits _ (createFolder _ _) => now apply emits_createFolder
  | |- emits _ (_getFileName _ _) => now apply emits_getFileName
  | |- emits _ (ret _) => apply emits_ret
  end.
Qed.

Lemma emits_syncNote_try id tok :
  allowed KVault = true → allowed KContent = true → allowed KAckSuccess = true →
  emits allowed (_syncNote_try host env id tok).
Proof.
  intros Hv Hc Hs. unfold _syncNote_try.
  apply emits_bind; [auto with emits|]. intros s.
  destruct (negb (enable s)); [auto with emits|].
  apply emits_bind; [now apply emits_getSyncContent|]. intros note.
  destruct (nc_id note); [|auto with emits].
  apply emits_bind; [now apply emits_destination|]. intros fileName.
  apply emits_bind; [now apply emits_adapter_write|]. intros _.
  unfold ackSuccess. auto with emits.
Qed.

Lemma emits_syncNote id tok :
  allowed KVault = true → allowed KContent = true → allowed KAckSuccess = true →
  allowed KAckFailed = true →
  emits allowed (_syncNote host env id tok).
Proof.
  intros Hv Hc Hs Hf. unfold _syncNote.
  apply emits_try_catch; [now apply emits_syncNote_try|].
  intros e. unfold ackFailed. auto with emits.
Qed.

Lemma emits_sync_item tok item c :
  (∀ k, page_kinds k = true → allowed k = true) →
  emits allowed (sync_item host env tok item c).
Proof.
  intros H. unfold sync_item.
  apply emits_finally; [|apply emits_suspend; now apply H].
  apply emits_try_catch; [|auto with emits].
  apply emits_bind; [apply emits_syncNote; now apply H|].
  intros r. destruct (negb (pluginEnable r)); [auto with emits|].
  destruct (negb (taskExist r)); [auto with emits|].
  destruct (syncSuccess r); auto with emits.
Qed.

Lemma emits_sync_items tok items : ∀ c,
  (∀ k, page_kinds k = true → allowed k = true) →
  emits allowed (sync_items host env tok items c).
Proof.
  induction items as [|item rest IH]; intros c H; simpl; [auto with emits|].
  apply emits_bind; [now apply emits_sync_item|].
  intros [c1 [|]]; simpl; auto with emits.
Qed.

Lemma emits_sync_loop fuel tok : ∀ c,
  (∀ k, loop_kinds k = true → allowed k = true) →
  emits allowed (sync_loop host env fuel tok c).
Proof.
  induction fuel as [|fuel IH]; intros c H; simpl; [auto with emits|].
  assert (Hn : allowed KNotice = true) by now apply H.
  apply emits_bind; [auto with emits|]. intros s.
  destruct (negb (enable s)); [auto with emits|].
  apply emits_bind; [apply emits_getSyncTask; now apply H|]. intros resp.
  destruct (negb (st_valid resp)); [auto with emits|].
  destruct (length (st_result resp) =? 0)%nat; [auto with emits|].
  apply emits_bind.
  - apply emits_sync_items. intros k Hk. apply H. now destruct k.
  - intros r. destruct (_ =? _)%Z; auto with emits.
Qed.

End HistoryOfCalls.

(** ** Convergence *)

Create HintDb converges.

Section Converges.
Context (host : Host) (env : Env).

Lemma converges_bind {A B} (m : M A) (k : A → M B) :
  converges m → (∀ a, converges (k a)) → converges (bind m k).
Proof.
  intros Hm Hk w. unfold bind. specialize (Hm w).
  destruct (m w) as [[a|e|] w1]; simpl in *; [apply Hk | discriminate | congruence].
Qed.

Lemma converges_try_catch {A} (m : M A) (handler : JsError → M A) :
  converges m → (∀ e, converges (handler e)) → converges (try_catch m handler).
Proof.
  intros Hm Hk w. unfold try_catch. specialize (Hm w).
  destruct (m w) as [[a|e|] w1]; simpl in *; [discriminate | apply Hk | congruence].
Qed.

Lemma converges_ret {A} (a : A) : converges (ret a).
Proof. intros w. discriminate. Qed.

Lemma converges_throw {A} e : converges (@throw A e).
Proof. intros w. discriminate. Qed.

Lemma converges_await ev : converges (await env ev).
Proof. intros w. unfold await, bind, suspend. simpl. now destruct (env_fail env _). Qed.

Lemma converges_createFolder path : converges (createFolder env path).
Proof.
  intros w. unfold createFolder, bind, suspend. simpl.
  destruct (bool_decide _); [discriminate|].
  now destruct (env_fail env _).
Qed.

Lemma converges_getFileName (name : str) : converges (_getFileName env name).
Proof.
  intros w. unfold _getFileName.
  destruct (getFileName_loop_finds env name (S (size (store w))) 0 w)
    as (N & w' & Hrun & _); [lia | lia |].
  change (name ++ js ".md") with (candidate name 0). rewrite Hrun. discriminate.
Qed.

Local Hint Resolve converges_bind converges_try_catch converges_ret
  converges_throw converges_await converges_createFolder
  converges_getFileName : converges.

Lemma converges_destination s note : converges (destination host env s note).
Proof.
  unfold destination.
  repeat match goal with
  | |- converges (if ?b then _ else _) => destruct b
  end; auto 6 with converges.
Qed.

Lemma converges_syncNote_try id tok : converges (_syncNote_try host env id tok).
Proof.
  unfold _syncNote_try.
  apply converges_bind; [intros w; discriminate|]. intros s.
  destruct (negb (enable s)); [auto with converges|].
  apply converges_bind.
  { unfold getSyncContent. apply converges_bind; [auto with converges|].
    intros _ w. discriminate. }
  intros note. destruct (nc_id note); [|auto with converges].
  apply converges_bind; [apply converges_destination|]. intros fileName.
  apply converges_bind.
  { unfold adapter_write. apply converges_bind; [auto with converges|].
    intros _ w. discriminate. }
  intros _. unfold ackSuccess. auto 6 with converges.
Qed.

Lemma converges_syncNote id tok : converges (_syncNote host env id tok).
Proof.
  unfold _syncNote. apply converges_try_catch; [apply converges_syncNote_try|].
  intros e. unfold ackFailed. auto 6 with converges.
Qed.

(** A round of the [for] loop neither throws nor hangs. *)
Lemma sync_item_returns tok item c w :
  ∃ r w', sync_item host env tok item c w = (Ret r, w').
Proof.
  unfold sync_item, finally, try_catch, bind.
  pose proof (converges_syncNote item tok w) as H.
  destruct (_syncNote host env item tok w) as [[r|e|] w1]; simpl in *.
  - destruct (negb (pluginEnable r)); [eauto|].
    destruct (negb (taskExist r)); [eauto|].
    destruct (syncSuccess r); eauto.
  - eauto.
  - congruence.
Qed.

Lemma sync_items_returns tok items : ∀ c w,
  ∃ r w', sync_items host env tok items c w = (Ret r, w').
Proof.
  induction items as [|item rest IH]; intros c w; simpl; [eexists _, _; reflexivity|].
  unfold bind. destruct (sync_item_returns tok item c w) as ([c1 k] & w1 & ->).
  destruct k; simpl; [apply IH | eexists _, _; reflexivity].
Qed.
End Converges.

(** ** Single flight *)

(** Until the plugin is unloaded, no handler lowers the flag. *)
Lemma handler_keeps_flag (hd : Handler) (s : NewledgeSettings) :
  hd ≠ Unload → syncing (handler_effect hd s) = syncing s.
Proof. intros H. destruct hd; try reflexivity. congruence. Qed.

Lemma scheduled_keeps_flag (schedule : list Event → list Handler) (env : Env) :
  (∀ h, Unload ∉ schedule h) → keeps_flag (scheduled schedule env).
Proof.
  intros Hno h s Hs. simpl. specialize (Hno h).
  revert s Hs. induction (schedule h) as [|hd l IH]; intros s Hs; [exact Hs|].
  simpl. apply IH.
  - intros Hin. apply Hno. now right.
  - rewrite handler_keeps_flag; [exact Hs|].
    intros ->. apply Hno. now left.
Qed.

Create HintDb agree.

Section SingleFlight.
Context (host : Host) (env : Env).
Context (g : list Event → NewledgeSettings → NewledgeSettings).
Hypothesis Hkeep : keeps_flag env.

Lemma agree_same {A} (m : M A) :
  (∀ w, settings (m w).2 = settings w) → agree m m.
Proof. intros H w Hw. split; [reflexivity|]. unfold raised. now rewrite H. Qed.

Lemma agree_ret {A} (a : A) : agree (ret a) (ret a).
Proof. now apply agree_same. Qed.

Lemma agree_bind {A B} (m1 m2 : M A) (k1 k2 : A → M B) :
  agree m1 m2 → (∀ a, agree (k1 a) (k2 a)) → agree (bind m1 k1) (bind m2 k2).
Proof.
  intros Hm Hk w Hw. unfold bind. destruct (Hm w Hw) as [<- Hr].
  destruct (m1 w) as [[a|e|] w1]; simpl in *; [apply Hk, Hr | auto..].
Qed.

Lemma agree_try_catch {A} (m1 m2 : M A) (h1 h2 : JsError → M A) :
  agree m1 m2 → (∀ e, agree (h1 e) (h2 e)) →
  agree (try_catch m1 h1) (try_catch m2 h2).
Proof.
  intros Hm Hk w Hw. unfold try_catch. destruct (Hm w Hw) as [<- Hr].
  destruct (m1 w) as [[a|e|] w1]; simpl in *; [auto | apply Hk, Hr | auto].
Qed.

Lemma agree_finally {A} (m1 m2 : M A) (f1 f2 : M unit) :
  agree m1 m2 → agree f1 f2 → agree (finally m1 f1) (finally m2 f2).
Proof.
  intros Hm Hf w Hw. unfold finally. destruct (Hm w Hw) as [<- Hr].
  destruct (m1 w) as [r w1]; simpl in *.
  destruct (Hf w1 Hr) as [<- Hr2].
  destruct r; destruct (f1 w1) as [[u|e'|] w2]; simpl in *; auto.
Qed.

Lemma agree_suspend (ev : Event) : agree (suspend (blind g env) ev) (suspend env ev).
Proof.
  intros w Hw. unfold suspend, suspended, raised in *. simpl. rewrite Hw.
  split; [reflexivity|]. simpl. now apply Hkeep.
Qed.

Lemma agree_await (ev : Event) : agree (await (blind g env) ev) (await env ev).
Proof.
  unfold await. apply agree_bind; [apply agree_suspend|].
  intros _ w Hw. split; [reflexivity|]. now destruct (env_fail _ _).
Qed.

#[local] Hint Resolve agree_ret agree_bind agree_try_catch agree_finally
  agree_suspend agree_await : agree.

Lemma agree_saveSettings : agree (saveSettings (blind g env)) (saveSettings env).
Proof.
  unfold saveSettings. apply agree_bind; [now apply agree_same|].
  intros s. apply agree_await.
Qed.

Lemma agree_reply {A} (ev : Event) (reply : World → A) :
  agree (await (blind g env) ev >> fun w => (Ret (reply w), w))
        (await env ev >> fun w => (Ret (reply w), w)).
Proof. apply agree_bind; [apply agree_await|]. intros _. now apply agree_same. Qed.

Lemma agree_createFolder (path : str) :
  agree (createFolder (blind g env) path) (createFolder env path).
Proof.
  unfold createFolder. apply agree_bind; [apply agree_suspend|].
  intros _. apply agree_same. intros w. simpl.
  destruct (bool_decide _); [reflexivity|]. now destruct (env_fail _ _).
Qed.

Lemma agree_adapter_exists (path : str) :
  agree (adapter_exists (blind g env) path) (adapter_exists env path).
Proof.
  unfold adapter_exists. apply agree_bind; [apply agree_suspend|].
  intros _. now apply agree_same.
Qed.

Lemma agree_adapter_write (path data : str) :
  agree (adapter_write (blind g env) path data) (adapter_write env path data).
Proof.
  unfold adapter_write. apply agree_bind; [apply agree_await|].
  intros _. now apply agree_same.
Qed.

Lemma agree_for_each {A} (l : list A) (b1 b2 : A → M unit) :
  (∀ x, agree (b1 x) (b2 x)) → agree (for_each l b1) (for_each l b2).
Proof. intros H. induction l; simpl; auto with agree. Qed.

Lemma agree_initDir : agree (_initDir host (blind g env)) (_initDir host env).
Proof.
  unfold _initDir. apply agree_bind; [now apply agree_same|]. intros s.
  apply agree_for_each. intros dir.
  apply agree_try_catch; [apply agree_createFolder | auto with agree].
Qed.

Lemma agree_getFileName_loop (fuel : nat) (name : str) : ∀ (i : nat) (fileName : str),
  agree (getFileName_loop (blind g env) fuel name i fileName)
        (getFileName_loop env fuel name i fileName).
Proof.
  induction fuel as [|fuel IH]; intros i fileName; simpl; [now apply agree_same|].
  apply agree_bind; [apply agree_adapter_exists|].
  intros [|]; auto with agree.
Qed.

Lemma agree_getFileName (name : str) :
  agree (_getFileName (blind g env) name) (_getFileName env name).
Proof. intros w Hw. unfold _getFileName. now apply agree_getFileName_loop. Qed.

Lemma agree_destination (s : NewledgeSettings) (note : NoteContent) :
  agree (destination host (blind g env) s note) (destination host env s note).
Proof.
  unfold destination.
  repeat match goal with
  | |- agree (if ?b then _ else _) (if ?b then _ else _) => destruct b
  | |- agree (bind _ _) (bind _ _) => apply agree_bind; [|intros ?]
  | |- agree (try_catch _ _) (try_catch _ _) => apply agree_try_catch; [|intros ?]
  | |- agree (createFolder _ _) _ => apply agree_createFolder
  | |- agree (_getFileName _ _) _ => apply agree_getFileName
  | |- agree (ret _) (ret _) => apply agree_ret
  end.
Qed.

Lemma agree_syncNote_try (id tok : str) :
  agree (_syncNote_try host (blind g env) id tok) (_syncNote_try host env id tok).
Proof.
  unfold _syncNote_try. apply agree_bind; [now apply agree_same|]. intros s.
  destruct (negb (enable s)); [auto with agree|].
  apply agree_bind; [apply agree_reply|]. intros note.
  destruct (nc_id note); [|auto with agree].
  apply agree_bind; [apply agree_destination|]. intros fileName.
  apply agree_bind; [apply agree_adapter_write|]. intros _.
  unfold ackSuccess. auto with agree.
Qed.

Lemma agree_syncNote (id tok : str) :
  agree (_syncNote host (blind g env) id tok) (_syncNote host env id tok).
Proof.
  unfold _syncNote. apply agree_try_catch; [apply agree_syncNote_try|].
  intros e. unfold ackFailed. apply agree_bind; [auto with agree|].
  intros _. now apply agree_same.
Qed.

Lemma agree_sync_item (tok item : str) (c : Counters) :
  agree (sync_item host (blind g env) tok item c) (sync_item host env tok item c).
Proof.
  unfold sync_item. apply agree_finally; [|apply agree_suspend].
  apply agree_try_catch; [|auto with agree].
  apply agree_bind; [apply agree_syncNote|]. intros r.
  destruct (negb (pluginEnable r)); [auto with agree|].
  destruct (negb (taskExist r)); [auto with agree|].
  destruct (syncSuccess r); auto with agree.
Qed.

Lemma agree_sync_items (tok : str) (items : list str) : ∀ (c : Counters),
  agree (sync_items host (blind g env) tok items c) (sync_items host env tok items c).
Proof.
  induction items as [|item rest IH]; intros c; simpl; [auto with agree|].
  apply agree_bind; [apply agree_sync_item|].
  intros [c1 [|]]; simpl; auto with agree.
Qed.

Lemma agree_notice (m : NoticeMsg) : agree (notice m) (notice m).
Proof. now apply agree_same. Qed.

Lemma agree_sync_loop (fuel : nat) (tok : str) : ∀ (c : Counters),
  agree (sync_loop host (blind g env) fuel tok c) (sync_loop host env fuel tok c).
Proof.
  induction fuel as [|fuel IH]; intros c; simpl; [now apply agree_same|].
  apply agree_bind; [now apply agree_same|]. intros s.
  destruct (negb (enable s)).
  { apply agree_bind; [apply agree_notice | auto with agree]. }
  apply agree_bind; [apply agree_reply|]. intros resp.
  destruct (negb (st_valid resp)).
  { apply agree_bind; [apply agree_notice | auto with agree]. }
  destruct (length (st_result resp) =? 0)%nat; [auto with agree|].
  apply agree_bind; [apply agree_sync_items|].
  intros r. destruct (_ =? _)%Z; auto with agree.
Qed.

Lemma bind_modify_settings {A} (f : NewledgeSettings → NewledgeSettings)
    (k : M A) (w : World) :
  (modify_settings f >> k) w
  = k {| settings := f (settings w); store := store w; history := history w |}.
Proof. reflexivity. Qed.

(** Between the raising of the flag and the end of the [try] block, no
    other handler ever finds the flag lowered: what the handlers would do
    on a lowered flag has no bearing on the run. *)
Lemma sync_run_flag_raised (fuel : nat) (message : bool) (tok : str) (w : World) :
  sync_run host (blind g env) fuel message tok w
  = sync_run host env fuel message tok w.
Proof.
  unfold sync_run. rewrite !bind_modify_settings.
  match goal with
  | |- ?a ?w1 = ?b ?w1 =>
      enough (agree a b) as H by exact (proj1 (H w1 eq_refl))
  end.
  apply agree_bind; [apply agree_saveSettings|]. intros _.
  apply agree_bind; [apply agree_initDir|]. intros _.
  apply agree_bind; [destruct message; [apply agree_notice | apply agree_ret]|].
  intros _.
  apply agree_bind; [apply agree_sync_loop|]. intros c.
  apply agree_bind; [|auto with agree].
  destruct (count c =? 0)%nat; [|apply agree_notice].
  apply agree_bind; [apply agree_suspend | intros _; apply agree_notice].
Qed.

End SingleFlight.

(** ** The sync run *)

Section Sync.
Context (host : Host) (env : Env).

#[local] Hint Resolve emits_ret emits_throw emits_diverge emits_get_settings
  emits_modify_settings emits_add_path emits_now emits_bind emits_try_catch
  emits_finally emits_suspend emits_await emits_notice : emits.
#[local] Hint Resolve converges_bind converges_try_catch converges_ret
  converges_throw converges_await converges_createFolder : converges.

Lemma await_eq (ev : Event) (w : World) :
  await env ev w
  = (match env_fail env (ev :: history w) with
     | Some e => Throw e
     | None => Ret tt
     end, suspended env ev w).
Proof. unfold await, bind, suspend. simpl. now destruct (env_fail env _). Qed.

Lemma getSyncTask_eq (tok : str) (w : World) :
  getSyncTask env tok w
  = (match env_fail env (GetSyncTask tok :: history w) with
     | Some e => Throw e
     | None => Ret (env_syncTask env (GetSyncTask tok :: history w))
     end, suspended env (GetSyncTask tok) w).
Proof.
  unfold getSyncTask, bind. rewrite await_eq.
  now destruct (env_fail env _).
Qed.

Lemma emits_weaken {A} (a b : EventKind → bool) (m : M A) :
  (∀ k, a k = true → b k = true) → emits a m → emits b m.
Proof.
  intros Hab Hm w. destruct (Hm w) as (evs & E & F). exists evs. split; [exact E|].
  eapply Forall_impl; [exact F|]. intros ev. apply Hab.
Qed.

Lemma emits_length {A} (allowed : EventKind → bool) (m : M A) (w : World) :
  emits allowed m → (length (history w) ≤ length (history (m w).2))%nat.
Proof. intros Hm. destruct (Hm w) as (evs & -> & _). rewrite length_app. lia. Qed.

Lemma emits_sync_exit : emits all_kinds (sync_exit env).
Proof.
  unfold sync_exit. apply emits_bind; [auto with emits|]. intros t.
  apply emits_bind; [auto with emits|]. intros _.
  apply emits_bind; [auto with emits|]. intros _.
  now apply emits_saveSettings.
Qed.

Lemma emits_sync_run (fuel : nat) (message : bool) (tok : str) :
  emits all_kinds (sync_run host env fuel message tok).
Proof.
  unfold sync_run.
  apply emits_bind; [auto with emits|]. intros _.
  apply emits_bind; [now apply emits_saveSettings|]. intros _.
  apply emits_bind; [now apply emits_initDir|]. intros _.
  apply emits_bind; [destruct message; auto with emits|]. intros _.
  apply emits_bind; [now apply emits_sync_loop|]. intros c.
  apply emits_bind; [|auto with emits].
  destruct (count c =? 0)%nat; [|auto with emits].
  unfold sleep. auto with emits.
Qed.

Lemma emits_sync_try (fuel : nat) (message : bool) :
  emits all_kinds (sync_try host env fuel message).
Proof.
  unfold sync_try. apply emits_bind; [auto with emits|]. intros s.
  destruct (negb _); [auto with emits|].
  destruct (syncing s); [auto with emits|]. apply emits_sync_run.
Qed.

(** Whatever the [try] block did, [sync] only adds to its history. *)
Lemma sync_history_after (fuel : nat) (message : bool) (w w0 : World)
    (r : Res TryExit) :
  sync_try host env fuel message w = (r, w0) →
  ∃ evs, history (sync host env fuel message w).2 = evs ++ history w0.
Proof.
  intros H. unfold sync. rewrite H.
  destruct r as [[|]|e|].
  - exists []. reflexivity.
  - destruct (emits_sync_exit w0) as (evs & E & _). eauto.
  - assert (Hn : emits all_kinds (notice NoticeSyncFailed >> sync_exit env)).
    { apply emits_bind; [now apply emits_notice | intros _; apply emits_sync_exit]. }
    destruct (Hn w0) as (evs & E & _). eauto.
  - exists []. reflexivity.
Qed.

Lemma sync_try_passes (fuel : nat) (message : bool) (w : World) :
  truthy (token (settings w)) = true → syncing (settings w) = false →
  sync_try host env fuel message w
  = sync_run host env fuel message (default [] (token (settings w))) w.
Proof.
  intros Ht Hs. unfold sync_try, bind, get_settings. now rewrite Ht, Hs.
Qed.

(** Past the guards, the first call of a run is the save that carries the
    raised flag. *)
Lemma sync_run_first_call (fuel : nat) (message : bool) (tok : str) (w : World) :
  ∃ evs, history (sync_run host env fuel message tok w).2
         = evs ++ SaveData (set_syncing true (settings w)) :: history w.
Proof.
  unfold sync_run.
  set (rest := _initDir host env >> _).
  assert (Hrest : emits all_kinds rest).
  { pose proof (emits_sync_run fuel message tok) as H. unfold rest.
    apply emits_bind; [now apply emits_initDir|]. intros _.
    apply emits_bind; [destruct message; auto with emits|]. intros _.
    apply emits_bind; [now apply emits_sync_loop|]. intros c.
    apply emits_bind; [|auto with emits].
    destruct (count c =? 0)%nat; [|auto with emits].
    unfold sleep. auto with emits. }
  unfold bind at 1. simpl. unfold bind at 1.
  unfold saveSettings, bind at 1, get_settings. simpl. rewrite await_eq. simpl.
  destruct (env_fail env _).
  - exists []. reflexivity.
  - match goal with |- context [rest ?w1] => destruct (Hrest w1) as (evs & E & _) end.
    exists evs. rewrite E. reflexivity.
Qed.



(** *** Termination of the pagination loop *)

Lemma sync_loop_converges (T : nat) (tok : str) :
  drains env T →
  ∀ (fuel : nat) (c : Counters) (w : World),
    (T ≤ fuel + length (history w))%nat →
    (sync_loop host env (S fuel) tok c w).1 ≠ Diverge.
Proof.
  intros Hdr. induction fuel as [|fuel IH]; intros c w Hready.
  all: cbn [sync_loop]; unfold bind at 1, get_settings; cbn [fst snd].
  all: destruct (negb (enable (settings w))); [discriminate|].
  all: unfold bind at 1; rewrite getSyncTask_eq.
  all: destruct (env_fail env _); [discriminate|].
  all: set (w0 := suspended env (GetSyncTask tok) w).
  all: set (resp := env_syncTask env _).
  all: destruct (negb (st_valid resp)) eqn:Ev; [discriminate|].
  all: destruct (length (st_result resp) =? 0)%nat eqn:El; [discriminate|].
  all: unfold bind at 1.
  all: destruct (sync_items_returns host env tok (st_result resp) c w0)
         as (r & w1 & E).
  all: pose proof (emits_length page_kinds _ w0
                     (emits_sync_items host env page_kinds tok (st_result resp) c
                        (fun k H => H))) as Hlen.
  all: rewrite E in *; cbn [fst snd] in Hlen.
  all: destruct (Z.of_nat (length (st_result resp)) =? st_limit resp)%Z eqn:Eq;
         [|discriminate].
  - exfalso.
    assert (Hc : continues resp = true).
    { unfold continues. rewrite El, Eq. now destruct (st_valid resp). }
    unfold resp in Hc. rewrite Hdr in Hc; [discriminate|]. simpl. lia.
  - apply IH. simpl in Hlen. lia.
Qed.

Lemma converges_saveSettings : converges (saveSettings env).
Proof.
  unfold saveSettings. apply converges_bind; [intros w; discriminate|].
  intros s. apply converges_await.
Qed.

Lemma converges_initDir : converges (_initDir host env).
Proof.
  unfold _initDir. apply converges_bind; [intros w; discriminate|]. intros s.
  generalize [normalizePath host (rootDir s);
              normalizePath host (normalizePath host (rootDir s) ++ js "/" ++ linkDir s);
              normalizePath host (normalizePath host (rootDir s) ++ js "/" ++ richTextDir s)].
  intros l. induction l as [|d l IH]; simpl; auto 6 with converges.
Qed.

(** A step of a run that comes back, followed by steps that come back from
    any later world, comes back. *)
Lemma bind_comes_back {A B} (T fuel : nat) (m : M A) (k : A → M B) (w : World) :
  converges m → emits all_kinds m →
  (∀ a w1, (T ≤ fuel + length (history w1))%nat → (k a w1).1 ≠ Diverge) →
  (T ≤ fuel + length (history w))%nat →
  (bind m k w).1 ≠ Diverge.
Proof.
  intros Hc He Hk Hready. unfold bind.
  pose proof (Hc w) as Hc'. pose proof (emits_length _ _ w He) as Hlen.
  destruct (m w) as [[a|e|] w1]; simpl in *; [|discriminate|congruence].
  apply Hk. lia.
Qed.

Lemma sync_run_converges (T fuel : nat) (message : bool) (tok : str) (w : World) :
  drains env T → (T ≤ fuel + length (history w))%nat →
  (sync_run host env (S fuel) message tok w).1 ≠ Diverge.
Proof.
  intros Hdr Hready. unfold sync_run.
  eapply bind_comes_back; [intros w'; discriminate | auto with emits | | exact Hready].
  intros _ w1 H1.
  eapply bind_comes_back;
    [apply converges_saveSettings | now apply emits_saveSettings | | exact H1].
  intros _ w2 H2.
  eapply bind_comes_back;
    [apply converges_initDir | now apply emits_initDir | | exact H2].
  intros _ w3 H3.
  eapply bind_comes_back; [| | | exact H3].
  { destruct message; intros w'; discriminate. }
  { destruct message; auto with emits. }
  intros _ w4 H4. unfold bind at 1.
  pose proof (sync_loop_converges T tok Hdr fuel (mkCounters 0 0 0) w4 H4) as Hl.
  destruct (sync_loop _ _ _ _ _ w4) as [[c|e|] w5]; simpl in *;
    [|discriminate|congruence].
  destruct (count c =? 0)%nat; discriminate.
Qed.

Lemma sync_run_falls_through (fuel : nat) (message : bool) (tok : str)
    (w w0 : World) (x : TryExit) :
  sync_run host env fuel message tok w = (Ret x, w0) → x = FellThrough.
Proof.
  unfold sync_run, bind.
  repeat match goal with
  | |- context [match ?m ?w' with _ => _ end] =>
      destruct (m w') as [[?|?|] ?]; try discriminate
  | |- context [if ?b then _ else _] => destruct b
  end.
  all: intros H; now inversion H.
Qed.

Lemma sync_exit_eq (w1 : World) :
  let s := set_syncing false
             (set_lastSyncTime (env_now env (history w1)) (settings w1)) in
  sync_exit env w1
  = (match env_fail env (SaveData s :: history w1) with
     | Some e => Throw e
     | None => Ret tt
     end,
     suspended env (SaveData s)
       {| settings := s; store := store w1; history := history w1 |}).
Proof.
  unfold sync_exit, bind, now, modify_settings, saveSettings, bind, get_settings.
  simpl. rewrite await_eq. reflexivity.
Qed.


End Sync.



Example rejected_exit_save_calls :
  (sync plain_host disk_full_env 1 true fresh_world).1
  = Throw (mkError (js "Error: disk"))
  ∧ map kind (rev (history (sync plain_host disk_full_env 1 true fresh_world).2))
    = [KSave; KNotice; KSave].
Proof. vm_compute. split; reflexivity. Qed.

(** ** Pages *)

Section Pages.
Context (host : Host) (env : Env).

#[local] Hint Resolve emits_ret emits_throw emits_diverge emits_get_settings
  emits_modify_settings emits_add_path emits_now emits_bind emits_try_catch
  emits_finally emits_suspend emits_await emits_notice : emits.

Lemma getSyncTask_inv (tok : str) (w w0 : World) (resp : SyncTaskResponse) :
  getSyncTask env tok w = (Ret resp, w0) →
  w0 = suspended env (GetSyncTask tok) w.
Proof.
  rewrite getSyncTask_eq. destruct (env_fail env _); intros H; now inversion H.
Qed.

Lemma count_kind_emits {A} (allowed : EventKind → bool) (k : EventKind)
    (m : M A) (w : World) :
  emits allowed m → allowed k = false →
  count_kind k (history (m w).2) = count_kind k (history w).
Proof.
  intros Hm Hk. destruct (Hm w) as (evs & -> & F).
  rewrite count_kind_app, (count_kind_excluded allowed k evs Hk F). reflexivity.
Qed.

Lemma sync_item_stale (tok item : str) (c : Counters) (w w1 : World)
    (r : SyncNoteResult) :
  _syncNote host env item tok w = (Ret r, w1) →
  pluginEnable r = false ∨ taskExist r = false →
  sync_item host env tok item c w
  = (Ret (bump c, Break), suspended env (Sleep 3000) w1).
Proof.
  intros E H. unfold sync_item, finally, try_catch, bind. rewrite E.
  destruct H as [H|H]; rewrite H; simpl; [reflexivity|].
  now destruct (pluginEnable r).
Qed.

Lemma sync_item_count (tok item : str) (c c1 : Counters) (k : Completion)
    (w w1 : World) :
  sync_item host env tok item c w = (Ret (c1, k), w1) → count c1 = S (count c).
Proof.
  unfold sync_item, finally, try_catch, bind.
  destruct (_syncNote host env item tok w) as [[r|e|] w'];
    repeat match goal with
    | |- context [if ?b then _ else _] => destruct b
    end; simpl; intros H; inversion H; reflexivity.
Qed.

Lemma sync_items_app (tok : str) (pre l : list str) : ∀ (c : Counters) (w : World),
  sync_items host env tok (pre ++ l) c w
  = match sync_items host env tok pre c w with
    | (Ret (c1, Normal), w1) => sync_items host env tok l c1 w1
    | other => other
    end.
Proof.
  induction pre as [|item pre IH]; intros c w; simpl; [reflexivity|].
  unfold bind. destruct (sync_item host env tok item c w) as [[[c1 [|]]|e|] w1];
    simpl; [apply IH | reflexivity..].
Qed.

Lemma sync_items_count (tok : str) (pre : list str) :
  ∀ (c c1 : Counters) (w w1 : World),
    sync_items host env tok pre c w = (Ret (c1, Normal), w1) →
    count c1 = (count c + length pre)%nat.
Proof.
  induction pre as [|item pre IH]; intros c c1 w w1; simpl.
  - intros H. inversion H. lia.
  - unfold bind.
    destruct (sync_item host env tok item c w) as [[[c' [|]]|e|] w'] eqn:E;
      simpl; try discriminate.
    intros H. apply IH in H. apply sync_item_count in E. lia.
Qed.

(** One round of the pagination loop, once its page is known. *)
Lemma sync_loop_step (fuel : nat) (tok : str) (c : Counters) (w w0 w1 : World)
    (resp : SyncTaskResponse) (r : Counters * Completion) :
  enable (settings w) = true →
  getSyncTask env tok w = (Ret resp, w0) →
  st_valid resp = true →
  sync_items host env tok (st_result resp) c w0 = (Ret r, w1) →
  sync_loop host env (S fuel) tok c w
  = if (length (st_result resp) =? 0)%nat then (Ret c, w0)
    else if (Z.of_nat (length (st_result resp)) =? st_limit resp)%Z
         then sync_loop host env fuel tok r.1 w1
         else (Ret r.1, w1).
Proof.
  intros He Hf Hv Hi. cbn [sync_loop]. unfold bind at 1, get_settings.
  rewrite He. cbn [negb]. unfold bind at 1. rewrite Hf, Hv. cbn [negb].
  destruct (length (st_result resp) =? 0)%nat; [reflexivity|].
  unfold bind at 1. rewrite Hi.
  now destruct (Z.of_nat _ =? _)%Z.
Qed.

(** A round that starts with the plugin enabled asks for a page first. *)
Lemma sync_loop_first_fetch (fuel : nat) (tok : str) (c : Counters) (w : World) :
  enable (settings w) = true →
  ∃ evs, history (sync_loop host env (S fuel) tok c w).2
         = evs ++ GetSyncTask tok :: history w
         ∧ Forall (fun ev => loop_kinds (kind ev) = true) evs.
Proof.
  intros He. cbn [sync_loop]. unfold bind at 1, get_settings. rewrite He.
  cbn [negb]. unfold bind at 1. rewrite getSyncTask_eq.
  destruct (env_fail env _); [exists []; split; [reflexivity | constructor]|].
  match goal with
  | |- context [(if negb (st_valid ?resp) then ?a else ?b) ?w0] =>
      assert (Hk : emits loop_kinds (if negb (st_valid resp) then a else b));
      [|destruct (Hk w0) as (evs & E & F); exists evs; split; [exact E | exact F]]
  end.
  destruct (negb _); [auto with emits|].
  destruct (_ =? 0)%nat; [auto with emits|].
  apply emits_bind.
  - apply emits_sync_items. intros k Hk. now destruct k.
  - intros r. destruct (_ =? _)%Z; [|auto with emits].
    now apply emits_sync_loop.
Qed.

Lemma sync_loop_disabled (fuel : nat) (tok : str) (c : Counters) (w : World) :
  enable (settings w) = false →
  count_kind KFetch (history (sync_loop host env fuel tok c w).2)
  = count_kind KFetch (history w).
Proof.
  intros He. destruct fuel; [reflexivity|].
  cbn [sync_loop]. unfold bind, get_settings. rewrite He. reflexivity.
Qed.

Lemma fetch_counted (tok : str) (w : World) :
  count_kind KFetch (history (suspended env (GetSyncTask tok) w))
  = S (count_kind KFetch (history w)).
Proof. reflexivity. Qed.

(** C1: a materialization that reports the plugin disabled, or the task
    gone, ends the page: the remaining tasks of the page are not attempted,
    and the three-second pause is still taken.  The pagination loop itself
    goes on by its usual rule: when the page was not full it ends; when the
    page was full the next round starts, which fetches again unless it
    finds the plugin disabled. *)
Theorem stale_task_ends_page (fuel : nat) (tok : str) (c c1 : Counters)
    (w w0 w1 w2 : World) (resp : SyncTaskResponse) (pre post : list str)
    (item : str) (r : SyncNoteResult) :
  enable (settings w) = true →
  getSyncTask env tok w = (Ret resp, w0) →
  st_valid resp = true →
  st_result resp = pre ++ item :: post →
  sync_items host env tok pre c w0 = (Ret (c1, Normal), w1) →
  _syncNote host env item tok w1 = (Ret r, w2) →
  pluginEnable r = false ∨ taskExist r = false →
  let w3 := suspended env (Sleep 3000) w2 in
  let full := (Z.of_nat (length (st_result resp)) =? st_limit resp)%Z in
  let run := sync_loop host env (S fuel) tok c w in
  sync_items host env tok (pre ++ item :: post) c w0 = (Ret (bump c1, Break), w3)
  ∧ count (bump c1) = (count c + length pre + 1)%nat
  ∧ run = (if full then sync_loop host env fuel tok (bump c1) w3
           else (Ret (bump c1), w3))
  ∧ (full = false ∨ enable (settings w3) = false →
     count_kind KFetch (history run.2) = S (count_kind KFetch (history w)))
  ∧ (full = true → enable (settings w3) = true → (0 < fuel)%nat →
     ∃ evs, history run.2 = evs ++ GetSyncTask tok :: history w3).
Proof.
  intros He Hf Hv Hl Hpre Hnote Hstale w3 full run.
  assert (Hpage : sync_items host env tok (pre ++ item :: post) c w0
                  = (Ret (bump c1, Break), w3)).
  { rewrite sync_items_app, Hpre. cbn [sync_items]. unfold bind.
    rewrite (sync_item_stale tok item c1 w1 w2 r Hnote Hstale). reflexivity. }
  assert (Hrun : run = (if full then sync_loop host env fuel tok (bump c1) w3
                        else (Ret (bump c1), w3))).
  { unfold run. pose proof Hpage as Hpage'. rewrite <- Hl in Hpage'.
    rewrite (sync_loop_step fuel tok c w w0 w3 resp _ He Hf Hv Hpage').
    destruct (length (st_result resp) =? 0)%nat eqn:E0; [|reflexivity].
    apply Nat.eqb_eq in E0. rewrite Hl, length_app in E0. simpl in E0. lia. }
  assert (Hcount : count_kind KFetch (history w3)
                   = S (count_kind KFetch (history w))).
  { pose proof (count_kind_emits page_kinds KFetch _ w0
                  (emits_sync_items host env page_kinds tok
                     (pre ++ item :: post) c (fun k H => H)) eq_refl) as Hc.
    rewrite Hpage in Hc. cbn [snd] in Hc. rewrite Hc.
    rewrite (getSyncTask_inv tok w w0 resp Hf). apply fetch_counted. }
  split; [exact Hpage|]. split.
  { apply sync_items_count in Hpre. simpl. lia. }
  split; [exact Hrun|]. split.
  - intros Hstop. rewrite Hrun. destruct full.
    + destruct Hstop as [|Hd]; [discriminate|].
      rewrite sync_loop_disabled by exact Hd. exact Hcount.
    + exact Hcount.
  - intros Hfull Hen Hfuel. rewrite Hrun, Hfull.
    destruct fuel as [|fuel']; [lia|].
    destruct (sync_loop_first_fetch fuel' tok (bump c1) w3 Hen) as (evs & E & _).
    eauto.
Qed.

End Pages.

(** The claim as the specification words it fails on a stale full page:
    the task [a] is gone, [b] is skipped, and the loop fetches once more. *)
Lemma stale_page_fetches_again :
  ¬ stale_ends_pagination plain_host stale_env 5 (js "tok") (mkCounters 0 0 0)
      fresh_world.
Proof.
  intros H.
  specialize (H (mkSyncTask true 2 [js "a"; js "b"])
                (suspended stale_env (GetSyncTask (js "tok")) fresh_world)
                (js "a") [js "b"] (mkResult true false false)
                (suspended stale_env (GetSyncContent (js "a") (js "tok"))
                   (suspended stale_env (GetSyncTask (js "tok")) fresh_world))
                eq_refl eq_refl eq_refl eq_refl eq_refl (or_intror eq_refl)).
  vm_compute in H. discriminate H.
Qed.

(** Unloading the plugin in the middle of a full page: the second task
    reports the plugin disabled and nothing is fetched for it, and the next
    round stops at its first test, without a second fetch. *)
Example unload_ends_the_run :
  let run := sync plain_host unloading_env 5 true fresh_world in
  run.1 = Ret tt
  ∧ count_kind KFetch (history run.2) = 1%nat
  ∧ count_kind KContent (history run.2) = 1%nat
  ∧ In (ShowNotice NoticeDisabled) (history run.2).
Proof. vm_compute. intuition. Qed.

(** ** Pagination *)

Section Pagination.
Context (host : Host) (env : Env).

(** C6: after a page was fetched and worked through, the loop fetches
    another page exactly when the page had as many tasks as the reported
    limit (and the plugin is still enabled when the next round starts); an
    empty page ends the loop.  With two full pages and then a short one,
    three fetches are made; with one short page, one. *)
Theorem pagination_continues_iff_full (fuel : nat) (tok : str) (c : Counters)
    (w w0 : World) (resp : SyncTaskResponse) :
  enable (settings w) = true →
  getSyncTask env tok w = (Ret resp, w0) →
  st_valid resp = true →
  let run := sync_loop host env (S fuel) tok c w in
  let fetched := (count_kind KFetch (history run.2)
                  - count_kind KFetch (history w))%nat in
  ∃ r w1,
    sync_items host env tok (st_result resp) c w0 = (Ret r, w1)
    ∧ (st_result resp = [] → run = (Ret c, w0) ∧ fetched = 1%nat)
    ∧ (st_result resp ≠ [] → enable (settings w1) = true → (0 < fuel)%nat →
       ((2 ≤ fetched)%nat ↔ Z.of_nat (length (st_result resp)) = st_limit resp))
    ∧ (st_result resp ≠ [] →
       Z.of_nat (length (st_result resp)) ≠ st_limit resp →
       run = (Ret r.1, w1) ∧ fetched = 1%nat)
    ∧ (∀ n,
        let three := sync plain_host three_pages_env (3 + n) true fresh_world in
        let one := sync plain_host short_page_env (1 + n) true fresh_world in
        three.1 = Ret tt ∧ count_kind KFetch (history three.2) = 3%nat
        ∧ one.1 = Ret tt ∧ count_kind KFetch (history one.2) = 1%nat).
Proof.
  intros He Hf Hv run fetched.
  destruct (sync_items_returns host env tok (st_result resp) c w0) as (r & w1 & Hi).
  exists r, w1. split; [exact Hi|].
  pose proof (sync_loop_step host env fuel tok c w w0 w1 resp r He Hf Hv Hi) as Hstep.
  fold run in Hstep.
  assert (H0 : count_kind KFetch (history w0) = S (count_kind KFetch (history w))).
  { rewrite (getSyncTask_inv env tok w w0 resp Hf). reflexivity. }
  assert (H1 : count_kind KFetch (history w1) = S (count_kind KFetch (history w))).
  { pose proof (count_kind_emits page_kinds KFetch _ w0
                  (emits_sync_items host env page_kinds tok (st_result resp) c
                     (fun k H => H)) eq_refl) as Hc.
    rewrite Hi in Hc. cbn [snd] in Hc. now rewrite Hc. }
  assert (Hne : st_result resp ≠ [] → (length (st_result resp) =? 0)%nat = false).
  { intros Hne. apply Nat.eqb_neq. destruct (st_result resp); [done | simpl; lia]. }
  split; [|split; [|split]].
  - intros Hnil. rewrite Hnil in Hstep. simpl in Hstep.
    split; [exact Hstep|]. unfold fetched. rewrite Hstep. simpl. lia.
  - intros Hnonempty Hen Hfuel. rewrite (Hne Hnonempty) in Hstep.
    unfold fetched. rewrite Hstep.
    destruct (Z.of_nat (length (st_result resp)) =? st_limit resp)%Z eqn:Eq.
    + apply Z.eqb_eq in Eq. split; [intros _; exact Eq|]. intros _.
      destruct fuel as [|fuel']; [lia|].
      destruct (sync_loop_first_fetch host env fuel' tok r.1 w1 Hen)
        as (evs & -> & _).
      rewrite count_kind_app. change (GetSyncTask tok :: history w1)
        with ([GetSyncTask tok] ++ history w1).
      rewrite count_kind_app, H1. simpl. lia.
    + apply Z.eqb_neq in Eq. simpl. rewrite H1. split; [lia | congruence].
  - intros Hnonempty Hshort. rewrite (Hne Hnonempty) in Hstep.
    apply Z.eqb_neq in Hshort. rewrite Hshort in Hstep.
    split; [exact Hstep|]. unfold fetched. rewrite Hstep. simpl. lia.
  - intros n. vm_compute. repeat split.
Qed.

End Pagination.

(** ** The account validator *)

Section Account.
Context (host : Host) (env : Env).

Lemma checkToken_silent (tok : option str) (w : World) :
  ∃ fu, _checkToken host env tok w = (Ret fu, w).
Proof.
  unfold _checkToken. destruct (truthy tok); [|eexists; reflexivity].
  destruct (jwtDecode host _) as [| |[exp|]]; unfold bind, now; simpl;
    try (eexists; reflexivity).
  destruct (_ <=? _)%Z; eexists; reflexivity.
Qed.

(** C2: when [checkAccount] answers invalid, either the integration check
    was made and rejected, and then the settings were neither cleared nor
    saved and the answer is [{valid: false, failedTaskCount: 0}]; or the
    credential, the user and the session id were cleared and the cleared
    settings were saved as the last call before returning. *)
Theorem checkAccount_clears_unless_unreachable (w w' : World) (r : AccountResult) :
  checkAccount host env w = (Ret r, w') →
  valid r = false →
  let call := GetIntegration (default [] (sessionId (settings w)))
                             (default [] (token (settings w))) in
  (∃ e, env_fail env (call :: history w) = Some e
        ∧ w' = suspended env call w
        ∧ r = mkAccount false 0)
  ∨ (∃ w1, (w1 = w ∨ (w1 = suspended env call w
                      ∧ env_fail env (call :: history w) = None))
           ∧ w' = suspended env (SaveData (clear_account (settings w1)))
                    {| settings := clear_account (settings w1);
                       store := store w1; history := history w1 |}
           ∧ token (clear_account (settings w1)) = None
           ∧ user (clear_account (settings w1)) = None
           ∧ sessionId (clear_account (settings w1)) = None).
Proof.
  intros Hrun Hinvalid call. revert Hrun.
  unfold checkAccount. unfold bind at 1, get_settings. unfold bind at 1.
  destruct (checkToken_silent (token (settings w)) w) as ([format unExpired] & ->).
  unfold bind at 1.
  destruct (format && unExpired && truthy (token (settings w))
            && truthy (sessionId (settings w))) eqn:Echeck.
  - unfold try_catch, bind at 1, getIntegration, bind at 1.
    rewrite await_eq. fold call.
    destruct (env_fail env (call :: history w)) as [e|] eqn:Efail.
    + unfold ret. intros H. inversion H; subst. left. eauto.
    + unfold ret. cbn [fst snd].
      apply andb_prop in Echeck as [Echeck _].
      apply andb_prop in Echeck as [Echeck _]. rewrite Echeck. cbn [negb orb andb].
      destruct (int_valid (env_integration env _)) eqn:Ev.
      * unfold bind. simpl. intros H. inversion H; subst. simpl in Hinvalid.
        discriminate.
      * cbn [negb]. unfold bind at 1, bind at 1, modify_settings.
        unfold saveSettings, bind at 1, get_settings. cbn [settings].
        rewrite await_eq. simpl.
        match goal with
        | |- context [env_fail env (SaveData ?s :: ?h)] =>
            destruct (env_fail env (SaveData s :: h)); [discriminate|]
        end.
        intros H. inversion H; subst. right.
        exists (suspended env call w). repeat split; auto.
  - unfold ret at 1.
    destruct (negb (format && unExpired) || negb false) eqn:En.
    + unfold bind at 1, bind at 1, modify_settings.
      unfold saveSettings, bind at 1, get_settings. cbn [settings].
      rewrite await_eq. simpl.
      destruct (env_fail env _); [discriminate|].
      intros H. inversion H; subst. right. exists w. repeat split; auto.
    + rewrite orb_true_r in En. discriminate.
Qed.

End Account.

(** The claim fails when the integration check cannot be reached: the
    verdict is invalid, and nothing was cleared or saved. *)
Lemma offline_check_keeps_account :
  ¬ clears_whenever_invalid plain_host offline_env fresh_world.
Proof.
  intros H.
  destruct (H (mkAccount false 0)
              (suspended offline_env (GetIntegration (js "sid") (js "tok"))
                 fresh_world) eq_refl eq_refl) as (s & h & E & _).
  vm_compute in E. discriminate E.
Qed.

(** ** The materializer and the login poller *)

Ltac case_fail :=
  match goal with
  | |- context [match env_fail ?e ?h with _ => _ end] =>
      let Ef := fresh "Efail" in destruct (env_fail e h) eqn:Ef
  end.

Section Materializer.
Context (host : Host) (env : Env).

Lemma getSyncContent_eq (id tok : str) (w : World) :
  getSyncContent env id tok w
  = (match env_fail env (GetSyncContent id tok :: history w) with
     | Some e => Throw e
     | None => Ret (env_syncContent env (GetSyncContent id tok :: history w))
     end, suspended env (GetSyncContent id tok) w).
Proof.
  unfold getSyncContent, bind. rewrite await_eq.
  now destruct (env_fail env _).
Qed.

(** C8: when the [try] block of the materializer throws, exactly one
    failure acknowledgment is sent, carrying the description of the error,
    as the last call; whatever becomes of that acknowledgment, the error
    thrown to the caller is the original one. *)
Theorem syncNote_acknowledges_failure (id tok : str) (w w1 : World) (e : JsError) :
  _syncNote_try host env id tok w = (Throw e, w1) →
  let run := _syncNote host env id tok w in
  run = (Throw e, suspended env (SyncFailed id tok (description e)) w1)
  ∧ history run.2 = SyncFailed id tok (description e) :: history w1
  ∧ count_kind KAckFailed (history run.2) = S (count_kind KAckFailed (history w)).
Proof.
  intros Hbody run.
  assert (Hrun : run = (Throw e, suspended env (SyncFailed id tok (description e)) w1)).
  { unfold run, _syncNote, try_catch. rewrite Hbody.
    unfold bind, ackFailed. rewrite await_eq.
    now destruct (env_fail env _). }
  split; [exact Hrun|]. rewrite Hrun. split; [reflexivity|].
  pose proof (count_kind_emits
                (fun k => match k with
                          | KVault | KContent | KAckSuccess => true
                          | _ => false
                          end) KAckFailed _ w
                (emits_syncNote_try host env _ id tok eq_refl eq_refl eq_refl)
                eq_refl) as Hc.
  rewrite Hbody in Hc. cbn [snd] in Hc.
  cbn [snd suspended history]. unfold count_kind in *.
  rewrite filter_cons. simpl. now rewrite Hc.
Qed.

(** C10: a note whose super-type is neither [SUPER_LINK] nor
    [SUPER_RICH_TEXT] gets no destination: the file name stays the empty
    string, and the write is attempted at the empty path. *)
Theorem unknown_supertype_writes_empty_path (id tok : str) (w : World) :
  enable (settings w) = true →
  let w1 := suspended env (GetSyncContent id tok) w in
  let note := env_syncContent env (history w1) in
  env_fail env (history w1) = None →
  nc_id note ≠ None →
  nc_superType note ≠ SUPER_LINK →
  nc_superType note ≠ SUPER_RICH_TEXT →
  destination host env (settings w) note w1 = (Ret [], w1)
  ∧ ∃ evs, history (_syncNote host env id tok w).2
           = evs ++ WriteFile [] (noteText host note) :: history w1.
Proof.
  intros He w1 note Hok Hid Hlink Hrich.
  assert (Hdest : destination host env (settings w) note w1 = (Ret [], w1)).
  { unfold destination, eqs.
    rewrite !bool_decide_eq_false_2 by assumption. reflexivity. }
  split; [exact Hdest|].
  unfold _syncNote, try_catch, _syncNote_try.
  unfold bind at 1, get_settings. rewrite He. cbn [negb].
  unfold bind at 1. rewrite getSyncContent_eq.
  change (GetSyncContent id tok :: history w) with (history w1).
  rewrite Hok. fold w1 note.
  destruct (nc_id note) as [nid|]; [|congruence].
  unfold bind at 1. rewrite Hdest.
  unfold bind at 1, adapter_write, bind at 1. rewrite await_eq.
  destruct (env_fail env (WriteFile [] (noteText host note) :: history w1)).
  - unfold bind, ackFailed. rewrite await_eq.
    exists [SyncFailed id tok (description j)].
    case_fail; reflexivity.
  - unfold add_path, bind, ackSuccess, try_catch. cbn [fst snd].
    rewrite await_eq. exists [SyncSuccess id tok].
    case_fail; reflexivity.
Qed.

End Materializer.

Lemma count_kind_cons_eq (k : EventKind) (ev : Event) (h : list Event) :
  kind ev = k → count_kind k (ev :: h) = S (count_kind k h).
Proof. intros H. unfold count_kind. now rewrite filter_cons_True. Qed.

Lemma count_kind_cons_ne (k : EventKind) (ev : Event) (h : list Event) :
  kind ev ≠ k → count_kind k (ev :: h) = count_kind k h.
Proof. intros H. unfold count_kind. now rewrite filter_cons_False. Qed.

Section Poller.
Context (env : Env).

Lemma poll_fire_eq (sid : str) (a : nat) (w : World) :
  poll_fire env sid a w
  = if (maxAttempts <=? a)%nat then (Ret (inl expired), w)
    else (Ret (inr (poll_outcome env (GetLoginStatus sid :: history w))),
          suspended env (GetLoginStatus sid) w).
Proof.
  unfold poll_fire. destruct (maxAttempts <=? a)%nat; [reflexivity|].
  unfold bind at 1, try_catch, bind at 1, getLoginStatus, bind at 1.
  rewrite await_eq. unfold poll_outcome.
  now destruct (env_fail env _).
Qed.

Lemma poll_pending_settle (h : list Event) :
  poll_pending env h → poll_settle (poll_outcome env h) = None.
Proof.
  unfold poll_pending, poll_settle, poll_outcome. intros [Hp|[Hi Hs]].
  - now destruct (env_fail env h).
  - destruct (env_fail env h); [reflexivity|]. now rewrite Hi, Hs.
Qed.

(** A firing and the settling of the oldest request in flight, of which
    there is at most one. *)
Lemma poll_round (sid : str) (a : nat) (turns : list Turn)
    (inflight : list (option LoginStatus)) (w : World) :
  (length inflight ≤ 1)%nat →
  let wt := suspended env (IntervalTick 2000) w in
  let w1 := suspended env (GetLoginStatus sid) wt in
  let sent := poll_outcome env (history w1) in
  poll_turns env (Fire :: Settle 0 :: turns) sid a inflight w
  = if (maxAttempts <=? a)%nat then (Ret expired, wt)
    else match poll_settle (default sent (head inflight)) with
         | Some res => (Ret res, w1)
         | None =>
             poll_turns env turns sid (S a)
               (match inflight with [] => [] | _ => [sent] end) w1
         end.
Proof.
  intros Hlen wt w1 sent. cbn [poll_turns]. unfold bind at 1, suspend.
  fold wt. unfold bind at 1. rewrite poll_fire_eq.
  destruct (maxAttempts <=? a)%nat; [reflexivity|].
  fold w1. change (GetLoginStatus sid :: history wt) with (history w1). fold sent.
  destruct inflight as [|o [|o' rest]]; [| |simpl in Hlen; lia]; cbn.
  - destruct (poll_settle sent); reflexivity.
  - destruct (poll_settle o); reflexivity.
Qed.

(** While every poll leaves the login pending, with at most one request in
    flight at each firing, the budget runs down by one at each firing. *)
Lemma poll_turns_pending (sid : str) (k : nat) :
  (∀ h, poll_pending env h) →
  ∀ (a n : nat) (inflight : list (option LoginStatus)) (w : World),
    (a + k = 60)%nat → (k < n)%nat →
    (length inflight ≤ 1)%nat →
    Forall (fun o => poll_settle o = None) inflight →
    ∃ w', poll_turns env (prompt n) sid a inflight w = (Ret expired, w')
          ∧ count_kind KLogin (history w') = (count_kind KLogin (history w) + k)%nat
          ∧ count_kind KTick (history w')
            = (count_kind KTick (history w) + S k)%nat.
Proof.
  intros Hp. induction k as [|k IH]; intros a n inflight w Ha Hn Hlen Hfl;
    (destruct n as [|n]; [lia|]); cbn [prompt];
    rewrite poll_round by exact Hlen; cbv zeta; unfold maxAttempts.
  - replace (60 <=? a)%nat with true by (symmetry; apply Nat.leb_le; lia).
    eexists. split; [reflexivity|]. cbn [suspended history].
    rewrite count_kind_cons_ne by discriminate.
    rewrite count_kind_cons_eq by reflexivity. split; lia.
  - replace (60 <=? a)%nat with false by (symmetry; apply Nat.leb_gt; lia).
    set (w1 := suspended env (GetLoginStatus sid)
                 (suspended env (IntervalTick 2000) w)).
    assert (Hsent : poll_settle (poll_outcome env (history w1)) = None)
      by apply poll_pending_settle, Hp.
    assert (Hhead : poll_settle (default (poll_outcome env (history w1))
                                   (head inflight)) = None).
    { destruct inflight as [|o rest]; [exact Hsent|].
      cbn. now apply Forall_cons_1 in Hfl as [Ho _]. }
    rewrite Hhead.
    destruct (IH (S a) n (match inflight with [] => [] | _ => [poll_outcome env (history w1)] end) w1)
      as (w' & H1 & H2 & H3); [lia | lia | | |].
    { destruct inflight; simpl; lia. }
    { destruct inflight; [constructor | repeat constructor; exact Hsent]. }
    exists w'. split; [exact H1|]. rewrite H2, H3.
    unfold w1. cbn [suspended history].
    rewrite (count_kind_cons_eq KLogin), (count_kind_cons_ne KLogin),
      (count_kind_cons_ne KTick), (count_kind_cons_eq KTick);
      try reflexivity; try discriminate.
    split; lia.
Qed.

Lemma getLoginStatus_start (turns : list Turn) (sid : str) (w : World) :
  _getLoginStatus env turns sid w = poll_turns env turns sid 1 [] w.
Proof. reflexivity. Qed.

Lemma getLoginStatus_late (turns : list Turn) (sid : str) (w : World) :
  let w1 := suspended env (GetLoginStatus sid)
              (suspended env (IntervalTick 2000) w) in
  _getLoginStatus env (Fire :: turns) sid w
  = poll_turns env turns sid 1 [poll_outcome env (history w1)] w1.
Proof.
  intros w1. unfold _getLoginStatus. cbn [poll_turns].
  unfold bind at 1, suspend. unfold bind at 1. now rewrite poll_fire_eq.
Qed.

(** C3: when no poll ever resolves the login and every request is answered
    before the interval fires again, the poller resolves with
    [qrCodeExpired = true] on the 60th firing of the interval, and it has
    polled the status on the first 59 firings only: the 60th makes no
    poll.  The interval does not wait for the answers: when every answer
    comes after the next firing, the poller has polled 60 times, and it
    resolves on the 61st firing. *)
Theorem poller_expires_after_59_polls (n : nat) (sid : str) (w : World) :
  (∀ h, poll_pending env h) →
  let run := _getLoginStatus env (prompt (60 + n)) sid w in
  let slow := _getLoginStatus env (late (60 + n)) sid w in
  run.1 = Ret expired
  ∧ qrCodeExpired expired = Some true
  ∧ count_kind KTick (history run.2) = (count_kind KTick (history w) + 60)%nat
  ∧ count_kind KLogin (history run.2) = (count_kind KLogin (history w) + 59)%nat
  ∧ slow.1 = Ret expired
  ∧ count_kind KTick (history slow.2) = (count_kind KTick (history w) + 61)%nat
  ∧ count_kind KLogin (history slow.2) = (count_kind KLogin (history w) + 60)%nat.
Proof.
  intros Hp.
  destruct (poll_turns_pending sid 59 Hp 1%nat (60 + n)%nat [] w)
    as (w' & H1 & H2 & H3); [lia | lia | simpl; lia | constructor |].
  set (w1 := suspended env (GetLoginStatus sid)
               (suspended env (IntervalTick 2000) w)).
  destruct (poll_turns_pending sid 59 Hp 1%nat (60 + n)%nat
              [poll_outcome env (history w1)] w1)
    as (w'' & S1 & S2 & S3); [lia | lia | simpl; lia | |].
  { repeat constructor. apply poll_pending_settle, Hp. }
  cbv zeta. unfold late. rewrite getLoginStatus_late, getLoginStatus_start.
  fold w1. rewrite H1, S1. cbn [fst snd].
  split; [reflexivity|]. split; [reflexivity|].
  split; [exact H3|]. split; [exact H2|]. split; [reflexivity|].
  rewrite S2, S3. unfold w1. cbn [suspended history].
  rewrite (count_kind_cons_eq KLogin), (count_kind_cons_ne KLogin),
    (count_kind_cons_ne KTick), (count_kind_cons_eq KTick);
    try reflexivity; try discriminate.
  split; lia.
Qed.

End Poller.

(** ** The theorems at work *)

Lemma sanitize_spec_witness :
  Forall (fun c => Title.is_control c = true ∨ Title.is_space c = true)
    [9; 32; 1; 160]
  ∧ Title.sanitize [9; 32; 1; 160] = Title.placeholder.
Proof.
  assert (H : Forall (fun c => Title.is_control c = true ∨ Title.is_space c = true)
                [9; 32; 1; 160]).
  { repeat first [apply List.Forall_cons | apply List.Forall_nil];
      vm_compute; auto. }
  split; [exact H|].
  exact (proj2 (proj2 (sanitize_spec [9; 32; 1; 160])) H).
Defined.

Lemma getFileName_fresh_witness :
  ∃ w', _getFileName quiet_env (js "a") (world_with [js "a.md"; js "a 1.md"])
        = (Ret (js "a 2.md"), w').
Proof.
  refine (proj1 (getFileName_fresh quiet_env (js "a")
                   (world_with [js "a.md"; js "a 1.md"])) 2%nat _ _).
  - intros i Hi.
    destruct i as [|[|i]]; [| |lia]; apply (bool_decide_unpack _); vm_compute; exact I.
  - apply (bool_decide_unpack _). vm_compute. exact I.
Defined.

Lemma stale_task_ends_page_witness :
  sync_items plain_host stale_env (js "tok") [js "a"; js "b"] (mkCounters 0 0 0)
    (suspended stale_env (GetSyncTask (js "tok")) fresh_world)
  = (Ret (mkCounters 1 0 0, Break),
     suspended stale_env (Sleep 3000)
       (suspended stale_env (GetSyncContent (js "a") (js "tok"))
          (suspended stale_env (GetSyncTask (js "tok")) fresh_world))).
Proof.
  exact (proj1 (stale_task_ends_page plain_host stale_env 4 (js "tok")
                  (mkCounters 0 0 0) (mkCounters 0 0 0) fresh_world
                  (suspended stale_env (GetSyncTask (js "tok")) fresh_world)
                  (suspended stale_env (GetSyncTask (js "tok")) fresh_world)
                  (suspended stale_env (GetSyncContent (js "a") (js "tok"))
                     (suspended stale_env (GetSyncTask (js "tok")) fresh_world))
                  (mkSyncTask true 2 [js "a"; js "b"]) [] [js "b"] (js "a")
                  (mkResult true false false)
                  eq_refl eq_refl eq_refl eq_refl eq_refl eq_refl
                  (or_intror eq_refl))).
Defined.

Lemma checkAccount_clears_witness :
  token (settings (checkAccount plain_host revoked_env fresh_world).2) = None.
Proof.
  destruct (checkAccount_clears_unless_unreachable plain_host revoked_env
              fresh_world (checkAccount plain_host revoked_env fresh_world).2
              (mkAccount false 3) eq_refl eq_refl)
    as [(e & Hfail & _)|(w1 & _ & Hw & _)].
  - vm_compute in Hfail. discriminate Hfail.
  - rewrite Hw. reflexivity.
Defined.

Lemma poller_expires_witness :
  (_getLoginStatus quiet_env (prompt 60) (js "sid") fresh_world).1 = Ret expired
  ∧ count_kind KLogin
      (history (_getLoginStatus quiet_env (prompt 60) (js "sid") fresh_world).2)
    = 59%nat
  ∧ count_kind KLogin
      (history (_getLoginStatus quiet_env (late 60) (js "sid") fresh_world).2)
    = 60%nat.
Proof.
  destruct (poller_expires_after_59_polls quiet_env 0 (js "sid") fresh_world)
    as (H1 & _ & _ & H2 & _ & _ & H3).
  - intros h. right. split; reflexivity.
  - split; [exact H1 | split; [exact H2 | exact H3]].
Defined.

Lemma pagination_witness :
  ∃ r w1,
    sync_items plain_host three_pages_env (js "tok") [js "t1"; js "t2"]
      (mkCounters 0 0 0)
      (suspended three_pages_env (GetSyncTask (js "tok")) fresh_world)
    = (Ret r, w1).
Proof.
  destruct (pagination_continues_iff_full plain_host three_pages_env 4 (js "tok")
              (mkCounters 0 0 0) fresh_world
              (suspended three_pages_env (GetSyncTask (js "tok")) fresh_world)
              (mkSyncTask true 2 [js "t1"; js "t2"]) eq_refl eq_refl eq_refl)
    as (r & w1 & H & _).
  exists r, w1. exact H.
Defined.


Lemma syncNote_acknowledges_failure_witness :
  (_syncNote plain_host failing_write_env (js "t1") (js "tok") fresh_world).1
  = Throw (mkError (js "Error: write")).
Proof.
  pose proof (syncNote_acknowledges_failure plain_host failing_write_env
                (js "t1") (js "tok") fresh_world
                (_syncNote_try plain_host failing_write_env (js "t1") (js "tok")
                   fresh_world).2
                (mkError (js "Error: write"))) as H.
  cbn zeta in H. rewrite (proj1 (H ltac:(vm_compute; reflexivity))). reflexivity.
Defined.


Lemma unknown_supertype_witness :
  ∃ evs, history (_syncNote plain_host odd_note_env (js "t1") (js "tok")
                    fresh_world).2
         = evs ++ [WriteFile [] (js "link:body");
                   GetSyncContent (js "t1") (js "tok")].
Proof.
  refine (proj2 (unknown_supertype_writes_empty_path plain_host odd_note_env
                   (js "t1") (js "tok") fresh_world eq_refl eq_refl _ _ _));
    vm_compute; discriminate.
Defined.

(** * More of the code *)

(** ** More on titles *)

Section TitleShape.
Import Title.

Lemma trim_start_suffix (s : str) : ∃ pre, s = pre ++ trim_start s.
Proof.
  induction s as [|c s [pre IH]]; [exists []; reflexivity|]. simpl.
  destruct (is_space c); [|exists []; reflexivity].
  exists (c :: pre). simpl. now rewrite <- IH.
Qed.

Lemma trim_start_inked (s : str) : starts_inked (trim_start s).
Proof.
  induction s as [|c s IH]; simpl; [exact I|].
  destruct (is_space c) eqn:E; [exact IH | exact E].
Qed.

Lemma trim_start_id (s : str) : starts_inked s → trim_start s = s.
Proof. destruct s as [|c s]; simpl; [reflexivity|]. now intros ->. Qed.

(** What [trim] keeps is the front of what [trim_start] keeps. *)
Lemma trim_prefix (s : str) : ∃ post, trim_start s = trim s ++ post.
Proof.
  unfold trim. destruct (trim_start_suffix (rev (trim_start s))) as [pre E].
  exists (rev pre). rewrite <- rev_app_distr, <- E. now rewrite rev_involutive.
Qed.

Lemma no_double_space_app_l (a b : str) :
  no_double_space (a ++ b) → no_double_space a.
Proof.
  induction a as [|c a IH]; simpl; [easy|]. intros [H1 H2]. split; [|now apply IH].
  destruct a as [|d a]; [exact I | exact H1].
Qed.

Lemma no_double_space_app_r (a b : str) :
  no_double_space (a ++ b) → no_double_space b.
Proof. induction a as [|c a IH]; simpl; [easy|]. intros [_ H]. now apply IH. Qed.

Lemma starts_inked_app_l (a b : str) : a ≠ [] → starts_inked (a ++ b) → starts_inked a.
Proof. destruct a; [congruence | easy]. Qed.

Lemma collapse_from_shape (s : str) : ∀ b,
  no_double_space (collapse_from b s)
  ∧ (b = true → starts_inked (collapse_from b s))
  ∧ Forall (fun c => is_space c = true → c = 32) (collapse_from b s).
Proof.
  induction s as [|c s IH]; intros b; simpl; [repeat split; constructor|].
  destruct (is_space c) eqn:E.
  - destruct (IH true) as (H1 & H2 & H3). destruct b.
    + repeat split; auto.
    + repeat split; [| |discriminate|constructor; auto].
      * destruct (collapse_from true s) eqn:Ec; [exact I|].
        intros _. now specialize (H2 eq_refl).
      * exact H1.
  - destruct (IH false) as (H1 & _ & H3).
    repeat split; [| exact H1 | intros _; exact E | constructor; [congruence | exact H3]].
    destruct (collapse_from false s); [exact I | congruence].
Qed.

Lemma Forall_app_l {A} (P : A → Prop) (a b : list A) : Forall P (a ++ b) → Forall P a.
Proof. intros H. now apply Forall_app in H as [H _]. Qed.

(** X1: the sanitized title is never empty, does not begin with white
    space, holds no white space other than plain spaces, and never two of
    them in a row. *)
Theorem sanitize_normal_form (title : str) :
  sanitize title ≠ []
  ∧ starts_inked (sanitize title)
  ∧ Forall (fun c => is_space c = true → c = 32) (sanitize title)
  ∧ no_double_space (sanitize title).
Proof.
  unfold sanitize.
  set (u := collapse_spaces (replace_illegal (strip_control title))).
  assert (Hu : no_double_space u
               ∧ Forall (fun c => is_space c = true → c = 32) u).
  { unfold u, collapse_spaces.
    destruct (collapse_from_shape (replace_illegal (strip_control title)) false)
      as (Hd & _ & Hs). now split. }
  destruct Hu as [Hd Hs].
  destruct (trim_start_suffix u) as [pre Epre].
  destruct (trim_prefix u) as [post Epost].
  assert (Ht1 : no_double_space (trim u)).
  { rewrite Epre in Hd. apply no_double_space_app_r in Hd.
    rewrite Epost in Hd. now apply no_double_space_app_l in Hd. }
  assert (Ht2 : Forall (fun c => is_space c = true → c = 32) (trim u)).
  { rewrite Epre in Hs. apply Forall_app in Hs as [_ Hs].
    rewrite Epost in Hs. now apply Forall_app_l in Hs. }
  assert (Ht3 : starts_inked (trim u)).
  { pose proof (trim_start_inked u) as H. rewrite Epost in H.
    destruct (trim u); [exact I | exact H]. }
  set (v := if (MAX_LENGTH <? length (trim u))%nat then take MAX_LENGTH (trim u)
            else trim u).
  assert (Hv : ∃ rest, trim u = v ++ rest).
  { unfold v. destruct (_ <? _)%nat; [|exists []; now rewrite app_nil_r].
    exists (drop MAX_LENGTH (trim u)). now rewrite take_drop. }
  destruct Hv as [rest Ev].
  destruct (length v =? 0)%nat eqn:El.
  - repeat split; try discriminate; repeat constructor; discriminate.
  - apply Nat.eqb_neq in El. rewrite Ev in Ht1, Ht2, Ht3.
    assert (v ≠ []) by (intros ->; now apply El).
    repeat split; [assumption | | now apply Forall_app_l in Ht2
                   | now apply no_double_space_app_l in Ht1].
    now apply starts_inked_app_l in Ht3.
Qed.

Lemma strip_control_id (s : str) :
  Forall (fun c => is_control c = false) s → strip_control s = s.
Proof.
  induction 1 as [|c s Hc _ IH]; [reflexivity|].
  unfold strip_control in *. simpl. rewrite Hc. simpl. now rewrite IH.
Qed.

Lemma replace_illegal_id (s : str) :
  Forall (fun c => is_illegal c = false) s → replace_illegal s = s.
Proof.
  induction 1 as [|c s Hc _ IH]; [reflexivity|].
  unfold replace_illegal in *. simpl. now rewrite Hc, IH.
Qed.

Lemma collapse_from_id (s : str) : ∀ b,
  single_spaced s → (b = true → starts_inked s) → collapse_from b s = s.
Proof.
  induction s as [|c s IH]; intros b Hs Hb; [reflexivity|].
  simpl in *. destruct Hs as [Hc Hs]. destruct (is_space c) eqn:E.
  - destruct (Hc eq_refl) as [-> Hnext].
    destruct b; [specialize (Hb eq_refl); congruence|].
    f_equal. apply IH; [exact Hs|]. intros _. destruct s; [easy | exact Hnext].
  - f_equal. apply IH; [exact Hs | discriminate].
Qed.

Lemma single_spaced_last (s : str) : single_spaced s → starts_inked (rev s).
Proof.
  induction s as [|c s IH]; [easy|]. simpl. intros [Hc Hs].
  destruct s as [|d s].
  - simpl. destruct (is_space c); [|reflexivity]. now destruct (Hc eq_refl).
  - specialize (IH Hs). simpl in *.
    destruct (rev s ++ [d]) eqn:E; [now destruct (rev s)|]. exact IH.
Qed.

(** X2: a title on which nothing is to be done comes back unchanged. *)
Theorem sanitize_tidy (title : str) : tidy title → sanitize title = title.
Proof.
  intros (Hclean & Hsp & Hhead & Hlen). unfold sanitize.
  rewrite strip_control_id
    by (eapply Forall_impl; [exact Hclean | now intros c [H _]]).
  rewrite replace_illegal_id
    by (eapply Forall_impl; [exact Hclean | now intros c [_ H]]).
  unfold collapse_spaces. rewrite collapse_from_id by (auto; discriminate).
  assert (Hin : starts_inked title) by (destruct title; [exact I | exact Hhead]).
  unfold trim. rewrite (trim_start_id title Hin).
  rewrite (trim_start_id (rev title)) by now apply single_spaced_last.
  rewrite rev_involutive.
  replace (MAX_LENGTH <? length title)%nat with false
    by (symmetry; apply Nat.ltb_ge; exact Hlen).
  destruct title; [contradiction | reflexivity].
Qed.

End TitleShape.

(** ** The directory controls *)

Lemma strip_slashes_suffix (s : str) : ∃ pre, s = pre ++ strip_slashes s.
Proof.
  induction s as [|c s [pre IH]]; [exists []; reflexivity|]. simpl.
  destruct (c =? 47); [|exists []; reflexivity].
  exists (c :: pre). simpl. now rewrite <- IH.
Qed.

Lemma strip_slashes_head (s r : str) : strip_slashes s ≠ 47 :: r.
Proof.
  induction s as [|c s IH]; simpl; [discriminate|].
  destruct (c =? 47) eqn:E; [exact IH|].
  intros H. inversion H; subst. discriminate E.
Qed.

Lemma clean_dir_shape (val : str) :
  (∀ r, clean_dir val ≠ 47 :: r)
  ∧ (∀ pre, clean_dir val ≠ pre ++ [47])
  ∧ 92 ∉ clean_dir val.
Proof.
  unfold clean_dir.
  set (slashed := map (fun c => if c =? 92 then 47 else c) (Title.trim val)).
  set (y := strip_slashes slashed).
  destruct (strip_slashes_suffix (rev y)) as [pre Epre].
  assert (Ey : y = rev (strip_slashes (rev y)) ++ rev pre).
  { rewrite <- rev_app_distr, <- Epre. now rewrite rev_involutive. }
  split; [|split].
  - intros r Hr. rewrite Hr in Ey. simpl in Ey.
    now apply (strip_slashes_head slashed (r ++ rev pre)).
  - intros p Hp. apply (f_equal (@rev N)) in Hp.
    rewrite rev_involutive, rev_app_distr in Hp. simpl in Hp.
    now apply strip_slashes_head in Hp.
  - intros Hin.
    assert (H92 : 92 ∈ slashed).
    { destruct (strip_slashes_suffix slashed) as [p Ep]. rewrite Ep.
      apply elem_of_app. right. fold y. rewrite Ey. apply elem_of_app. now left. }
    unfold slashed in H92. apply list_elem_of_fmap in H92 as (c & Hc & _).
    destruct (c =? 92) eqn:E; [discriminate|]. apply N.eqb_neq in E. congruence.
Qed.

(** X3: whatever is typed, the directory that a control of the settings tab
    stores is not empty, holds no backslash, and neither begins nor ends
    with a slash. *)
Theorem stored_dir_shape (default_dir val : str) :
  default_dir ∈ [rootDir DEFAULT_SETTINGS; richTextDir DEFAULT_SETTINGS;
                 linkDir DEFAULT_SETTINGS] →
  let dir := stored_dir default_dir val in
  dir ≠ []
  ∧ (∀ r, dir ≠ 47 :: r)
  ∧ (∀ pre, dir ≠ pre ++ [47])
  ∧ 92 ∉ dir.
Proof.
  intros Hd dir. unfold dir, stored_dir, dir_or.
  destruct (clean_dir_shape val) as (H1 & H2 & H3).
  destruct (clean_dir val) as [|c r] eqn:E.
  - assert (Hcases : default_dir = rootDir DEFAULT_SETTINGS
                     ∨ default_dir = richTextDir DEFAULT_SETTINGS
                     ∨ default_dir = linkDir DEFAULT_SETTINGS).
    { repeat (apply elem_of_cons in Hd as [Hd|Hd]; [auto|]).
      now apply elem_of_nil in Hd. }
    destruct Hcases as [ -> | [ -> | -> ] ]; simpl; repeat split; try discriminate.
    all: try (intros pre; destruct pre as [ | ? [ | ? [ | ? ? ] ] ]; simpl;
              discriminate).
    all: intros Hin; repeat (apply elem_of_cons in Hin as [Hin|Hin]; [discriminate|]);
      now apply elem_of_nil in Hin.
  - repeat split; [discriminate | exact H1 | exact H2 | exact H3].
Qed.

(** ** The property object *)

Lemma set_property_own_skip (l : list (str * PropValue)) (k : str) :
  ∀ obj : JsObject,
    k ∉ l.*1 →
    own (foldl (fun obj kv => set_property obj kv.1 kv.2) obj l) !! k
    = own obj !! k.
Proof.
  induction l as [|[k' v'] l IH]; intros obj Hk; [reflexivity|].
  simpl in *. apply not_elem_of_cons in Hk as [Hne Hk].
  rewrite IH by exact Hk. unfold set_property.
  destruct (bool_decide (k' = js "__proto__")); [now destruct v'|].
  simpl. now apply lookup_insert_ne.
Qed.

Lemma set_property_no_own_proto (l : list (str * PropValue)) :
  ∀ obj : JsObject,
    own obj !! js "__proto__" = None →
    own (foldl (fun obj kv => set_property obj kv.1 kv.2) obj l) !! js "__proto__"
    = None.
Proof.
  induction l as [|[k' v'] l IH]; intros obj Hobj; [exact Hobj|].
  simpl. apply IH. unfold set_property.
  destruct (bool_decide (k' = js "__proto__")) eqn:Ek; [now destruct v'|].
  apply bool_decide_eq_false in Ek. simpl. now rewrite lookup_insert_ne.
Qed.

Lemma set_property_prototype_skip (l : list (str * PropValue)) :
  ∀ obj : JsObject,
    (∀ vs, (js "__proto__", PList vs) ∉ l) →
    prototype (foldl (fun obj kv => set_property obj kv.1 kv.2) obj l)
    = prototype obj.
Proof.
  induction l as [|[k' v'] l IH]; intros obj Hl; [reflexivity|].
  simpl. rewrite IH by (intros vs Hin; apply (Hl vs); now right).
  unfold set_property.
  destruct (bool_decide (k' = js "__proto__")) eqn:Ek; [|reflexivity].
  apply bool_decide_eq_true in Ek. subst k'.
  destruct v' as [t|vs]; [reflexivity|]. exfalso. apply (Hl vs). now left.
Qed.

(** X4: the property object.  A key other than [__proto__] holds, as an own
    property, the value of its last occurrence in the list, and a key that
    does not occur in the list is not an own property.  The key [__proto__]
    never becomes an own property: the last array assigned to it, if there
    is one, is the prototype of the object instead, and a string assigned
    to it is ignored. *)
Theorem propertiesObj_last_wins (l1 l2 : list (str * PropValue)) (k : str)
    (v : PropValue) :
  (k ≠ js "__proto__" → k ∉ l2.*1 →
   own (propertiesObj (l1 ++ (k, v) :: l2)) !! k = Some v)
  ∧ (k ∉ l1.*1 → own (propertiesObj l1) !! k = None)
  ∧ own (propertiesObj l1) !! js "__proto__" = None
  ∧ (∀ vs, (∀ vs', (js "__proto__", PList vs') ∉ l2) →
       prototype (propertiesObj (l1 ++ (js "__proto__", PList vs) :: l2)) = Some vs)
  ∧ ((∀ vs, (js "__proto__", PList vs) ∉ l1) → prototype (propertiesObj l1) = None).
Proof.
  unfold propertiesObj. split; [|split; [|split; [|split]]].
  - intros Hne Hk. rewrite foldl_app. simpl.
    rewrite set_property_own_skip by exact Hk. unfold set_property.
    rewrite bool_decide_eq_false_2 by exact Hne. simpl. apply lookup_insert_eq.
  - intros Hk. rewrite set_property_own_skip by exact Hk. apply lookup_empty.
  - apply set_property_no_own_proto. apply lookup_empty.
  - intros vs Hl. rewrite foldl_app. simpl.
    rewrite set_property_prototype_skip by exact Hl. unfold set_property.
    now rewrite bool_decide_eq_true_2.
  - intros Hl. now rewrite set_property_prototype_skip.
Qed.

(** ** More on the path resolver *)

Section ResolverTrace.
Context (env : Env).

Lemma getFileName_loop_trace (name : str) (fuel : nat) : ∀ (i : nat) (w : World),
  (∀ j, (j < i)%nat → candidate name j ∈ store w) →
  (size (store w) < i + fuel)%nat →
  ∃ N w', getFileName_loop env fuel name i (candidate name i) w
          = (Ret (candidate name N), w')
          ∧ (i ≤ N)%nat
          ∧ (∀ j, (j < N)%nat → candidate name j ∈ store w)
          ∧ (candidate name N ∉ store w)
          ∧ store w' = store w
          ∧ history w'
            = rev (map (fun j => Exists (candidate name j)) (seq i (S N - i)))
              ++ history w.
Proof.
  induction fuel as [|fuel IH]; intros i w Hlow Hfuel.
  - apply candidates_bounded in Hlow. lia.
  - simpl. unfold bind. rewrite adapter_exists_eq.
    destruct (bool_decide (candidate name i ∈ store w)) eqn:E.
    + apply bool_decide_eq_true in E.
      destruct (IH (S i) (suspended env (Exists (candidate name i)) w))
        as (N & w' & Hrun & Hle & Hall & Hfree & Hst & Hh).
      * intros j Hj. simpl. destruct (decide (j = i)) as [->|]; [exact E|].
        apply Hlow. lia.
      * simpl. lia.
      * exists N, w'. simpl in *. repeat split; auto; [lia|].
        rewrite Hh. replace (S N - i)%nat with (S (N - i)) by lia.
        simpl. now rewrite <- app_assoc.
    + apply bool_decide_eq_false in E.
      exists i, (suspended env (Exists (candidate name i)) w).
      repeat split; auto. replace (S i - i)%nat with 1%nat by lia. reflexivity.
Qed.

Lemma getFileName_trace (name : str) (w : World) :
  ∃ N w', _getFileName env name w = (Ret (candidate name N), w')
          ∧ (∀ j, (j < N)%nat → candidate name j ∈ store w)
          ∧ (candidate name N ∉ store w)
          ∧ store w' = store w
          ∧ history w' = probes name N ++ history w.
Proof.
  destruct (getFileName_loop_trace name (S (size (store w))) 0 w)
    as (N & w' & Hrun & _ & Hall & Hfree & Hst & Hh); [lia | lia |].
  exists N, w'. unfold _getFileName.
  change (name ++ js ".md") with (candidate name 0). rewrite Hrun.
  repeat split; auto; rewrite Hh; unfold probes; now rewrite Nat.sub_0_r.
Qed.

(** X5: the resolver only reads.  It returns the first name of its sequence
    that the store does not hold, after probing that name and every name
    before it once each, in order, and it leaves the store as it was. *)
Theorem getFileName_probes_in_order (name : str) (w : World) :
  ∃ N w', _getFileName env name w = (Ret (candidate name N), w')
          ∧ (∀ j, (j < N)%nat → candidate name j ∈ store w)
          ∧ (candidate name N ∉ store w)
          ∧ store w' = store w
          ∧ history w' = probes name N ++ history w.
Proof. apply getFileName_trace. Qed.

End ResolverTrace.

(** ** More on the account validator *)

Section AccountMore.
Context (host : Host) (env : Env).

(** X6: the verdict on a token.  It is found without any call.  A missing
    or empty token, a token on which [jwtDecode] throws and a token whose
    payload is null are ill-formed, and never unexpired.  Any other token
    is well-formed; it is unexpired exactly when the clock is before
    [exp * 1000], and always when [exp * 1000] is NaN. *)
Theorem checkToken_verdict (tok : option str) (w : World) :
  ∃ format unExpired,
    _checkToken host env tok w = (Ret (format, unExpired), w)
    ∧ (unExpired = true → format = true)
    ∧ (format = true ↔
       truthy tok = true
       ∧ ∃ exp, jwtDecode host (default [] tok) = DecodedExp exp)
    ∧ (∀ exp, truthy tok = true →
         jwtDecode host (default [] tok) = DecodedExp (Some exp) →
         (unExpired = true ↔ (env_now env (history w) < exp * 1000)%Z))
    ∧ (truthy tok = true →
       jwtDecode host (default [] tok) = DecodedExp None → unExpired = true).
Proof.
  unfold _checkToken. destruct (truthy tok) eqn:Et.
  - destruct (jwtDecode host (default [] tok)) as [| |[exp|]] eqn:Ed.
    + exists false, false. split; [reflexivity|].
      repeat split; intros; try discriminate.
      destruct H as (_ & exp & H). discriminate H.
    + exists false, false. split; [reflexivity|].
      repeat split; intros; try discriminate.
      destruct H as (_ & exp & H). discriminate H.
    + unfold bind, now. simpl.
      destruct (exp * 1000 <=? env_now env (history w))%Z eqn:El;
        [apply Z.leb_le in El; exists true, false
        |apply Z.leb_gt in El; exists true, true].
      all: split; [reflexivity|].
      all: repeat split; intros; simplify_eq; try reflexivity; try lia; eauto.
    + exists true, true. split; [reflexivity|].
      repeat split; intros; simplify_eq; try reflexivity; eauto.
  - exists false, false. split; [reflexivity|].
    repeat split; intros; try discriminate.
    destruct H as (H & _). discriminate H.
Qed.

End AccountMore.

Section AccountVerdicts.
Context (host : Host) (env : Env).

(** X7: a valid verdict is only given when the token is well-formed and
    unexpired, a session id is stored, and the remote confirmed the
    integration; the integration check is then the only call made, nothing
    is cleared or saved, and the count of failed tasks is the remote's. *)
Theorem checkAccount_valid_verdict (w w' : World) (r : AccountResult) :
  checkAccount host env w = (Ret r, w') →
  valid r = true →
  let call := GetIntegration (default [] (sessionId (settings w)))
                             (default [] (token (settings w))) in
  _checkToken host env (token (settings w)) w = (Ret (true, true), w)
  ∧ truthy (token (settings w)) = true
  ∧ truthy (sessionId (settings w)) = true
  ∧ env_fail env (call :: history w) = None
  ∧ int_valid (env_integration env (call :: history w)) = true
  ∧ failedTaskCount r = int_failedTaskCount (env_integration env (call :: history w))
  ∧ w' = suspended env call w.
Proof.
  intros Hrun Hvalid call. revert Hrun.
  unfold checkAccount. unfold bind at 1, get_settings. unfold bind at 1.
  destruct (checkToken_silent host env (token (settings w)) w)
    as ([format unExpired] & Etok). rewrite Etok.
  unfold bind at 1.
  destruct (format && unExpired && truthy (token (settings w))
            && truthy (sessionId (settings w))) eqn:Echeck.
  - apply andb_prop in Echeck as [Echeck Hsid].
    apply andb_prop in Echeck as [Echeck Htok].
    apply andb_prop in Echeck as [-> ->].
    unfold try_catch, bind at 1, getIntegration, bind at 1.
    rewrite await_eq. fold call.
    destruct (env_fail env (call :: history w)) as [e|] eqn:Efail.
    + unfold ret. intros H. inversion H; subst. discriminate Hvalid.
    + unfold ret. cbn [fst snd negb orb andb suspended history].
      destruct (int_valid (env_integration env (call :: history w))) eqn:Ev.
      * unfold bind. simpl. intros H. inversion H; subst. repeat split; auto.
      * cbn [negb]. unfold bind at 1, bind at 1, modify_settings.
        unfold saveSettings, bind at 1, get_settings. cbn [settings].
        rewrite await_eq. simpl.
        match goal with
        | |- context [env_fail env (SaveData ?s :: ?h)] =>
            destruct (env_fail env (SaveData s :: h)); [discriminate|]
        end.
        intros H. inversion H; subst. discriminate Hvalid.
  - unfold ret at 1.
    destruct (negb (format && unExpired) || negb false) eqn:En.
    + unfold bind at 1, bind at 1, modify_settings.
      unfold saveSettings, bind at 1, get_settings. cbn [settings].
      rewrite await_eq. simpl.
      destruct (env_fail env _); [discriminate|].
      intros H. inversion H; subst. simpl in Hvalid.
      rewrite andb_false_r in Hvalid. discriminate Hvalid.
    + rewrite orb_true_r in En. discriminate.
Qed.

(** X8: a token that is missing, ill-formed or expired, or a missing session
    id, is settled locally: the remote is not asked, the account is cleared
    and the cleared settings are saved, and the verdict (when the save
    succeeds) is invalid with no failed task. *)
Theorem checkAccount_settled_locally (w : World) (format unExpired : bool) :
  _checkToken host env (token (settings w)) w = (Ret (format, unExpired), w) →
  format && unExpired = false ∨ truthy (sessionId (settings w)) = false →
  let cleared := clear_account (settings w) in
  let run := checkAccount host env w in
  run.2 = suspended env (SaveData cleared)
            {| settings := cleared; store := store w; history := history w |}
  ∧ count_kind KIntegration (history run.2) = count_kind KIntegration (history w)
  ∧ run.1 = match env_fail env (SaveData cleared :: history w) with
            | Some e => Throw e
            | None => Ret (mkAccount false 0)
            end.
Proof.
  intros Etok Hbad cleared run.
  assert (Hrun : run
                 = (match env_fail env (SaveData cleared :: history w) with
                    | Some e => Throw e
                    | None => Ret (mkAccount false 0)
                    end,
                    suspended env (SaveData cleared)
                      {| settings := cleared; store := store w;
                         history := history w |})).
  { unfold run, checkAccount.
    unfold bind at 1, get_settings. unfold bind at 1. rewrite Etok.
    unfold bind at 1.
    replace (format && unExpired && truthy (token (settings w))
             && truthy (sessionId (settings w))) with false.
    2: { destruct Hbad as [-> | ->]; [reflexivity|]. now rewrite andb_false_r. }
    unfold ret at 1. rewrite orb_true_r.
    unfold bind at 1, bind at 1, modify_settings.
    unfold saveSettings, bind at 1, get_settings. cbn [settings].
    rewrite await_eq. cbn [history]. fold cleared.
    destruct (env_fail env (SaveData cleared :: history w)); simpl;
      [reflexivity|]. now rewrite andb_false_r. }
  rewrite Hrun. cbn [fst snd suspended history].
  split; [reflexivity|]. split; [|reflexivity].
  apply count_kind_cons_ne. discriminate.
Qed.

End AccountVerdicts.

(** ** The folders *)

Section Folders.
Context (host : Host) (env : Env).

Lemma createFolder_caught (dir : str) (w : World) :
  ∃ w', try_catch (createFolder env dir) (fun _ => ret tt) w = (Ret tt, w')
        ∧ history w' = CreateFolder dir :: history w
        ∧ store w ⊆ store w'
        ∧ store w' ⊆ list_to_set (parents dir) ∪ {[dir]} ∪ store w
        ∧ (env_fail env (CreateFolder dir :: history w) = None →
           dir ∈ store w'
           ∧ (dir ∉ store w → list_to_set (parents dir) ⊆ store w')).
Proof.
  unfold try_catch, createFolder, bind, suspend. simpl.
  destruct (bool_decide (dir ∈ store w)) eqn:Ein.
  - apply bool_decide_eq_true in Ein. eexists. split; [reflexivity|].
    simpl. split; [reflexivity|]. split; [reflexivity|].
    split; [apply union_subseteq_r|]. intros _. split; [exact Ein|].
    intros Hout. now destruct Hout.
  - destruct (env_fail env _); simpl.
    + eexists. split; [reflexivity|]. simpl.
      split; [reflexivity|]. split; [reflexivity|].
      split; [apply union_subseteq_r | discriminate].
    + eexists. split; [reflexivity|]. simpl.
      split; [reflexivity|]. split; [apply union_subseteq_r|].
      rewrite list_to_set_app_L, list_to_set_singleton.
      split; [reflexivity|]. intros _. split.
      * apply elem_of_union_l, elem_of_union_r. now apply elem_of_singleton.
      * intros _. apply union_subseteq_l', union_subseteq_l.
Qed.

(** X9: [_initDir] never fails, whatever becomes of the three folder
    creations: it asks for the root, the link and the rich-text folder, in
    this order, with the names read from the settings at its start.  It
    removes nothing from the store and adds no path but these three and the
    folders above them.  When no creation is refused but for a folder that
    exists, the three folders exist afterwards, and so do the folders above
    the root if the root was missing. *)
Theorem initDir_never_fails (w : World) :
  let root := normalizePath host (rootDir (settings w)) in
  let link := normalizePath host (root ++ js "/" ++ linkDir (settings w)) in
  let rich := normalizePath host (root ++ js "/" ++ richTextDir (settings w)) in
  ∃ w', _initDir host env w = (Ret tt, w')
        ∧ history w'
          = CreateFolder rich :: CreateFolder link :: CreateFolder root :: history w
        ∧ store w ⊆ store w'
        ∧ store w'
          ⊆ list_to_set (parents root ++ parents link ++ parents rich)
            ∪ {[root; link; rich]} ∪ store w
        ∧ ((∀ h, env_fail env h = None) →
           {[root; link; rich]} ⊆ store w'
           ∧ (root ∉ store w → list_to_set (parents root) ⊆ store w')).
Proof.
  intros root link rich. unfold _initDir, bind at 1, get_settings.
  fold root link rich. cbn [for_each]. unfold bind.
  destruct (createFolder_caught root w) as (w1 & -> & Hh1 & Hs1 & Hu1 & Hc1).
  destruct (createFolder_caught link w1) as (w2 & -> & Hh2 & Hs2 & Hu2 & Hc2).
  destruct (createFolder_caught rich w2) as (w3 & -> & Hh3 & Hs3 & Hu3 & Hc3).
  exists w3. split; [reflexivity|]. split; [now rewrite Hh3, Hh2, Hh1|].
  split; [by do 2 (etrans; [eassumption|])|].
  split.
  { intros p Hp. rewrite !list_to_set_app_L.
    apply Hu3 in Hp. rewrite !elem_of_union in Hp. rewrite !elem_of_union.
    destruct Hp as [[Hp|Hp]|Hp]; [tauto | tauto |].
    apply Hu2 in Hp. rewrite !elem_of_union in Hp.
    destruct Hp as [[Hp|Hp]|Hp]; [tauto | tauto |].
    apply Hu1 in Hp. rewrite !elem_of_union in Hp. tauto. }
  intros Hok. specialize (Hc1 (Hok _)). specialize (Hc2 (Hok _)).
  specialize (Hc3 (Hok _)). split.
  - intros p Hp. rewrite !elem_of_union, !elem_of_singleton in Hp.
    destruct Hp as [[->| ->]| ->];
      [apply Hs3, Hs2, (proj1 Hc1) | apply Hs3, (proj1 Hc2) | apply (proj1 Hc3)].
  - intros Hout. etrans; [now apply (proj2 Hc1)|]. etrans; eassumption.
Qed.

End Folders.

(** ** More on the materializer *)

Section Destinations.
Context (host : Host) (env : Env).

Lemma probes_vault_only (name : str) (n : nat) : vault_only (probes name n).
Proof.
  unfold vault_only, probes. apply Forall_rev, Forall_forall. intros ev Hin.
  apply list_elem_of_fmap in Hin as (j & -> & _). reflexivity.
Qed.

Lemma folder_then_name (dir name : str) (w : World) :
  ∃ N w', (try_catch (createFolder env dir) (fun _ => ret tt)
           >> _getFileName env name) w
          = (Ret (candidate name N), w')
          ∧ (∀ j, (j < N)%nat → candidate name j ∈ store w')
          ∧ (candidate name N ∉ store w')
          ∧ history w' = probes name N ++ CreateFolder dir :: history w
          ∧ store w ⊆ store w'
          ∧ store w' ⊆ list_to_set (parents dir) ∪ {[dir]} ∪ store w.
Proof.
  unfold bind.
  destruct (createFolder_caught env dir w) as (w1 & -> & Hh & Hs & Hu & _).
  destruct (getFileName_trace env name w1)
    as (N & w' & -> & Htaken & Hfree & Hst & Hh').
  exists N, w'. rewrite Hst, Hh', Hh. repeat split; auto.
Qed.

(** X10: a link note is written directly under the link directory, to the
    first free file named after its title: every earlier name of the
    sequence exists when the path is chosen, and the chosen one does not.
    The link directory is the only folder asked for (none is made for the
    title); the calls are this creation and then the probes of the names
    up to the chosen one; and the store gains nothing but that folder and
    the folders above it. *)
Theorem destination_of_link (s : NewledgeSettings) (note : NoteContent)
    (w : World) :
  nc_superType note = SUPER_LINK →
  let root := normalizePath host (rootDir s) in
  let links := normalizePath host (linkDir s) in
  let title := _normalizeTitle (normalizePath host) (nc_title note) in
  let base := root ++ js "/" ++ links ++ js "/" ++ title in
  let folder := normalizePath host (root ++ js "/" ++ links) in
  ∃ N w', destination host env s note w = (Ret (candidate base N), w')
          ∧ (∀ j, (j < N)%nat → candidate base j ∈ store w')
          ∧ (candidate base N ∉ store w')
          ∧ history w' = probes base N ++ CreateFolder folder :: history w
          ∧ store w ⊆ store w'
          ∧ store w' ⊆ list_to_set (parents folder) ∪ {[folder]} ∪ store w.
Proof.
  intros Hl root links title base folder. unfold destination, eqs.
  rewrite bool_decide_eq_true_2 by exact Hl.
  destruct (folder_then_name folder base w)
    as (N & w' & E & Htaken & Hfree & Hh & Hs & Hu).
  exists N, w'. repeat split; assumption.
Qed.

(** X11: a rich-text note that is a highlight or an annotation of a link goes
    to the folder named after that link, which is asked for, and the store
    gains nothing but that folder and the folders above it; every other
    rich-text note goes to the rich-text directory, no folder is asked for
    and the store is left as it was.  Either way the file is the first
    free one named after the title of the note: every earlier name of the
    sequence exists when the path is chosen, the chosen one does not, and
    the names up to the chosen one are probed in order. *)
Theorem destination_of_rich_text (s : NewledgeSettings) (note : NoteContent)
    (w : World) :
  nc_superType note = SUPER_RICH_TEXT →
  let root := normalizePath host (rootDir s) in
  let links := normalizePath host (linkDir s) in
  let notes := normalizePath host (richTextDir s) in
  let title := _normalizeTitle (normalizePath host) (nc_title note) in
  let related :=
    _normalizeTitle (normalizePath host) (default [] (nc_relatedContentTitle note)) in
  let folder :=
    normalizePath host (root ++ js "/" ++ links ++ js "/" ++ related) in
  (anchored note = true →
   ∃ N w', destination host env s note w
           = (Ret (candidate (folder ++ js "/" ++ title) N), w')
           ∧ (∀ j, (j < N)%nat →
                candidate (folder ++ js "/" ++ title) j ∈ store w')
           ∧ (candidate (folder ++ js "/" ++ title) N ∉ store w')
           ∧ history w'
             = probes (folder ++ js "/" ++ title) N
               ++ CreateFolder folder :: history w
           ∧ store w ⊆ store w'
           ∧ store w' ⊆ list_to_set (parents folder) ∪ {[folder]} ∪ store w)
  ∧ (anchored note = false →
     let base := root ++ js "/" ++ notes ++ js "/" ++ title in
     ∃ N w', destination host env s note w = (Ret (candidate base N), w')
             ∧ (∀ j, (j < N)%nat → candidate base j ∈ store w')
             ∧ (candidate base N ∉ store w')
             ∧ history w' = probes base N ++ history w
             ∧ store w' = store w).
Proof.
  intros Hr root links notes title related folder.
  assert (Hnl : bool_decide (nc_superType note = SUPER_LINK) = false).
  { apply bool_decide_eq_false_2. rewrite Hr. discriminate. }
  unfold destination, eqs. rewrite Hnl.
  rewrite (bool_decide_eq_true_2 _ Hr). fold (eqs (nc_noteType note) HIGHLIGHT).
  fold (eqs (nc_noteType note) ANNOTATION). fold (anchored note).
  split; intros Ha; rewrite Ha.
  - destruct (folder_then_name folder (folder ++ js "/" ++ title) w)
      as (N & w' & E & Htaken & Hfree & Hh & Hs & Hu).
    exists N, w'. repeat split; assumption.
  - cbv zeta.
    match goal with
    | |- context [_getFileName env ?b w] =>
        destruct (getFileName_trace env b w)
          as (N & w' & E & Htaken & Hfree & Hst & Hh)
    end.
    exists N, w'. rewrite Hst. repeat split; assumption.
Qed.

(** The destination is always found, with probes of the vault only. *)
Lemma destination_returns (s : NewledgeSettings) (note : NoteContent) (w : World) :
  ∃ p w' evs, destination host env s note w = (Ret p, w')
              ∧ history w' = evs ++ history w
              ∧ vault_only evs.
Proof.
  unfold destination.
  destruct (eqs (nc_superType note) SUPER_LINK).
  { match goal with
    | |- context [(try_catch (createFolder env ?d) _ >> _getFileName env ?b) w] =>
        destruct (folder_then_name d b w) as (N & w' & E & _ & _ & Hh & _);
        exists (candidate b N), w', (probes b N ++ [CreateFolder d])
    end.
    split; [exact E|]. split; [rewrite Hh, <- app_assoc; reflexivity|].
    apply Forall_app. split; [apply probes_vault_only | repeat constructor]. }
  destruct (eqs (nc_superType note) SUPER_RICH_TEXT);
    [|exists [], w, []; repeat split; constructor].
  destruct (_ && _ && _).
  - match goal with
    | |- context [(try_catch (createFolder env ?d) _ >> _getFileName env ?b) w] =>
        destruct (folder_then_name d b w) as (N & w' & E & _ & _ & Hh & _);
        exists (candidate b N), w', (probes b N ++ [CreateFolder d])
    end.
    split; [exact E|]. split; [rewrite Hh, <- app_assoc; reflexivity|].
    apply Forall_app. split; [apply probes_vault_only | repeat constructor].
  - match goal with
    | |- context [_getFileName env ?b w] =>
        destruct (getFileName_trace env b w) as (N & w' & E & _ & _ & _ & Hh)
    end.
    eexists _, w', _. split; [exact E|]. split; [exact Hh|].
    apply probes_vault_only.
Qed.

End Destinations.

Section MaterializerCases.
Context (host : Host) (env : Env).

(** The ways a materialization can go. *)
Lemma syncNote_cases (id tok : str) (w : World) :
  let w1 := suspended env (GetSyncContent id tok) w in
  let note := env_syncContent env (history w1) in
  (enable (settings w) = false
   ∧ _syncNote host env id tok w = (Ret (mkResult false false false), w))
  ∨ (enable (settings w) = true
     ∧ ∃ e, env_fail env (history w1) = Some e
            ∧ _syncNote host env id tok w
              = (Throw e, suspended env (SyncFailed id tok (description e)) w1))
  ∨ (enable (settings w) = true ∧ env_fail env (history w1) = None
     ∧ nc_id note = None
     ∧ _syncNote host env id tok w = (Ret (mkResult true false false), w1))
  ∨ (enable (settings w) = true ∧ env_fail env (history w1) = None
     ∧ nc_id note ≠ None
     ∧ ∃ p wd evs,
         destination host env (settings w) note w1 = (Ret p, wd)
         ∧ history wd = evs ++ history w1 ∧ vault_only evs
         ∧ let ww := suspended env (WriteFile p (noteText host note)) wd in
           (∃ e, env_fail env (history ww) = Some e
                 ∧ _syncNote host env id tok w
                   = (Throw e, suspended env (SyncFailed id tok (description e)) ww))
           ∨ (env_fail env (history ww) = None
              ∧ _syncNote host env id tok w
                = (Ret (mkResult true true true),
                   suspended env (SyncSuccess id tok)
                     {| settings := settings ww; store := {[p]} ∪ store ww;
                        history := history ww |}))).
Proof.
  intros w1 note.
  remember (_syncNote host env id tok w) as run eqn:Erun.
  unfold _syncNote, try_catch, _syncNote_try in Erun.
  unfold bind at 1, get_settings in Erun.
  destruct (enable (settings w)) eqn:He; cbn [negb] in Erun;
    [|left; split; [reflexivity | exact Erun]].
  right. unfold bind at 1 in Erun. rewrite getSyncContent_eq in Erun.
  change (GetSyncContent id tok :: history w) with (history w1) in Erun.
  fold w1 in Erun.
  destruct (env_fail env (history w1)) as [e|] eqn:Efetch.
  { left. split; [reflexivity|]. exists e. split; [reflexivity|].
    rewrite Erun. unfold bind, ackFailed. rewrite await_eq. case_fail; reflexivity. }
  right. fold note in Erun. destruct (nc_id note) as [nid|] eqn:Eid.
  2: { left. repeat split; try reflexivity. exact Erun. }
  right. split; [reflexivity|]. split; [reflexivity|]. split; [discriminate|].
  destruct (destination_returns host env (settings w) note w1)
    as (p & wd & evs & Ed & Hh & Hv).
  exists p, wd, evs. split; [exact Ed|]. split; [exact Hh|]. split; [exact Hv|].
  intros ww. unfold bind at 1 in Erun. rewrite Ed in Erun.
  unfold bind at 1, adapter_write, bind at 1 in Erun. rewrite await_eq in Erun.
  fold ww in Erun.
  change (WriteFile p (noteText host note) :: history wd) with (history ww) in Erun.
  destruct (env_fail env (history ww)) as [e|] eqn:Ewrite.
  - left. exists e. split; [reflexivity|]. rewrite Erun.
    unfold bind, ackFailed. rewrite await_eq. case_fail; reflexivity.
  - right. split; [reflexivity|]. rewrite Erun.
    unfold add_path, bind, ackSuccess, try_catch. cbn [fst snd].
    rewrite await_eq. case_fail; reflexivity.
Qed.

(** X12: a materialization that reports the task gone did nothing but fetch
    it, and one that reports the plugin disabled did nothing at all: neither
    writes a file nor sends an acknowledgment, and neither reports success. *)
Theorem syncNote_gone_or_disabled (id tok : str) (w w' : World)
    (r : SyncNoteResult) :
  _syncNote host env id tok w = (Ret r, w') →
  taskExist r = false →
  syncSuccess r = false
  ∧ (pluginEnable r = false → enable (settings w) = false ∧ w' = w)
  ∧ (pluginEnable r = true →
     enable (settings w) = true
     ∧ w' = suspended env (GetSyncContent id tok) w
     ∧ nc_id (env_syncContent env (history w')) = None).
Proof.
  intros Hrun Hgone.
  destruct (syncNote_cases id tok w)
    as [[He E]|[(He & e & _ & E)|[(He & Hok & Hid & E)|(He & Hok & Hid & p & wd & evs & _ & _ & _ & [(e & _ & E)|[_ E]])]]];
    rewrite E in Hrun; inversion Hrun; subst; simpl in *; try discriminate.
  - repeat split; auto; discriminate.
  - repeat split; auto; discriminate.
Qed.


End MaterializerCases.

(** ** Accounting *)

Lemma vault_only_count (k : EventKind) (evs : list Event) :
  k ≠ KVault → vault_only evs → count_kind k evs = 0%nat.
Proof.
  intros Hk Hv.
  apply (count_kind_excluded (fun k => bool_decide (k = KVault)));
    [now apply bool_decide_eq_false_2|].
  eapply Forall_impl; [exact Hv|]. intros ev ->. reflexivity.
Qed.

Ltac count_events :=
  repeat match goal with
  | |- context [count_kind ?k (?ev :: ?h)] =>
      first [ rewrite (count_kind_cons_ne k ev h) by discriminate
            | rewrite (count_kind_cons_eq k ev h) by reflexivity ]
  end.

Section Accounting.
Context (host : Host) (env : Env).

(** What one materialization adds to the history, by outcome. *)
Lemma syncNote_counts (id tok : str) (w : World) :
  let run := _syncNote host env id tok w in
  count_kind KSleep (history run.2) = count_kind KSleep (history w)
  ∧ ((∃ res, run.1 = Ret res ∧ syncSuccess res = true
             ∧ pluginEnable res = true ∧ taskExist res = true
             ∧ count_kind KAckSuccess (history run.2)
               = S (count_kind KAckSuccess (history w))
             ∧ count_kind KAckFailed (history run.2)
               = count_kind KAckFailed (history w))
     ∨ (∃ res, run.1 = Ret res ∧ syncSuccess res = false
               ∧ (pluginEnable res = false ∨ taskExist res = false)
               ∧ count_kind KAckSuccess (history run.2)
                 = count_kind KAckSuccess (history w)
               ∧ count_kind KAckFailed (history run.2)
                 = count_kind KAckFailed (history w))
     ∨ (∃ e, run.1 = Throw e
             ∧ count_kind KAckSuccess (history run.2)
               = count_kind KAckSuccess (history w)
             ∧ count_kind KAckFailed (history run.2)
               = S (count_kind KAckFailed (history w)))).
Proof.
  intros run. unfold run.
  pose proof (syncNote_cases host env id tok w) as H. cbv zeta in H.
  destruct H as [[_ E]|[Hb|[Hc|Hd]]].
  - rewrite E. split; [reflexivity|]. right. left. eexists. simpl.
    repeat split; auto.
  - destruct Hb as (_ & e & _ & E). rewrite E. cbn [fst snd suspended history].
    count_events.
    split; [reflexivity|]. right. right. exists e. repeat split.
  - destruct Hc as (_ & _ & _ & E). rewrite E. cbn [fst snd suspended history].
    count_events.
    split; [reflexivity|]. right. left. eexists. simpl. repeat split; auto.
  - destruct Hd as (_ & _ & _ & p & wd & evs & _ & Hh & Hv & Hend).
    cbv zeta in Hend.
    assert (Hcount : ∀ k, k ≠ KVault → k ≠ KContent →
              count_kind k (history wd) = count_kind k (history w)).
    { intros k Hk1 Hk2. rewrite Hh, count_kind_app, vault_only_count by assumption.
      cbn [suspended history]. now rewrite count_kind_cons_ne. }
    destruct Hend as [(e & _ & E)|[_ E]]; rewrite E; cbn [fst snd suspended history];
      count_events; rewrite !Hcount by discriminate.
    + split; [reflexivity|]. right. right. exists e. repeat split.
    + split; [reflexivity|]. left. eexists. simpl. repeat split.
Qed.

Lemma sync_item_books (tok item : str) (c c1 : Counters) (k : Completion)
    (w w1 : World) :
  sync_item host env tok item c w = (Ret (c1, k), w1) →
  balanced c c1 w w1
  ∧ count c1 = S (count c)
  ∧ match k with
    | Normal => settled c1 = S (settled c)
    | Break => settled c1 = settled c
    end.
Proof.
  pose proof (syncNote_counts item tok w) as H. cbv zeta in H.
  unfold sync_item, finally, try_catch, bind, sleep, suspend.
  destruct (_syncNote host env item tok w) as [r w'].
  cbn [fst snd] in H. destruct H as (Hs & H).
  unfold balanced, settled.
  destruct H as [(res & -> & Hok & Hen & Hex & Ha & Hf)
                |[(res & -> & Hok & Hor & Ha & Hf)|(e & -> & Ha & Hf)]].
  - rewrite Hen, Hex, Hok. cbn [negb]. intros E. inversion E; subst.
    cbn [suspended history count successCount failedCount]. count_events. lia.
  - assert (Hbr : (if negb (pluginEnable res)
                   then ret (mkCounters (S (count c)) (successCount c) (failedCount c), Break)
                   else if negb (taskExist res)
                        then ret (mkCounters (S (count c)) (successCount c) (failedCount c), Break)
                        else if syncSuccess res
                             then ret (mkCounters (S (count c)) (S (successCount c)) (failedCount c), Normal)
                             else ret (mkCounters (S (count c)) (successCount c) (failedCount c), Break)) w'
                  = (Ret (mkCounters (S (count c)) (successCount c) (failedCount c), Break), w')).
    { rewrite Hok. now destruct (pluginEnable res), (taskExist res). }
    cbn [count successCount failedCount]. rewrite Hbr. intros E. inversion E; subst.
    cbn [suspended history count successCount failedCount]. count_events. lia.
  - intros E. inversion E; subst.
    cbn [suspended history count successCount failedCount]. count_events. lia.
Qed.

Lemma sync_items_books (tok : str) (items : list str) :
  ∀ (c c1 : Counters) (k : Completion) (w w1 : World),
    sync_items host env tok items c w = (Ret (c1, k), w1) →
    balanced c c1 w w1
    ∧ (count c ≤ count c1 ≤ count c + length items)%nat
    ∧ match k with
      | Normal => count c1 = (count c + length items)%nat
                  ∧ (settled c1 + count c = settled c + count c1)%nat
      | Break => (S (settled c1) + count c = settled c + count c1)%nat
      end
    ∧ (settled c ≤ settled c1)%nat.
Proof.
  induction items as [|item rest IH]; intros c c1 k w w1; cbn [sync_items].
  - intros E. inversion E; subst. unfold balanced. cbn [length]. lia.
  - unfold bind.
    destruct (sync_item host env tok item c w) as [[[c' k']|e|] w'] eqn:E1;
      try discriminate.
    apply sync_item_books in E1. destruct E1 as (Hb & Hc & Hk). cbn [fst snd length].
    unfold balanced in *.
    destruct k'.
    + intros E. apply IH in E. destruct E as (Hb' & Hc' & Hk' & Hm).
      destruct k; lia.
    + intros E. inversion E; subst. lia.
Qed.

Lemma sync_loop_books (tok : str) (fuel : nat) :
  ∀ (c c1 : Counters) (w w1 : World),
    sync_loop host env fuel tok c w = (Ret c1, w1) →
    balanced c c1 w w1
    ∧ (count c ≤ count c1)%nat
    ∧ (settled c1 + count c ≤ settled c + count c1)%nat
    ∧ (settled c ≤ settled c1)%nat.
Proof.
  induction fuel as [|fuel IH]; intros c c1 w w1; cbn [sync_loop];
    [discriminate|].
  unfold bind at 1, get_settings. cbn [fst snd].
  destruct (negb (enable (settings w))).
  { unfold bind, notice, ret. intros E. inversion E; subst.
    unfold balanced. cbn [history]. count_events. lia. }
  unfold bind at 1. rewrite getSyncTask_eq.
  destruct (env_fail env _); [discriminate|].
  set (w0 := suspended env (GetSyncTask tok) w).
  assert (H0 : ∀ k, k ≠ KFetch → count_kind k (history w0) = count_kind k (history w)).
  { intros k Hk. unfold w0. cbn [suspended history]. now rewrite count_kind_cons_ne. }
  set (resp := env_syncTask env _).
  clearbody resp. clearbody w0.
  destruct (negb (st_valid resp)).
  { unfold bind, notice, ret. intros E. inversion E; subst.
    unfold balanced. cbn [history]. count_events. rewrite !H0 by discriminate. lia. }
  destruct (length (st_result resp) =? 0)%nat.
  { unfold ret. intros E. inversion E; subst.
    unfold balanced. rewrite !H0 by discriminate. lia. }
  unfold bind.
  destruct (sync_items host env tok (st_result resp) c w0) as [[[c' k]|e|] w'] eqn:E1;
    try discriminate.
  apply sync_items_books in E1. destruct E1 as (Hb & Hc & Hk & Hm).
  unfold balanced in *. rewrite !H0 in Hb by discriminate. cbn [fst].
  destruct (Z.of_nat (length (st_result resp)) =? st_limit resp)%Z.
  - intros E. apply IH in E. unfold balanced in E. destruct k; lia.
  - unfold ret. intros E. inversion E; subst. destruct k; lia.
Qed.

(** X14: one page of tasks.  The [for] loop always comes back.  It attempts
    the tasks in order and stops early only on a [break]; every attempt is
    followed by one pause; the success tally grows by the success
    acknowledgements sent and the failure tally by the failure
    acknowledgements sent; and every attempt is tallied as one or the other,
    except the one that broke out of the loop. *)
Theorem sync_items_ledger (tok : str) (items : list str) (c : Counters) (w : World) :
  ∃ (c1 : Counters) (k : Completion) (w1 : World),
    sync_items host env tok items c w = (Ret (c1, k), w1)
    ∧ (count c ≤ count c1 ≤ count c + length items)%nat
    ∧ (count_kind KSleep (history w1) + count c
       = count_kind KSleep (history w) + count c1)%nat
    ∧ (count_kind KAckSuccess (history w1) + successCount c
       = count_kind KAckSuccess (history w) + successCount c1)%nat
    ∧ (count_kind KAckFailed (history w1) + failedCount c
       = count_kind KAckFailed (history w) + failedCount c1)%nat
    ∧ match k with
      | Normal =>
          count c1 = (count c + length items)%nat
          ∧ (successCount c1 + failedCount c1 + count c
             = successCount c + failedCount c + count c1)%nat
      | Break =>
          (S (successCount c1 + failedCount c1) + count c
           = successCount c + failedCount c + count c1)%nat
      end.
Proof.
  destruct (sync_items_returns host env tok items c w) as ([c1 k] & w1 & E).
  exists c1, k, w1. split; [exact E|].
  apply sync_items_books in E. destruct E as ((Hs & Ha & Hf) & Hc & Hk & _).
  unfold settled in Hk. repeat split; try assumption; try lia.
Qed.

(** X15: the pagination loop, when it comes back with its tallies: the
    success tally has grown by the number of success acknowledgements sent,
    the failure tally by the number of failure acknowledgements sent, the
    attempt counter by the number of pauses taken, and the two tallies
    together by no more than the attempts. *)
Theorem sync_loop_ledger (fuel : nat) (tok : str) (c c1 : Counters) (w w1 : World) :
  sync_loop host env fuel tok c w = (Ret c1, w1) →
  (count_kind KAckSuccess (history w1) + successCount c
   = count_kind KAckSuccess (history w) + successCount c1)%nat
  ∧ (count_kind KAckFailed (history w1) + failedCount c
     = count_kind KAckFailed (history w) + failedCount c1)%nat
  ∧ (count_kind KSleep (history w1) + count c
     = count_kind KSleep (history w) + count c1)%nat
  ∧ (successCount c1 + failedCount c1 + count c
     ≤ successCount c + failedCount c + count c1)%nat.
Proof.
  intros E. apply sync_loop_books in E. destruct E as ((Hs & Ha & Hf) & Hc & Hk & _).
  unfold settled in Hk. repeat split; assumption.
Qed.

Lemma bind_returns {A B} (m : M A) (k : A → M B) (w w1 : World) (b : B) :
  bind m k w = (Ret b, w1) → ∃ a w0, m w = (Ret a, w0) ∧ k a w0 = (Ret b, w1).
Proof.
  unfold bind. destruct (m w) as [[a|e|] w0]; try discriminate.
  intros H. now exists a, w0.
Qed.

(** X16: a run that reaches the end of its [try] block ends with a notice:
    either that there was nothing to synchronize, and then it sent no
    acknowledgement at all; or that so many notes succeeded and so many
    failed, and these are the numbers of success and of failure
    acknowledgements it sent. *)
Theorem sync_run_reports_acknowledgements (fuel : nat) (message : bool) (tok : str)
    (w w1 : World) (x : TryExit) :
  sync_run host env fuel message tok w = (Ret x, w1) →
  ∃ (n : NoticeMsg) (rest : list Event),
    history w1 = ShowNotice n :: rest
    ∧ ((n = NoticeNoData
        ∧ count_kind KAckSuccess (history w1) = count_kind KAckSuccess (history w)
        ∧ count_kind KAckFailed (history w1) = count_kind KAckFailed (history w))
       ∨ (∃ succeeded failed,
            n = NoticeDone succeeded failed
            ∧ count_kind KAckSuccess (history w1)
              = (count_kind KAckSuccess (history w) + succeeded)%nat
            ∧ count_kind KAckFailed (history w1)
              = (count_kind KAckFailed (history w) + failed)%nat)).
Proof.
  unfold sync_run. rewrite bind_modify_settings. intros E.
  set (local := fun k => match k with KSave | KVault | KNotice => true | _ => false end).
  apply bind_returns in E as ([] & wa & Ea & E).
  apply bind_returns in E as ([] & wb & Eb & E).
  apply bind_returns in E as ([] & wc & Ec & E).
  apply bind_returns in E as (c & wd & Ed & E).
  apply bind_returns in E as ([] & we & Ee & E).
  unfold ret in E. injection E as Ex Ew. subst x. subst w1.
  assert (Hpre : ∀ k, local k = false →
            count_kind k (history wc) = count_kind k (history w)).
  { intros k Hk.
    assert (Hm : emits local (if message then notice NoticeSyncStart else ret tt))
      by (destruct message; [now apply emits_notice | apply emits_ret]).
    pose proof (count_kind_emits local k _ wb Hm Hk) as H3.
    rewrite Ec in H3. cbn [snd] in H3. rewrite H3.
    pose proof (count_kind_emits local k _ wa
                  (emits_initDir host env local eq_refl) Hk) as H2.
    rewrite Eb in H2. cbn [snd] in H2. rewrite H2.
    match type of Ea with
    | saveSettings _ ?w0 = _ =>
        pose proof (count_kind_emits local k _ w0
                      (emits_saveSettings env local eq_refl) Hk) as H1
    end.
    rewrite Ea in H1. cbn [snd] in H1. exact H1. }
  apply sync_loop_books in Ed. destruct Ed as ((Hs & Ha & Hf) & Hc & Hk & _).
  unfold settled in Hk. cbn [count successCount failedCount] in *.
  rewrite !Hpre in * by reflexivity.
  destruct (count c =? 0)%nat eqn:E0.
  - apply Nat.eqb_eq in E0. unfold bind, sleep, suspend, notice in Ee.
    inversion Ee; subst we. clear Ee. cbn [history suspended].
    exists NoticeNoData. eexists. split; [reflexivity|]. left.
    split; [reflexivity|]. count_events. lia.
  - unfold notice in Ee. inversion Ee; subst we. clear Ee. cbn [history].
    eexists _, _. split; [reflexivity|]. right.
    exists (successCount c), (failedCount c). split; [reflexivity|].
    count_events. lia.
Qed.

(** X17: a task whose materialization throws does not stop the page: it is
    counted as attempted and as failed, the pause is taken, and the loop
    goes on with the next task of the page. *)
Theorem sync_items_isolates_failure (tok item : str) (rest : list str)
    (c : Counters) (w w1 : World) (e : JsError) :
  _syncNote host env item tok w = (Throw e, w1) →
  sync_items host env tok (item :: rest) c w
  = sync_items host env tok rest
      (mkCounters (S (count c)) (successCount c) (S (failedCount c)))
      (suspended env (Sleep 3000) w1).
Proof.
  intros E. cbn [sync_items]. unfold bind at 1, sync_item, finally, try_catch, bind at 1.
  rewrite E. reflexivity.
Qed.
End Accounting.

(** ** A disabled plugin *)

Section Disabled.
Context (host : Host) (env : Env).
Hypothesis Hoff : stays_disabled env.

Lemma stays_local_silent {A} (m : M A) :
  (∀ w, history (m w).2 = history w) →
  (∀ w, enable (settings (m w).2) = enable (settings w)) →
  stays_local m.
Proof.
  intros Hh He w Hw. split; [now rewrite He|].
  exists []. split; [apply Hh | constructor].
Qed.

Lemma stays_local_ret {A} (a : A) : stays_local (ret a).
Proof. now apply stays_local_silent. Qed.

Lemma stays_local_get_settings : stays_local get_settings.
Proof. now apply stays_local_silent. Qed.

Lemma stays_local_now : stays_local (now env).
Proof. now apply stays_local_silent. Qed.

Lemma stays_local_modify_settings (f : NewledgeSettings → NewledgeSettings) :
  (∀ s, enable (f s) = enable s) → stays_local (modify_settings f).
Proof. intros H. apply stays_local_silent; [reflexivity|]. intros w. apply H. Qed.

Lemma stays_local_notice (m : NoticeMsg) : stays_local (notice m).
Proof.
  intros w Hw. split; [exact Hw|].
  exists [ShowNotice m]. split; [reflexivity | repeat constructor].
Qed.

Lemma stays_local_bind {A B} (m : M A) (k : A → M B) :
  stays_local m → (∀ a, stays_local (k a)) → stays_local (bind m k).
Proof.
  intros Hm Hk w Hw. unfold bind. destruct (Hm w Hw) as (He & evs1 & E1 & F1).
  destruct (m w) as [[a|e|] w1]; cbn [fst snd] in *;
    try (split; [exact He | exists evs1; now split]).
  destruct (Hk a w1 He) as (He2 & evs2 & E2 & F2).
  split; [exact He2|]. exists (evs2 ++ evs1). split.
  - rewrite E2, E1. apply app_assoc.
  - apply Forall_app; auto.
Qed.

Lemma stays_local_try_catch {A} (m : M A) (handler : JsError → M A) :
  stays_local m → (∀ e, stays_local (handler e)) → stays_local (try_catch m handler).
Proof.
  intros Hm Hk w Hw. unfold try_catch. destruct (Hm w Hw) as (He & evs1 & E1 & F1).
  destruct (m w) as [[a|e|] w1]; cbn [fst snd] in *;
    try (split; [exact He | exists evs1; now split]).
  destruct (Hk e w1 He) as (He2 & evs2 & E2 & F2).
  split; [exact He2|]. exists (evs2 ++ evs1). split.
  - rewrite E2, E1. apply app_assoc.
  - apply Forall_app; auto.
Qed.

Lemma stays_local_suspend (ev : Event) :
  remote_kinds (kind ev) = false → stays_local (suspend env ev).
Proof.
  intros H w Hw. unfold suspend. cbn [fst snd suspended settings history].
  split; [now apply Hoff|]. exists [ev]. split; [reflexivity | repeat constructor; exact H].
Qed.

Lemma stays_local_await (ev : Event) :
  remote_kinds (kind ev) = false → stays_local (await env ev).
Proof.
  intros H w Hw. rewrite await_eq. cbn [fst snd suspended settings history].
  split; [now apply Hoff|]. exists [ev]. split; [reflexivity | repeat constructor; exact H].
Qed.

Lemma stays_local_saveSettings : stays_local (saveSettings env).
Proof.
  unfold saveSettings. apply stays_local_bind; [apply stays_local_get_settings|].
  intros s. now apply stays_local_await.
Qed.

Lemma stays_local_createFolder (path : str) : stays_local (createFolder env path).
Proof.
  intros w Hw. unfold createFolder, bind, suspend.
  assert (H : enable (settings (suspended env (CreateFolder path) w)) = false)
    by (cbn [suspended settings]; now apply Hoff).
  assert (Hev : ∃ evs, history (suspended env (CreateFolder path) w) = evs ++ history w
                       ∧ Forall (fun ev => remote_kinds (kind ev) = false) evs)
    by (exists [CreateFolder path]; split; [reflexivity | repeat constructor]).
  destruct (bool_decide _); [now split|].
  destruct (env_fail env _); now split.
Qed.

Lemma stays_local_for_each {A} (l : list A) (body : A → M unit) :
  (∀ x, stays_local (body x)) → stays_local (for_each l body).
Proof.
  intros H. induction l as [|x l IH]; cbn [for_each]; [apply stays_local_ret|].
  apply stays_local_bind; [apply H | intros _; exact IH].
Qed.

Lemma stays_local_initDir : stays_local (_initDir host env).
Proof.
  unfold _initDir. apply stays_local_bind; [apply stays_local_get_settings|].
  intros s. apply stays_local_for_each. intros dir.
  apply stays_local_try_catch; [apply stays_local_createFolder|].
  intros _. apply stays_local_ret.
Qed.

Lemma stays_local_sync_loop (fuel : nat) (tok : str) (c : Counters) :
  stays_local (sync_loop host env fuel tok c).
Proof.
  intros w Hw. destruct fuel as [|fuel]; cbn [sync_loop].
  - split; [exact Hw|]. exists []. split; [reflexivity | constructor].
  - assert (E : sync_loop host env (S fuel) tok c w
                 = (notice NoticeDisabled >> ret c) w).
    { cbn [sync_loop]. unfold bind at 1, get_settings. now rewrite Hw. }
    cbn [sync_loop] in E. rewrite E.
    apply (stays_local_bind (notice NoticeDisabled) (fun _ => ret c));
      [apply stays_local_notice | intros _; apply stays_local_ret | exact Hw].
Qed.

Lemma stays_local_sync_exit : stays_local (sync_exit env).
Proof.
  unfold sync_exit. apply stays_local_bind; [apply stays_local_now|]. intros t.
  apply stays_local_bind; [now apply stays_local_modify_settings|]. intros _.
  apply stays_local_bind; [now apply stays_local_modify_settings|]. intros _.
  apply stays_local_saveSettings.
Qed.

Lemma stays_local_sync_run (fuel : nat) (message : bool) (tok : str) :
  stays_local (sync_run host env fuel message tok).
Proof.
  unfold sync_run.
  apply stays_local_bind; [now apply stays_local_modify_settings|]. intros _.
  apply stays_local_bind; [apply stays_local_saveSettings|]. intros _.
  apply stays_local_bind; [apply stays_local_initDir|]. intros _.
  apply stays_local_bind;
    [destruct message; [apply stays_local_notice | apply stays_local_ret]|].
  intros _.
  apply stays_local_bind; [apply stays_local_sync_loop|]. intros c.
  apply stays_local_bind; [|intros _; apply stays_local_ret].
  destruct (count c =? 0)%nat; [|apply stays_local_notice].
  apply stays_local_bind; [now apply stays_local_suspend|].
  intros _. apply stays_local_notice.
Qed.

Lemma stays_local_sync (fuel : nat) (message : bool) :
  stays_local (sync host env fuel message).
Proof.
  intros w Hw. unfold sync.
  assert (Htry : stays_local (sync_try host env fuel message)).
  { unfold sync_try. apply stays_local_bind; [apply stays_local_get_settings|].
    intros s. destruct (negb _); [apply stays_local_ret|].
    destruct (syncing s); [apply stays_local_ret|]. apply stays_local_sync_run. }
  destruct (Htry w Hw) as (He & evs1 & E1 & F1).
  destruct (sync_try host env fuel message w) as [[[|]|e|] w1]; cbn [fst snd] in *.
  - split; [exact He|]. exists evs1. now split.
  - destruct (stays_local_sync_exit w1 He) as (He2 & evs2 & E2 & F2).
    split; [exact He2|]. exists (evs2 ++ evs1). split.
    + rewrite E2, E1. apply app_assoc.
    + apply Forall_app; auto.
  - destruct (stays_local_bind _ _ (stays_local_notice NoticeSyncFailed)
                (fun _ => stays_local_sync_exit) w1 He) as (He2 & evs2 & E2 & F2).
    split; [exact He2|]. exists (evs2 ++ evs1). split.
    + rewrite E2, E1. apply app_assoc.
    + apply Forall_app; auto.
  - split; [exact He|]. exists evs1. now split.
Qed.

Lemma stays_local_count {A} (m : M A) (w : World) (k : EventKind) :
  stays_local m → enable (settings w) = false → remote_kinds k = true →
  count_kind k (history (m w).2) = count_kind k (history w).
Proof.
  intros Hm Hw Hk. destruct (Hm w Hw) as (_ & evs & -> & F).
  rewrite count_kind_app.
  rewrite (count_kind_excluded (fun k => negb (remote_kinds k)) k evs); [reflexivity| |].
  - now rewrite Hk.
  - eapply Forall_impl; [exact F|]. intros ev ->. reflexivity.
Qed.

(** X18: a run started while the plugin is disabled reaches no remote
    service: it lists no page, fetches no content, acknowledges nothing and
    checks no integration; and it leaves the plugin disabled.  (It still
    saves the settings, creates the folders and shows its notices.) *)
Theorem disabled_sync_stays_local (fuel : nat) (message : bool) (w : World) :
  enable (settings w) = false →
  let run := sync host env fuel message w in
  enable (settings run.2) = false
  ∧ (∀ k, remote_kinds k = true →
       count_kind k (history run.2) = count_kind k (history w))
  ∧ (truthy (token (settings w)) = true → syncing (settings w) = false →
     ∃ evs, history run.2
            = evs ++ SaveData (set_syncing true (settings w)) :: history w).
Proof.
  intros Hw run. split; [apply (stays_local_sync fuel message w Hw)|].
  split.
  - intros k Hk. now apply stays_local_count; [apply stays_local_sync| |].
  - intros Ht Hs.
    destruct (sync_history_after host env fuel message w _ _
                (surjective_pairing _)) as (evs1 & E1).
    rewrite (sync_try_passes host env fuel message w Ht Hs) in E1.
    destruct (sync_run_first_call host env fuel message
                (default [] (token (settings w))) w) as (evs2 & E2).
    exists (evs1 ++ evs2). unfold run. rewrite E1, E2. apply app_assoc.
Qed.

(** X19: [onunload] stores the settings with the plugin disabled and the
    in-progress flag lowered, the account untouched; a run that starts
    afterwards reaches no remote service. *)
Theorem onunload_disconnects (fuel : nat) (message : bool) (w : World) :
  let w1 := (onunload env w).2 in
  (∃ s, history w1 = SaveData s :: history w
        ∧ enable s = false ∧ syncing s = false
        ∧ token s = token (settings w) ∧ sessionId s = sessionId (settings w)
        ∧ lastSyncTime s = lastSyncTime (settings w))
  ∧ enable (settings w1) = false
  ∧ (∀ k, remote_kinds k = true →
       count_kind k (history (sync host env fuel message w1).2)
       = count_kind k (history w)).
Proof.
  intros w1.
  assert (E : onunload env w
              = (match env_fail env
                         (SaveData (set_enable false (set_syncing false (settings w)))
                          :: history w) with
                 | Some e => Throw e
                 | None => Ret tt
                 end,
                 suspended env
                   (SaveData (set_enable false (set_syncing false (settings w))))
                   {| settings := set_enable false (set_syncing false (settings w));
                      store := store w; history := history w |})).
  { unfold onunload. rewrite !bind_modify_settings.
    unfold saveSettings, bind, get_settings. cbn [settings]. now rewrite await_eq. }
  assert (Hw1 : enable (settings w1) = false).
  { unfold w1. rewrite E. cbn [snd suspended settings]. now apply Hoff. }
  split; [|split; [exact Hw1|]].
  - eexists. unfold w1. rewrite E. cbn [snd suspended history].
    split; [reflexivity|]. repeat split.
  - intros k Hk.
    rewrite (stays_local_count _ w1 k (stays_local_sync fuel message) Hw1 Hk).
    unfold w1. rewrite E. cbn [snd suspended history].
    apply count_kind_cons_ne. intros <-. discriminate.
Qed.

End Disabled.

(** ** The timer, loading *)

Section LifecycleFacts.
Context (host : Host) (env : Env).

(** X20: the timer does nothing, and leaves the world as it is, while a run
    is in progress, while the interval since the last run has not elapsed,
    and, for a positive interval, as long as no run was ever recorded. *)
Theorem timingSync_waits (fuel : nat) (w : World) :
  syncing (settings w) = true
  ∨ (∃ last, lastSyncTime (settings w) = Some last
             ∧ (env_now env (history w) - last
                < syncInterval (settings w) * minute)%Z)
  ∨ (lastSyncTime (settings w) = None ∧ (0 < syncInterval (settings w))%Z) →
  _timingSync host env fuel w = (Ret tt, w).
Proof.
  intros H. unfold _timingSync, try_catch, bind at 1, get_settings.
  destruct (syncing (settings w)) eqn:Es; [reflexivity|].
  destruct H as [H|[(last & El & Hlt)|[El Hpos]]]; [discriminate| |].
  - unfold bind, sinceLastSync. rewrite El. unfold bind, now, ret. cbv beta zeta iota.
    now replace (_ <=? _)%Z with false by (symmetry; apply Z.leb_gt; lia).
  - unfold bind, sinceLastSync. rewrite El. unfold ret. cbv beta zeta iota.
    now replace (_ <=? _)%Z with false
      by (symmetry; apply Z.leb_gt; unfold minute; lia).
Qed.

(** X21: when no run is in progress and the interval has elapsed, the timer
    does what [sync] does, with the start notice, except that an exception
    of [sync] is swallowed; and in no case does the timer throw. *)
Theorem timingSync_runs_when_due (fuel : nat) (w : World) :
  syncing (settings w) = false →
  (match lastSyncTime (settings w) with
   | Some last => syncInterval (settings w) * minute
                  ≤ env_now env (history w) - last
   | None => syncInterval (settings w) ≤ 0
   end)%Z →
  let run := sync host env fuel true w in
  (_timingSync host env fuel w).2 = run.2
  ∧ (_timingSync host env fuel w).1
    = match run.1 with
      | Throw _ => Ret tt
      | r => r
      end
  ∧ ∀ fuel' w' e, (_timingSync host env fuel' w').1 ≠ Throw e.
Proof.
  intros Hs Hdue run.
  assert (E : _timingSync host env fuel w
              = match run with
                | (Throw _, w1) => (Ret tt, w1)
                | r => r
                end).
  { unfold _timingSync, try_catch, bind at 1, get_settings. rewrite Hs.
    unfold bind at 1, sinceLastSync.
    destruct (lastSyncTime (settings w)) as [last|].
    - unfold bind at 1, now, ret. cbv beta zeta iota.
      replace (_ <=? _)%Z with true by (symmetry; apply Z.leb_le; lia).
      unfold run. now destruct (sync host env fuel true w) as [[[]|?|] ?].
    - unfold ret. cbv beta zeta iota.
      replace (_ <=? _)%Z with true by (symmetry; apply Z.leb_le; unfold minute; lia).
      unfold run. now destruct (sync host env fuel true w) as [[[]|?|] ?]. }
  rewrite E. split; [|split].
  - now destruct run as [[[]|e|] w1].
  - now destruct run as [[[]|e|] w1].
  - intros fuel' w' e. unfold _timingSync, try_catch.
    match goal with
    | |- context [match ?m with _ => _ end] => destruct m as [[[]|e'|] w1]
    end; discriminate.
Qed.

(** X22: [onload] after a session that ended in the middle of a run.  With
    no other handler raising the flag, when [onload_resets] returns the
    in-progress flag is lowered, so that the next run passes the guard; the
    settings it stored last have the plugin enabled and the flag lowered;
    and it saved twice when it found the flag raised, once otherwise. *)
Theorem onload_clears_stale_flag (w w' : World) :
  stays_idle env →
  onload_resets env w = (Ret tt, w') →
  syncing (settings w') = false
  ∧ (∃ s rest, history w' = SaveData s :: rest
               ∧ enable s = true ∧ syncing s = false)
  ∧ count_kind KSave (history w')
    = (count_kind KSave (history w) + if syncing (settings w) then 2 else 1)%nat.
Proof.
  intros Hidle.
  assert (Hlast : ∀ (w0 : World) (w1 : World),
            syncing (settings w0) = false →
            (modify_settings (set_enable true) >> saveSettings env) w0 = (Ret tt, w1) →
            syncing (settings w1) = false
            ∧ (∃ s rest, history w1 = SaveData s :: rest
                         ∧ enable s = true ∧ syncing s = false)
            ∧ count_kind KSave (history w1) = S (count_kind KSave (history w0))).
  { intros w0 w1 H0. rewrite bind_modify_settings.
    unfold saveSettings, bind, get_settings. cbn [settings]. rewrite await_eq.
    destruct (env_fail env _); [discriminate|]. intros E. inversion E; subst w1.
    cbn [suspended settings history]. split; [now apply Hidle|].
    split; [eexists _, _; split; [reflexivity|]; now split|].
    now rewrite count_kind_cons_eq. }
  unfold onload_resets, bind at 1, get_settings.
  destruct (syncing (settings w)) eqn:Es.
  - unfold bind at 1. rewrite bind_modify_settings.
    unfold saveSettings at 1, bind at 1, get_settings. rewrite await_eq.
    destruct (env_fail env _); [discriminate|]. cbn [settings history].
    intros E. apply Hlast in E; [|cbn [suspended settings]; now apply Hidle].
    destruct E as (H1 & H2 & H3). split; [exact H1|]. split; [exact H2|].
    rewrite H3. cbn [suspended history]. rewrite count_kind_cons_eq by reflexivity.
    lia.
  - unfold bind at 1, ret. intros E. apply Hlast in E; [|exact Es].
    destruct E as (H1 & H2 & H3). split; [exact H1|]. split; [exact H2|].
    rewrite H3. lia.
Qed.

(** X23: the callback of [onload] creates the folders and starts the first
    run only for an account that [checkAccount] found valid: otherwise it
    stops where [checkAccount] stopped, having created no folder, listed no
    task and fetched no content. *)
Theorem onload_checked_needs_valid_account (fuel : nat) (w : World) :
  (∀ r, (checkAccount host env w).1 = Ret r → valid r = false) →
  let run := onload_checked host env fuel w in
  run.2 = (checkAccount host env w).2
  ∧ count_kind KVault (history run.2) = count_kind KVault (history w)
  ∧ count_kind KFetch (history run.2) = count_kind KFetch (history w)
  ∧ count_kind KContent (history run.2) = count_kind KContent (history w).
Proof.
  intros Hinv run.
  assert (E : run.2 = (checkAccount host env w).2).
  { unfold run, onload_checked, bind.
    destruct (checkAccount host env w) as [[r|e|] w1]; try reflexivity.
    now rewrite (Hinv r eq_refl). }
  split; [exact E|]. rewrite E.
  set (account := fun k => match k with KSave | KIntegration => true | _ => false end).
  assert (Hem : emits account (checkAccount host env)).
  { unfold checkAccount. apply emits_bind; [apply emits_get_settings|]. intros s.
    apply emits_bind.
    { apply emits_silent. intros w0.
      now destruct (checkToken_silent host env (token s) w0) as (fu & ->). }
    intros [format unExpired].
    apply emits_bind.
    { destruct (_ && _); [|apply emits_ret].
      apply emits_try_catch; [|intros _; apply emits_ret].
      apply emits_bind; [now apply emits_getIntegration | intros r; apply emits_ret]. }
    intros [early|[integrationValid failed]]; [apply emits_ret|].
    apply emits_bind; [|intros _; apply emits_ret].
    destruct (_ || _); [|apply emits_ret].
    apply emits_bind; [apply emits_modify_settings|].
    intros _. now apply emits_saveSettings. }
  repeat split; now apply (count_kind_emits account).
Qed.

End LifecycleFacts.

(** ** The login poller, when it is answered *)

Section PollerMore.
Context (env : Env).

Lemma answers_later (sid : str) (ev : Event) (hist : list Event)
    (st : LoginStatus) :
  answers env sid hist st → answers env sid (ev :: hist) st.
Proof. intros (h & Hs & Ho). exists h. split; [now apply suffix_cons_r | exact Ho]. Qed.

Lemma poll_settle_resolves (o : option LoginStatus) (res : LoginResponse) :
  poll_settle o = Some res →
  res = expired
  ∨ ∃ st, o = Some st ∧ res = mkLoginResponse st None
          ∧ ls_invalidSessionId st = false
          ∧ ls_status st = true
          ∧ truthy (ls_token st) = true.
Proof.
  unfold poll_settle. destruct o as [st|]; [|discriminate].
  destruct (ls_invalidSessionId st) eqn:Ei; [intros H; left; congruence|].
  destruct (ls_status st && truthy (ls_token st)) eqn:Es; [|discriminate].
  apply andb_prop in Es as [Es1 Es2]. intros H. right. exists st.
  repeat split; congruence.
Qed.

(** What the poller may resolve with, along any turns. *)
Lemma poll_turns_sound (sid : str) (turns : list Turn) :
  ∀ (a : nat) (inflight : list (option LoginStatus)) (w : World),
    Forall (fun o => ∀ st, o = Some st → answers env sid (history w) st)
      inflight →
    ∃ r w',
      poll_turns env turns sid a inflight w = (r, w')
      ∧ (∀ e, r ≠ Throw e)
      ∧ (∀ res, r = Ret res →
           res = expired
           ∨ ∃ st, res = mkLoginResponse st None
                   ∧ answers env sid (history w') st
                   ∧ ls_invalidSessionId st = false
                   ∧ ls_status st = true
                   ∧ truthy (ls_token st) = true)
      ∧ ∃ polls fired,
          count_kind KLogin (history w') = (count_kind KLogin (history w) + polls)%nat
          ∧ count_kind KTick (history w') = (count_kind KTick (history w) + fired)%nat
          ∧ (polls ≤ fired ≤ S polls)%nat
          ∧ (fired = S polls → r = Ret expired)
          ∧ (fired ≤ length turns)%nat.
Proof.
  induction turns as [|[|i] turns IH]; intros a inflight w Hfl.
  - exists Diverge, w. split; [reflexivity|]. split; [discriminate|].
    split; [discriminate|]. exists 0%nat, 0%nat. simpl. repeat split; lia.
  - cbn [poll_turns]. unfold bind at 1, suspend. unfold bind at 1.
    rewrite poll_fire_eq.
    set (wt := suspended env (IntervalTick 2000) w).
    destruct (maxAttempts <=? a)%nat.
    + exists (Ret expired), wt. split; [reflexivity|]. split; [discriminate|].
      split; [intros res H; left; congruence|].
      exists 0%nat, 1%nat. unfold wt. cbn [suspended history length].
      rewrite count_kind_cons_ne by discriminate.
      rewrite count_kind_cons_eq by reflexivity. repeat split; lia.
    + set (w1 := suspended env (GetLoginStatus sid) wt).
      change (GetLoginStatus sid :: history wt) with (history w1).
      destruct (IH a (inflight ++ [poll_outcome env (history w1)]) w1)
        as (r & w' & E & Hthrow & Hres & polls & fired & Hp & Hf & Hb & Hx & Hl).
      { apply Forall_app. split.
        - eapply Forall_impl; [exact Hfl|]. intros o Ho st Hst.
          unfold w1, wt. cbn [suspended history].
          now apply answers_later, answers_later, Ho.
        - repeat constructor. intros st Hst. exists (history wt).
          split; [reflexivity | exact Hst]. }
      exists r, w'. split; [exact E|]. split; [exact Hthrow|].
      split; [exact Hres|]. exists (S polls), (S fired).
      rewrite Hp, Hf. unfold w1, wt. cbn [suspended history length].
      rewrite (count_kind_cons_eq KLogin), (count_kind_cons_ne KLogin),
        (count_kind_cons_ne KTick), (count_kind_cons_eq KTick);
        try reflexivity; try discriminate.
      repeat split; try lia. intros H. apply Hx. lia.
  - cbn [poll_turns]. destruct (inflight !! i) as [o|] eqn:Eo.
    + destruct (poll_settle o) as [res|] eqn:Es.
      * exists (Ret res), w. split; [reflexivity|]. split; [discriminate|].
        split.
        { intros res' H. injection H as <-.
          destruct (poll_settle_resolves o res Es)
            as [H|(st & -> & -> & Hi & Hs & Ht)]; [now left|].
          right. exists st. split; [reflexivity|]. split; [|now repeat split].
          apply (Forall_lookup_1 _ _ _ _ Hfl Eo). reflexivity. }
        exists 0%nat, 0%nat. cbn [length]. repeat split; lia.
      * destruct (IH (S a) (delete i inflight) w)
          as (r & w' & E & Hthrow & Hres & polls & fired & Hp & Hf & Hb & Hx & Hl).
        { eapply Forall_impl; [|intros o' Ho'; exact Ho'].
          apply (Forall_delete _ _ _ Hfl). }
        exists r, w'. split; [exact E|]. split; [exact Hthrow|].
        split; [exact Hres|]. exists polls, fired. cbn [length].
        repeat split; try lia; assumption.
    + destruct (IH a inflight w Hfl)
        as (r & w' & E & Hthrow & Hres & polls & fired & Hp & Hf & Hb & Hx & Hl).
      exists r, w'. split; [exact E|]. split; [exact Hthrow|].
      split; [exact Hres|]. exists polls, fired. cbn [length].
      repeat split; try lia; assumption.
Qed.

(** With prompt answers the interval is cleared by its 60th firing. *)
Lemma poll_prompt_resolves (sid : str) (k : nat) :
  ∀ (a n : nat) (w : World),
    (a + k = 60)%nat → (k < n)%nat →
    ∃ res w',
      poll_turns env (prompt n) sid a [] w = (Ret res, w')
      ∧ (count_kind KLogin (history w') ≤ count_kind KLogin (history w) + k)%nat
      ∧ (count_kind KTick (history w') ≤ count_kind KTick (history w) + S k)%nat.
Proof.
  induction k as [|k IH]; intros a n w Ha Hn;
    (destruct n as [|n]; [lia|]); cbn [prompt];
    rewrite poll_round by (simpl; lia); cbv zeta; unfold maxAttempts.
  - replace (60 <=? a)%nat with true by (symmetry; apply Nat.leb_le; lia).
    eexists _, _. split; [reflexivity|]. cbn [suspended history].
    rewrite count_kind_cons_ne by discriminate.
    rewrite count_kind_cons_eq by reflexivity. split; lia.
  - replace (60 <=? a)%nat with false by (symmetry; apply Nat.leb_gt; lia).
    set (w1 := suspended env (GetLoginStatus sid)
                 (suspended env (IntervalTick 2000) w)).
    assert (HL : count_kind KLogin (history w1) = S (count_kind KLogin (history w))).
    { unfold w1. cbn [suspended history].
      rewrite count_kind_cons_eq by reflexivity.
      now rewrite count_kind_cons_ne by discriminate. }
    assert (HT : count_kind KTick (history w1) = S (count_kind KTick (history w))).
    { unfold w1. cbn [suspended history].
      rewrite count_kind_cons_ne by discriminate.
      now rewrite count_kind_cons_eq by reflexivity. }
    cbn [head default].
    destruct (poll_settle (poll_outcome env (history w1))) as [res|].
    + exists res, w1. split; [reflexivity|]. lia.
    + destruct (IH (S a) n w1) as (res & w' & E & Hl & Ht); [lia | lia |].
      exists res, w'. split; [exact E|]. lia.
Qed.

(** X24: what the poller may resolve with, however the firings of the
    interval and the answers of the service interleave.  It never rejects.
    It resolves either with the expired response, or with the answer to one
    of the polls it sent, and then that poll was not rejected, did not
    report the session id invalid, and carried an approved status with a
    non-empty token.  Every firing but the last sends one poll, and a
    last firing that sends none resolves with the expired response.  When
    every request is answered before the next firing, the poller resolves
    within 60 firings and 59 polls, whatever the answers. *)
Theorem poller_resolves_soundly (turns : list Turn) (sid : str) (w : World) :
  (∃ r w',
     _getLoginStatus env turns sid w = (r, w')
     ∧ (∀ e, r ≠ Throw e)
     ∧ (∀ res, r = Ret res →
          res = expired
          ∨ ∃ st, res = mkLoginResponse st None
                  ∧ answers env sid (history w') st
                  ∧ ls_invalidSessionId st = false
                  ∧ ls_status st = true
                  ∧ truthy (ls_token st) = true)
     ∧ ∃ polls fired,
         count_kind KLogin (history w') = (count_kind KLogin (history w) + polls)%nat
         ∧ count_kind KTick (history w') = (count_kind KTick (history w) + fired)%nat
         ∧ (polls ≤ fired ≤ S polls)%nat
         ∧ (fired = S polls → r = Ret expired)
         ∧ (fired ≤ length turns)%nat)
  ∧ ∀ n, ∃ res w',
      _getLoginStatus env (prompt (60 + n)) sid w = (Ret res, w')
      ∧ (count_kind KLogin (history w') ≤ count_kind KLogin (history w) + 59)%nat
      ∧ (count_kind KTick (history w') ≤ count_kind KTick (history w) + 60)%nat.
Proof.
  split.
  - rewrite getLoginStatus_start. apply poll_turns_sound. constructor.
  - intros n. rewrite getLoginStatus_start.
    apply (poll_prompt_resolves sid 59 1%nat (60 + n)%nat w); lia.
Qed.

Lemma poll_history_shift (sid : str) (h : list Event) (i : nat) :
  poll_history sid i (poll_history sid 1 h) = poll_history sid (S i) h.
Proof. induction i as [|i IH]; [reflexivity|]. cbn [poll_history] in *. now rewrite IH. Qed.

(** With prompt answers, the firings up to the first poll that decides. *)
Lemma poll_prompt_decisive (sid : str) (k : nat) :
  ∀ (a n : nat) (w : World),
    (a + k < 60)%nat → (k < n)%nat →
    (∀ i, (i < k)%nat → poll_pending env (poll_history sid (S i) (history w))) →
    (poll_invalidates env (poll_history sid (S k) (history w)) →
     (poll_turns env (prompt n) sid a [] w).1 = Ret expired
     ∧ history (poll_turns env (prompt n) sid a [] w).2
       = poll_history sid (S k) (history w))
    ∧ (poll_approves env (poll_history sid (S k) (history w)) →
       (poll_turns env (prompt n) sid a [] w).1
       = Ret (mkLoginResponse
                (env_loginStatus env (poll_history sid (S k) (history w))) None)
       ∧ history (poll_turns env (prompt n) sid a [] w).2
         = poll_history sid (S k) (history w)).
Proof.
  induction k as [|k IH]; intros a n w Ha Hn Hpend;
    (destruct n as [|n]; [lia|]); cbn [prompt];
    rewrite poll_round by (simpl; lia); cbv zeta; unfold maxAttempts;
    replace (60 <=? a)%nat with false by (symmetry; apply Nat.leb_gt; lia);
    cbn [head default];
    set (w1 := suspended env (GetLoginStatus sid)
                 (suspended env (IntervalTick 2000) w));
    assert (Hh : history w1 = poll_history sid 1 (history w)) by reflexivity.
  - cbn [poll_history]. change (GetLoginStatus sid :: IntervalTick 2000 :: history w)
      with (history w1).
    unfold poll_outcome, poll_settle. split.
    + intros (Hf & Hi). rewrite Hf, Hi. now split.
    + intros (Hf & Hi & Hs & Htok). rewrite Hf, Hi, Hs, Htok. now split.
  - rewrite (poll_pending_settle env (history w1))
      by (rewrite Hh; apply (Hpend 0%nat); lia).
    pose proof (IH (S a) n w1) as H.
    rewrite Hh, poll_history_shift in H. apply H; [lia | lia |].
    intros i Hi. rewrite poll_history_shift. apply Hpend. lia.
Qed.

(** X25: the first poll that decides, when every request is answered
    before the interval fires again.  If the first [k] polls leave the
    login pending and poll [k + 1], among the first 59, is answered, the
    poller resolves at that poll, having made no other call: with the
    expired response if the answer reports the session id invalid, whatever
    else it says; with the answer itself if it carries an approved status
    and a non-empty token. *)
Theorem poller_first_decisive_poll (sid : str) (k n : nat) (w : World) :
  (k < 59)%nat → (k < n)%nat →
  (∀ i, (i < k)%nat → poll_pending env (poll_history sid (S i) (history w))) →
  let h := poll_history sid (S k) (history w) in
  let run := _getLoginStatus env (prompt n) sid w in
  (poll_invalidates env h → run.1 = Ret expired ∧ history run.2 = h)
  ∧ (poll_approves env h →
     run.1 = Ret (mkLoginResponse (env_loginStatus env h) None)
     ∧ history run.2 = h).
Proof.
  intros Hk Hn Hpend. cbv zeta. rewrite getLoginStatus_start.
  apply (poll_prompt_decisive sid k 1%nat n w); [lia | lia | exact Hpend].
Qed.

End PollerMore.

(** ** More theorems at work *)

Lemma sanitize_tidy_witness : Title.sanitize (js "Bar") = js "Bar".
Proof.
  apply sanitize_tidy. split; [|split; [|split]].
  - repeat first [apply List.Forall_cons | apply List.Forall_nil]; vm_compute; auto.
  - vm_compute. repeat split; discriminate.
  - reflexivity.
  - vm_compute. lia.
Defined.

Lemma stored_dir_shape_witness :
  stored_dir (rootDir DEFAULT_SETTINGS) [32; 47; 97; 92; 98; 47; 47; 32] = [97; 47; 98]
  ∧ 92 ∉ stored_dir (rootDir DEFAULT_SETTINGS) [32; 47; 97; 92; 98; 47; 47; 32].
Proof.
  split; [reflexivity|].
  refine (proj2 (proj2 (proj2 (stored_dir_shape (rootDir DEFAULT_SETTINGS)
                                 [32; 47; 97; 92; 98; 47; 47; 32] _)))).
  constructor.
Defined.

Lemma propertiesObj_last_wins_witness :
  own (propertiesObj ([(js "k", PText (js "old"))]
                      ++ (js "k", PText (js "new")) :: []))
    !! js "k" = Some (PText (js "new"))
  ∧ prototype (propertiesObj ([(js "k", PText (js "old"))]
                              ++ (js "__proto__", PList [js "a"]) :: []))
    = Some [js "a"].
Proof.
  split.
  - refine (proj1 (propertiesObj_last_wins [(js "k", PText (js "old"))] [] (js "k")
                     (PText (js "new"))) _ _).
    + discriminate.
    + intros H. inversion H.
  - refine (proj1 (proj2 (proj2 (proj2
              (propertiesObj_last_wins [(js "k", PText (js "old"))] [] (js "k")
                 (PText (js "new"))))))
              [js "a"] _).
    intros vs' H. inversion H.
Defined.

Lemma checkAccount_valid_verdict_witness :
  (checkAccount plain_host quiet_env fresh_world).2
  = suspended quiet_env (GetIntegration (js "sid") (js "tok")) fresh_world.
Proof.
  exact (proj2 (proj2 (proj2 (proj2 (proj2 (proj2
           (checkAccount_valid_verdict plain_host quiet_env fresh_world
              (checkAccount plain_host quiet_env fresh_world).2
              (mkAccount true 0) eq_refl eq_refl))))))).
Defined.

Lemma checkAccount_settled_locally_witness :
  (checkAccount plain_host quiet_env unbound_world).1 = Ret (mkAccount false 0)
  ∧ count_kind KIntegration
      (history (checkAccount plain_host quiet_env unbound_world).2) = 0%nat.
Proof.
  destruct (checkAccount_settled_locally plain_host quiet_env unbound_world
              false false eq_refl (or_introl eq_refl)) as (_ & H1 & H2).
  split; [exact H2 | exact H1].
Defined.

Lemma initDir_never_fails_witness :
  ∃ w', _initDir plain_host quiet_env nested_world = (Ret tt, w')
        ∧ {[js "a/b"; js "a/b/links"; js "a/b/notes"]} ⊆ store w'
        ∧ js "a" ∈ store w'.
Proof.
  destruct (initDir_never_fails plain_host quiet_env nested_world)
    as (w' & H1 & _ & _ & _ & H2).
  destruct (H2 (fun h => eq_refl)) as (H3 & H4).
  exists w'. split; [exact H1|]. split; [exact H3|].
  apply H4; apply (bool_decide_unpack _); vm_compute; exact I.
Defined.

Lemma destination_of_link_witness :
  ∃ N w', destination plain_host quiet_env bound_settings
            (note_of_call SUPER_LINK []) (world_with [js "root/links/Bar.md"])
          = (Ret (candidate (js "root/links/Bar") N), w').
Proof.
  destruct (destination_of_link plain_host quiet_env bound_settings
              (note_of_call SUPER_LINK []) (world_with [js "root/links/Bar.md"])
              eq_refl) as (N & w' & H & _).
  exists N, w'. exact H.
Defined.

Lemma destination_of_rich_text_witness :
  (∃ N w', destination plain_host quiet_env bound_settings highlight_note fresh_world
           = (Ret (candidate (js "root/links/Src/Bar") N), w'))
  ∧ (∃ N w', destination plain_host quiet_env bound_settings
               (note_of_call SUPER_RICH_TEXT []) fresh_world
             = (Ret (candidate (js "root/notes/Bar") N), w')).
Proof.
  split.
  - destruct (proj1 (destination_of_rich_text plain_host quiet_env bound_settings
                       highlight_note fresh_world eq_refl) eq_refl)
      as (N & w' & H & _).
    exists N, w'. exact H.
  - destruct (proj2 (destination_of_rich_text plain_host quiet_env bound_settings
                       (note_of_call SUPER_RICH_TEXT []) fresh_world eq_refl) eq_refl)
      as (N & w' & H & _).
    exists N, w'. exact H.
Defined.

Lemma syncNote_gone_or_disabled_witness :
  (_syncNote plain_host stale_env (js "a") (js "tok") fresh_world).2
  = suspended stale_env (GetSyncContent (js "a") (js "tok")) fresh_world.
Proof.
  destruct (syncNote_gone_or_disabled plain_host stale_env (js "a") (js "tok")
              fresh_world
              (_syncNote plain_host stale_env (js "a") (js "tok") fresh_world).2
              (mkResult true false false) eq_refl eq_refl) as (_ & _ & H).
  exact (proj1 (proj2 (H eq_refl))).
Defined.


Lemma sync_loop_ledger_witness :
  count_kind KAckSuccess
    (history (sync_loop plain_host short_page_env 2 (js "tok") (mkCounters 0 0 0)
                fresh_world).2) = 1%nat.
Proof.
  pose proof (sync_loop_ledger plain_host short_page_env 2 (js "tok")
                (mkCounters 0 0 0) (mkCounters 1 1 0) fresh_world
                (sync_loop plain_host short_page_env 2 (js "tok") (mkCounters 0 0 0)
                   fresh_world).2
                ltac:(vm_compute; reflexivity)) as (H & _).
  cbn [successCount history fresh_world count_kind] in H.
  rewrite Nat.add_0_r in H. exact H.
Defined.

Lemma sync_run_reports_acknowledgements_witness :
  ∃ n rest,
    history (sync_run plain_host short_page_env 2 true (js "tok") fresh_world).2
    = ShowNotice n :: rest.
Proof.
  destruct (sync_run_reports_acknowledgements plain_host short_page_env 2 true
              (js "tok") fresh_world
              (sync_run plain_host short_page_env 2 true (js "tok") fresh_world).2
              FellThrough ltac:(vm_compute; reflexivity))
    as (n & rest & H & _).
  exists n, rest. exact H.
Defined.

Lemma sync_items_isolates_failure_witness :
  sync_items plain_host failing_write_env (js "tok") [js "t1"; js "t2"]
    (mkCounters 0 0 0) fresh_world
  = sync_items plain_host failing_write_env (js "tok") [js "t2"]
      (mkCounters 1 0 1)
      (suspended failing_write_env (Sleep 3000)
         (_syncNote plain_host failing_write_env (js "t1") (js "tok")
            fresh_world).2).
Proof.
  exact (sync_items_isolates_failure plain_host failing_write_env (js "tok")
           (js "t1") [js "t2"] (mkCounters 0 0 0) fresh_world
           (_syncNote plain_host failing_write_env (js "t1") (js "tok")
              fresh_world).2
           (mkError (js "Error: write")) ltac:(vm_compute; reflexivity)).
Defined.

Lemma disabled_sync_stays_local_witness :
  count_kind KFetch
    (history (sync plain_host quiet_env 2 true disabled_world).2) = 0%nat.
Proof.
  destruct (disabled_sync_stays_local plain_host quiet_env
              (fun _ _ H => H) 2 true disabled_world eq_refl) as (_ & H & _).
  exact (H KFetch eq_refl).
Defined.

Lemma onunload_disconnects_witness :
  count_kind KContent
    (history (sync plain_host quiet_env 2 true
                (onunload quiet_env fresh_world).2).2) = 0%nat.
Proof.
  destruct (onunload_disconnects plain_host quiet_env (fun _ _ H => H) 2 true
              fresh_world) as (_ & _ & H).
  exact (H KContent eq_refl).
Defined.

Lemma timingSync_waits_witness :
  _timingSync plain_host quiet_env 2 fresh_world = (Ret tt, fresh_world)
  ∧ _timingSync plain_host quiet_env 2 busy_world = (Ret tt, busy_world).
Proof.
  split.
  - apply timingSync_waits. right. right. split; [reflexivity|]. reflexivity.
  - apply timingSync_waits. left. reflexivity.
Defined.

Lemma timingSync_runs_when_due_witness :
  (_timingSync plain_host quiet_env 2 overdue_world).2
  = (sync plain_host quiet_env 2 true overdue_world).2.
Proof.
  refine (proj1 (timingSync_runs_when_due plain_host quiet_env 2 overdue_world
                   eq_refl _)).
  vm_compute. discriminate.
Defined.

Lemma onload_clears_stale_flag_witness :
  syncing (settings (onload_resets quiet_env busy_world).2) = false
  ∧ count_kind KSave (history (onload_resets quiet_env busy_world).2) = 2%nat.
Proof.
  destruct (onload_clears_stale_flag quiet_env busy_world
              (onload_resets quiet_env busy_world).2
              (fun _ _ H => H) ltac:(vm_compute; reflexivity)) as (H1 & _ & H2).
  split; [exact H1 | exact H2].
Defined.

Lemma onload_checked_needs_valid_account_witness :
  count_kind KVault
    (history (onload_checked plain_host revoked_env 2 fresh_world).2) = 0%nat.
Proof.
  refine (proj1 (proj2 (onload_checked_needs_valid_account plain_host revoked_env 2
                          fresh_world _))).
  intros r H. vm_compute in H. injection H as <-. reflexivity.
Defined.

Lemma poller_first_decisive_poll_witness :
  (_getLoginStatus approving_env (prompt 5) (js "sid") fresh_world).1
  = Ret (mkLoginResponse approved_login None).
Proof.
  refine (proj1 (proj2 (poller_first_decisive_poll approving_env (js "sid") 2 5
                          fresh_world _ _ _) _)).
  - lia.
  - lia.
  - intros i Hi. right. destruct i as [|[|i]]; [split; reflexivity..|lia].
  - repeat split.
Defined.
